(** * gwgen: the parameterization tasks of the weather generator

    A shallow embedding of the estimation steps of
    [gwgen/parameterization.py], of the task registry declared there,
    and of the chunking of the stations and the collection of the run
    results in [ModelOrganizer.param] of [gwgen/main.py].  The engine
    of [gwgen.utils] (the ordering of the tasks, their execution and
    the merge of their instances) is modelled from the specification.

    Embedded as well are the frames of the GHCN months and days, the
    daily and monthly cloud values, the names of the EECRA files, the
    run configuration that the tasks write, and, of [gwgen/main.py], the
    names of the experiments, the paths of a configuration and the
    grouping of the arguments of chained commands.

    Data frames are lists of rows, a row being a record of the index
    levels and of the columns the embedded function reads.  numpy's
    float64 cells are exact rationals extended with the special values
    the code tests for ([NaN], the infinities).  Integer columns are [Z]. *)
From Stdlib Require Import ZArith QArith Qround List Bool Lia Lqa Permutation.
From stdpp Require Import base decidable list strings gmap fin_maps sorting
  pretty.

Local Open Scope Z_scope.
Local Open Scope list_scope.

(** ** Float cells *)

(** A float64 cell.  [Fin q] is a number, [NaN] doubles as pandas'
    missing value. *)
Inductive npfloat : Type :=
| Fin (q : Q)
| PInf
| NInf
| NaN.


Module Float.

Definition isnan (x : npfloat) : bool :=
  match x with NaN => true | _ => false end.

Definition isfinite (x : npfloat) : bool :=
  match x with Fin _ => true | _ => false end.

(** [x < y], [x == y] and [x <= y] of floats; every comparison with
    [NaN] is false. *)
Definition ltb (x y : npfloat) : bool :=
  match x, y with
  | NaN, _ | _, NaN => false
  | Fin a, Fin b => match (a ?= b)%Q with Lt => true | _ => false end
  | NInf, NInf => false
  | NInf, _ => true
  | Fin _, PInf => true
  | _, _ => false
  end.

Definition eqb (x y : npfloat) : bool :=
  match x, y with
  | Fin a, Fin b => Qeq_bool a b
  | PInf, PInf | NInf, NInf => true
  | _, _ => false
  end.

Definition leb (x y : npfloat) : bool := ltb x y || eqb x y.

Definition zero : npfloat := Fin 0.

(** [x > 0.0] and [x == 0.0] *)
Definition gt0 (x : npfloat) : bool := ltb zero x.
Definition eq0 (x : npfloat) : bool := eqb x zero.

Definition neg (x : npfloat) : npfloat :=
  match x with
  | Fin q => Fin (- q)
  | PInf => NInf
  | NInf => PInf
  | NaN => NaN
  end.

Definition add (x y : npfloat) : npfloat :=
  match x, y with
  | NaN, _ | _, NaN => NaN
  | Fin a, Fin b => Fin (a + b)
  | PInf, NInf | NInf, PInf => NaN
  | PInf, _ | _, PInf => PInf
  | NInf, _ | _, NInf => NInf
  end.

Definition sub (x y : npfloat) : npfloat := add x (neg y).

(** The infinity of the sign of [q]; zero is taken as positive. *)
Definition inf_of_sign (q : Q) : npfloat :=
  if (Qnum q <? 0)%Z then NInf else PInf.

Definition mul (x y : npfloat) : npfloat :=
  match x, y with
  | NaN, _ | _, NaN => NaN
  | Fin a, Fin b => Fin (a * b)
  | Fin a, PInf | PInf, Fin a =>
      if Qeq_bool a 0 then NaN else inf_of_sign a
  | Fin a, NInf | NInf, Fin a =>
      if Qeq_bool a 0 then NaN else neg (inf_of_sign a)
  | PInf, PInf | NInf, NInf => PInf
  | PInf, NInf | NInf, PInf => NInf
  end.

Definition div (x y : npfloat) : npfloat :=
  match x, y with
  | NaN, _ | _, NaN => NaN
  | Fin a, Fin b =>
      if Qeq_bool b 0
      then (if Qeq_bool a 0 then NaN else inf_of_sign a)
      else Fin (a / b)
  | Fin _, _ => Fin 0
  | PInf, Fin b => inf_of_sign b
  | NInf, Fin b => neg (inf_of_sign b)
  | _, _ => NaN
  end.

(** The square root of a rational, rounded to the grid of its
    denominator; exact on squares. *)
Definition Qsqrt (q : Q) : Q :=
  Z.sqrt (Qnum q * Zpos (Qden q)) # Qden q.

Definition sqrt (x : npfloat) : npfloat :=
  match x with
  | Fin q => if (Qnum q <? 0)%Z then NaN else Fin (Qsqrt q)
  | PInf => PInf
  | _ => NaN
  end.

Definition of_Z (n : Z) : npfloat := Fin (inject_Z n).

Definition of_nat (n : nat) : npfloat := of_Z (Z.of_nat n).

(** [ndarray.sum()] *)
Definition sum (xs : list npfloat) : npfloat := fold_left add xs zero.

(** [ndarray.mean()]: the sum over the length, [NaN] on an empty
    array (0/0). *)
Definition mean (xs : list npfloat) : npfloat :=
  div (sum xs) (of_nat (length xs)).

(** [ndarray.std()]: the root of the mean squared deviation from the
    mean (ddof = 0). *)
Definition std (xs : list npfloat) : npfloat :=
  let m := mean xs in
  sqrt (mean (map (fun x => mul (sub x m) (sub x m)) xs)).

(** Elementwise [a - b] of two arrays of one length. *)
Definition arr_sub (a b : list npfloat) : list npfloat :=
  zip_with sub a b.

(** pandas reductions skip missing cells. *)
Definition dropna (xs : list npfloat) : list npfloat :=
  List.filter (fun x => negb (isnan x)) xs.

Definition series_mean (xs : list npfloat) : npfloat := mean (dropna xs).

Definition fmin (x y : npfloat) : npfloat := if ltb y x then y else x.
Definition fmax (x y : npfloat) : npfloat := if ltb x y then y else x.

Definition series_min (xs : list npfloat) : npfloat :=
  match dropna xs with
  | [] => NaN
  | x :: r => fold_left fmin r x
  end.

Definition series_max (xs : list npfloat) : npfloat :=
  match dropna xs with
  | [] => NaN
  | x :: r => fold_left fmax r x
  end.

(** The cell holds the number zero. *)
Definition is_zero (x : npfloat) : Prop :=
  match x with Fin q => (q == 0)%Q | _ => False end.

(** The cell holds a number of the closed unit interval. *)
Definition in_unit (x : npfloat) : Prop :=
  match x with Fin q => (0 <= q /\ q <= 1)%Q | _ => False end.

End Float.

(** ** Grouping *)

(** [df.groupby(level=...)]: one group per distinct key, the groups in
    ascending key order, each group the rows of that key in frame order. *)
Section groupby.
Context {R K : Type} `{EqDecision K}.
Variable key : R -> K.
Variable kle : K -> K -> bool.

Definition group_keys (df : list R) : list K :=
  merge_sort (fun a b => Is_true (kle a b)) (remove_dups (map key df)).

Definition get_group (df : list R) (k : K) : list R :=
  List.filter (fun r => bool_decide (key r = k)) df.

Definition groupby (df : list R) : list (K * list R) :=
  map (fun k => (k, get_group df k)) (group_keys df).

Definition ngroups (df : list R) : nat := length (groupby df).

(** [g.apply(f)] where [f] returns a frame: the frames of the groups,
    concatenated, every row under the key of its group. *)
Definition groupby_apply {B : Type} (f : list R -> list B) (df : list R)
  : list (K * B) :=
  flat_map (fun g => map (pair (fst g)) (f (snd g))) (groupby df).
End groupby.

(** Lexicographic orders of the index tuples. *)
Definition lex2 {A B} (ea : A -> A -> bool) (la : A -> A -> bool)
    (lb : B -> B -> bool) (x y : A * B) : bool :=
  if ea (fst x) (fst y) then lb (snd x) (snd y) else la (fst x) (fst y).

(** A boolean comparison that is a total order. *)
Definition total_order {A} (le : A -> A -> bool) : Prop :=
  (forall a b, le a b = true \/ le b a = true) /\
  (forall a b c, le a b = true -> le b c = true -> le a c = true) /\
  (forall a b, le a b = true -> le b a = true -> a = b).

Definition zz_le : Z * Z -> Z * Z -> bool := lex2 Z.eqb Z.leb Z.leb.
Definition sz_le : string * Z -> string * Z -> bool :=
  lex2 String.eqb String.leb Z.leb.
Definition szz_le : string * (Z * Z) -> string * (Z * Z) -> bool :=
  lex2 String.eqb String.leb zz_le.
Definition szzz_le : string * (Z * (Z * Z)) -> string * (Z * (Z * Z)) -> bool :=
  lex2 String.eqb String.leb (lex2 Z.eqb Z.leb zz_le).

(** ** The daily cloud task (class [DailyCloud]) *)

Module DailyCloud.

(** One row of the [hourly_cloud] frame: the index levels
    [id, year, month, day, hour] and the columns [calculate_daily]
    reads.  [ww] is the present-weather code (SMALLINT), [AT] the air
    temperature, [N] the total cloud cover in octas, [WS] the wind
    speed. *)
Record hourly : Type := Hourly {
  h_id : string;
  h_year : Z;
  h_month : Z;
  h_day : Z;
  h_hour : Z;
  ww : Z;
  AT : npfloat;
  N : npfloat;
  WS : npfloat;
}.

(** The columns of [calculate_daily]'s one-row frame. *)
Record daily : Type := Daily {
  wet_day : Z;
  tmin : npfloat;
  tmax : npfloat;
  mean_cloud : npfloat;
  wind : npfloat;
}.

(** [((ww >= 50) & (ww <= 75)) | (ww == 75) | (ww == 77) | (ww == 79) |
     ((ww >= 80) & (ww <= 99))], elementwise. *)
Definition wet_code (w : Z) : bool :=
  ((50 <=? w) && (w <=? 75))
  || (w =? 75)
  || (w =? 77)
  || (w =? 79)
  || ((80 <=? w) && (w <=? 99)).

Definition calculate_daily (df : list hourly) : list daily :=
  [ {| wet_day := Z.b2z (existsb wet_code (map ww df));
       tmin := Float.series_min (map AT df);
       tmax := Float.series_max (map AT df);
       mean_cloud := Float.div (Float.series_mean (map N df)) (Float.of_Z 8);
       wind := Float.series_mean (map WS df) |} ].

Definition day_key (r : hourly) : string * (Z * (Z * Z)) :=
  (h_id r, (h_year r, (h_month r, h_day r))).

(** [setup_from_scratch]: one row per calendar day of a station. *)
Definition setup_from_scratch (hourly_cloud : list hourly)
  : list ((string * (Z * (Z * Z))) * daily) :=
  groupby_apply day_key szzz_le calculate_daily hourly_cloud.

End DailyCloud.

(** ** The complete daily GHCN frame (class [CompleteDailyGHCNData]) *)

Module CompleteDaily.

(** One row of the [cday] frame: the index levels
    [id, year, month, day] and the three measurements.  [cday] is the
    inner merge of the daily frame with the months whose [prcp],
    [tmin] and [tmax] counts equal the days of the month, so none of
    its cells is missing: the cells are numbers. *)
Record row : Type := Row {
  id : string;
  year : Z;
  month : Z;
  day : Z;
  prcp : Q;
  tmin : Q;
  tmax : Q;
}.

(** [df.prcp.values], [df.tmin.values], [df.tmax.values] *)
Definition prcp_values (df : list row) : list npfloat :=
  map (fun r => Fin (prcp r)) df.
Definition tmin_values (df : list row) : list npfloat :=
  map (fun r => Fin (tmin r)) df.
Definition tmax_values (df : list row) : list npfloat :=
  map (fun r => Fin (tmax r)) df.

Definition id_month (r : row) : string * Z := (id r, month r).
Definition year_month (r : row) : Z * Z := (year r, month r).

End CompleteDaily.

(** ** numpy arrays *)

Module Arr.

(** [a[:-1]], [a[1:]], [a[:-2]], [a[1:-1]], [a[2:]] *)
Definition but_last {A} (a : list A) : list A := firstn (length a - 1) a.
Definition from_1 {A} (a : list A) : list A := skipn 1 a.
Definition but_last2 {A} (a : list A) : list A := firstn (length a - 2) a.
Definition inner {A} (a : list A) : list A :=
  firstn (length a - 2) (skipn 1 a).
Definition from_2 {A} (a : list A) : list A := skipn 2 a.

(** [a & b] of boolean arrays *)
Definition band (a b : list bool) : list bool := zip_with andb a b.

(** [a.sum()] of a boolean array *)
Definition count (a : list bool) : Z :=
  Z.of_nat (length (List.filter (fun b => b) a)).

(** [a[mask]] *)
Fixpoint select {A} (a : list A) (mask : list bool) : list A :=
  match a, mask with
  | x :: a', m :: mask' =>
      if m then x :: select a' mask' else select a' mask'
  | _, _ => []
  end.

End Arr.

(** ** The Markov chain task (class [MarkovChain]) *)

Module MarkovChain.

(** The one-row frame of [calc_ndays]. *)
Record ndays : Type := NDays {
  n : Z;
  nwet : Z;
  ndry : Z;
  np11 : Z;
  np01 : Z;
  np001 : Z;
  np001_denom : Z;
  np101 : Z;
  np101_denom : Z;
}.

(** [calc_ndays]; [None] is the row of nine [NaN] returned for an
    empty frame. *)
Definition calc_ndays (df : list CompleteDaily.row) : option ndays :=
  match df with
  | [] => None
  | _ =>
    let vals := CompleteDaily.prcp_values df in
    let wet a := map Float.gt0 a in
    let dry a := map Float.eq0 a in
    let np001 := Arr.count (Arr.band (Arr.band
                   (dry (Arr.but_last2 vals)) (dry (Arr.inner vals)))
                   (wet (Arr.from_2 vals))) in
    let np101 := Arr.count (Arr.band (Arr.band
                   (wet (Arr.but_last2 vals)) (dry (Arr.inner vals)))
                   (wet (Arr.from_2 vals))) in
    Some {|
      n := Z.of_nat (length vals);
      nwet := Arr.count (wet (Arr.but_last vals));
      ndry := Arr.count (dry (Arr.but_last vals));
      np11 := Arr.count (Arr.band (wet (Arr.but_last vals))
                                  (wet (Arr.from_1 vals)));
      np01 := Arr.count (Arr.band (dry (Arr.but_last vals))
                                  (wet (Arr.from_1 vals)));
      np001 := np001;
      np001_denom := np001 + Arr.count (Arr.band (Arr.band
                   (dry (Arr.but_last2 vals)) (dry (Arr.inner vals)))
                   (dry (Arr.from_2 vals)));
      np101 := np101;
      np101_denom := np101 + Arr.count (Arr.band (Arr.band
                   (wet (Arr.but_last2 vals)) (dry (Arr.inner vals)))
                   (dry (Arr.from_2 vals)));
    |}
  end.

Definition zero_ndays : ndays := NDays 0 0 0 0 0 0 0 0 0.

Definition add_ndays (a b : ndays) : ndays :=
  {| n := n a + n b;
     nwet := nwet a + nwet b;
     ndry := ndry a + ndry b;
     np11 := np11 a + np11 b;
     np01 := np01 a + np01 b;
     np001 := np001 a + np001 b;
     np001_denom := np001_denom a + np001_denom b;
     np101 := np101 a + np101 b;
     np101_denom := np101_denom a + np101_denom b |}.

(** [frame.sum()]: the column sums, missing cells skipped. *)
Definition sum_ndays (rows : list (option ndays)) : ndays :=
  fold_right (fun r acc =>
                match r with Some c => add_ndays c acc | None => acc end)
             zero_ndays rows.

(** [g.apply(cls.calc_ndays).sum()] for
    [g = df.groupby(level=['year', 'month'])]. *)
Definition pooled (df : list CompleteDaily.row) : ndays :=
  sum_ndays (map (fun g => calc_ndays (snd g))
                 (groupby CompleteDaily.year_month zz_le df)).

(** The columns of the frame of [calculate_probabilities]. *)
Record probs : Type := Probs {
  p11 : npfloat;
  p01 : npfloat;
  p001 : npfloat;
  p101 : npfloat;
  wetf : npfloat;
}.

(** [num / den if den > 0 else 0]; the division is the true division
    of two integer cells. *)
Definition ratio (num den : Z) : npfloat :=
  if 0 <? den then Float.div (Float.of_Z num) (Float.of_Z den)
  else Float.zero.

(** [calculate_probabilities]: a frame of one row, or of none. *)
Definition calculate_probabilities (df : list CompleteDaily.row)
  : list probs :=
  if (10 <? ngroups CompleteDaily.year_month zz_le df)%nat then
    let dfs := pooled df in
    [ {| p11 := ratio (np11 dfs) (nwet dfs);
         p01 := ratio (np01 dfs) (ndry dfs);
         p001 := ratio (np001 dfs) (np001_denom dfs);
         p101 := ratio (np101 dfs) (np101_denom dfs);
         wetf := ratio (nwet dfs) (n dfs) |} ]
  else [].

(** [setup_from_scratch]: the frame of the task, indexed by
    [id, month]. *)
Definition setup_from_scratch (cday : list CompleteDaily.row)
  : list ((string * Z) * probs) :=
  groupby_apply CompleteDaily.id_month sz_le calculate_probabilities cday.

End MarkovChain.

(** The counts of one frame, and their sums, are ordered as numerators
    and denominators. *)
Definition ndays_ordered (c : MarkovChain.ndays) : Prop :=
  0 <= MarkovChain.np11 c <= MarkovChain.nwet c /\
  0 <= MarkovChain.np01 c <= MarkovChain.ndry c /\
  0 <= MarkovChain.np001 c <= MarkovChain.np001_denom c /\
  0 <= MarkovChain.np101 c <= MarkovChain.np101_denom c /\
  0 <= MarkovChain.nwet c <= MarkovChain.n c.

(** ** The temperature task (class [TemperatureParameterizer]) *)

Module TemperatureParameterizer.

(** The columns of the frame of [calc_monthly_props]. *)
Record props : Type := Props {
  tmin_wet : npfloat;
  tmax_wet : npfloat;
  tminstddev_wet : npfloat;
  tmaxstddev_wet : npfloat;
  trange_wet : npfloat;
  trangestddev_wet : npfloat;
  tmin_dry : npfloat;
  tmax_dry : npfloat;
  tminstddev_dry : npfloat;
  tmaxstddev_dry : npfloat;
  trange_dry : npfloat;
  trangestddev_dry : npfloat;
  tmin : npfloat;
  tmax : npfloat;
  tminstddev : npfloat;
  tmaxstddev : npfloat;
  trange : npfloat;
  trangestddev : npfloat;
  t : npfloat;
  tstddev : npfloat;
  prcp_wet : npfloat;
  alpha : npfloat;
  beta : npfloat;
}.

(** [wet = prcp_vals > 0.0] and [dry = prcp_vals == 0] *)
Definition wet (df : list CompleteDaily.row) : list bool :=
  map Float.gt0 (CompleteDaily.prcp_values df).
Definition dry (df : list CompleteDaily.row) : list bool :=
  map Float.eq0 (CompleteDaily.prcp_values df).

Definition arr_tmin_wet (df : list CompleteDaily.row) : list npfloat :=
  Arr.select (CompleteDaily.tmin_values df) (wet df).
Definition arr_tmin_dry (df : list CompleteDaily.row) : list npfloat :=
  Arr.select (CompleteDaily.tmin_values df) (dry df).
Definition arr_tmax_wet (df : list CompleteDaily.row) : list npfloat :=
  Arr.select (CompleteDaily.tmax_values df) (wet df).
Definition arr_tmax_dry (df : list CompleteDaily.row) : list npfloat :=
  Arr.select (CompleteDaily.tmax_values df) (dry df).

(** [(arr_tmin + arr_tmax) * 0.5] *)
Definition arr_t (df : list CompleteDaily.row) : list npfloat :=
  map (fun x => Float.mul x (Fin (1 # 2)))
      (zip_with Float.add (CompleteDaily.tmin_values df)
                          (CompleteDaily.tmax_values df)).

Section calc_monthly_props.
(** numpy's [log] and [exp] *)
Variable np_log : npfloat -> npfloat.
Variable np_exp : npfloat -> npfloat.

(** [am], the arithmetic, and [gm], the geometric mean of the wet-day
    precipitation *)
Definition am (df : list CompleteDaily.row) : npfloat :=
  Float.mean (Arr.select (CompleteDaily.prcp_values df) (wet df)).
Definition gm (df : list CompleteDaily.row) : npfloat :=
  np_exp (Float.mean
            (map np_log (Arr.select (CompleteDaily.prcp_values df) (wet df)))).

(** [fields = am != gm]; [NaN != NaN] holds. *)
Definition fields (df : list CompleteDaily.row) : bool :=
  negb (Float.eqb (am df) (gm df)).

(** [0.5000876 / log(am / gm) + 0.16488552 - 0.0544274 * log(am / gm)] *)
Definition alpha_of (df : list CompleteDaily.row) : npfloat :=
  let l := np_log (Float.div (am df) (gm df)) in
  Float.sub
    (Float.add (Float.div (Fin (5000876 # 10000000)) l)
               (Fin (16488552 # 100000000)))
    (Float.mul (Fin (544274 # 10000000)) l).

(** [calc_monthly_props]: the statistics of one month of one year.  The
    cells [alpha] and [beta] are arrays indexed by [fields], of one
    element when [am != gm] and empty otherwise, and the frame built
    from the dictionary has their length. *)
Definition calc_monthly_props (df : list CompleteDaily.row) : list props :=
  if fields df then
    [ {| tmin_wet := Float.mean (arr_tmin_wet df);
         tmax_wet := Float.mean (arr_tmax_wet df);
         tminstddev_wet := Float.std (arr_tmin_wet df);
         tmaxstddev_wet := Float.std (arr_tmax_wet df);
         trange_wet :=
           Float.mean (Float.arr_sub (arr_tmax_wet df) (arr_tmax_wet df));
         trangestddev_wet :=
           Float.std (Float.arr_sub (arr_tmax_wet df) (arr_tmax_wet df));
         tmin_dry := Float.mean (arr_tmin_dry df);
         tmax_dry := Float.mean (arr_tmax_dry df);
         tminstddev_dry := Float.std (arr_tmin_dry df);
         tmaxstddev_dry := Float.std (arr_tmax_dry df);
         trange_dry :=
           Float.mean (Float.arr_sub (arr_tmax_dry df) (arr_tmax_dry df));
         trangestddev_dry :=
           Float.std (Float.arr_sub (arr_tmax_dry df) (arr_tmax_dry df));
         tmin := Float.mean (CompleteDaily.tmin_values df);
         tmax := Float.mean (CompleteDaily.tmax_values df);
         tminstddev := Float.std (CompleteDaily.tmin_values df);
         tmaxstddev := Float.std (CompleteDaily.tmax_values df);
         trange :=
           Float.mean (Float.arr_sub (CompleteDaily.tmin_values df)
                                     (CompleteDaily.tmax_values df));
         trangestddev :=
           Float.std (Float.arr_sub (CompleteDaily.tmin_values df)
                                    (CompleteDaily.tmax_values df));
         t := Float.mean (arr_t df);
         tstddev := Float.std (arr_t df);
         prcp_wet := am df;
         alpha := alpha_of df;
         beta := Float.div (am df) (alpha_of df) |} ]
  else [].
End calc_monthly_props.

End TemperatureParameterizer.

(** ** The precipitation distribution task (class [PrcpDistParams]) *)

Module PrcpDistParams.

(** [Index.unique()]: the distinct values in order of first appearance. *)
Definition unique {A} `{EqDecision A} (l : list A) : list A :=
  fold_left (fun acc x => if decide (x ∈ acc) then acc else acc ++ [x])
            l [].

(** The identification that the error message prints:
    [df.index.get_level_values(n).unique()] for each of the index
    levels [id, year, month, day]. *)
Record ident : Type := Ident {
  ids : list string;
  years : list Z;
  months : list Z;
  days : list Z;
}.

Definition index_ident (df : list CompleteDaily.row) : ident :=
  {| ids := unique (map CompleteDaily.id df);
     years := unique (map CompleteDaily.year df);
     months := unique (map CompleteDaily.month df);
     days := unique (map CompleteDaily.day df) |}.

(** What [prcp_dist_params] does besides computing: the calls of the
    two fitting routines, the critical log records and the frame written
    to a temporary csv file. *)
Inductive event : Type :=
| GammaFit (vals : list npfloat)
| GenparetoFit (thresh : Q) (arr : list npfloat)
| LogError (who : ident)
| ToCsv (df : list CompleteDaily.row)
| LogStored.

(** Computations that leave a trace of events. *)
Definition M (A : Type) : Type := (A * list event)%type.

Definition ret {A} (a : A) : M A := (a, []).

Definition bind {A B} (m : M A) (k : A -> M B) : M B :=
  let (b, e2) := k (fst m) in (b, snd m ++ e2).

Definition emit (e : event) : M unit := (tt, [e]).

Notation "'call' x <~ m ;> k" := (bind m (fun x => k))
  (at level 10, x name, m at level 100, k at level 200).
Notation "'exec' m ;> k" := (bind m (fun _ => k))
  (at level 10, m at level 100, k at level 200).

Fixpoint mapM {A B} (f : A -> M B) (l : list A) : M (list B) :=
  match l with
  | [] => ret []
  | a :: l' => call b <~ f a ;> call bs <~ mapM f l' ;> ret (b :: bs)
  end.

Fixpoint foldM {A S} (f : S -> A -> M S) (l : list A) (s : S) : M S :=
  match l with
  | [] => ret s
  | a :: l' => call s' <~ f s a ;> foldM f l' s'
  end.

(** The four lists that the loop over the thresholds fills in. *)
Record gp_lists : Type := GpLists {
  ngp : list npfloat;
  pshape : list npfloat;
  pscale : list npfloat;
  pscale_orig : list npfloat;
}.

(** One row of the frame of [prcp_dist_params], indexed by [thresh]. *)
Record params : Type := Params {
  r_n : Z;
  r_ngamma : Z;
  r_mean_wet : npfloat;
  r_ngp : npfloat;
  r_thresh : Q;
  r_gshape : npfloat;
  r_gscale : npfloat;
  r_pshape : npfloat;
  r_pscale : npfloat;
  r_pscale_orig : npfloat;
}.

Section prcp_dist_params.
(** scipy's fitting routines, [None] when they raise, and the Gamma
    distribution functions.  [gamma_fit vals] is
    [stats.gamma.fit(vals, floc=0)] without the location,
    [genpareto_fit thresh arr] is [stats.genpareto.fit(arr, floc=thresh)]
    without the location, [gamma_cdf x a scale] and [gamma_pdf x a scale]
    are [stats.gamma.cdf(x, a, scale=scale)] and [stats.gamma.pdf]. *)
Variable gamma_fit : list npfloat -> option (npfloat * npfloat).
Variable genpareto_fit : Q -> list npfloat -> option (npfloat * npfloat).
Variable gamma_cdf : npfloat -> npfloat -> npfloat -> npfloat.
Variable gamma_pdf : npfloat -> npfloat -> npfloat -> npfloat.

(** The [except] suites: the critical record with the identification
    of the frame, the frame written to a temporary file, the record of
    where it was stored. *)
Definition on_error (df : list CompleteDaily.row) : M unit :=
  exec emit (LogError (index_ident df)) ;>
  exec emit (ToCsv df) ;>
  emit LogStored.

(** [vals[vals >= thresh]] *)
Definition exceedances (vals : list npfloat) (thresh : Q) : list npfloat :=
  List.filter (fun v => Float.leb (Fin thresh) v) vals.

(** The body of [for i, thresh in enumerate(threshs)]. *)
Definition thresh_body (df : list CompleteDaily.row) (vals : list npfloat)
    (gshape gscale : npfloat) (st : gp_lists) (it : nat * Q) : M gp_lists :=
  let (i, thresh) := it in
  let arr := exceedances vals thresh in
  let st := {| ngp := <[i := Float.of_nat (length arr)]> (ngp st);
               pshape := pshape st;
               pscale := pscale st;
               pscale_orig := pscale_orig st |} in
  if (10 <? length arr)%nat then
    exec emit (GenparetoFit thresh arr) ;>
    match genpareto_fit thresh arr with
    | None => exec on_error df ;> ret st
    | Some (psh, pso) =>
        ret {| ngp := ngp st;
               pshape := <[i := psh]> (pshape st);
               pscale :=
                 <[i := Float.div
                          (Float.sub (Fin 1)
                             (gamma_cdf (Fin thresh) gshape gscale))
                          (gamma_pdf (Fin thresh) gshape gscale)]>
                   (pscale st);
               pscale_orig := <[i := pso]> (pscale_orig st) |}
    end
  else ret st.

(** [enumerate(threshs)] *)
Definition enumerate {A} (l : list A) : list (nat * A) :=
  combine (seq 0 (length l)) l.

(** [prcp_dist_params(df, threshs)]: the frame, one row per threshold. *)
Definition prcp_dist_params (df : list CompleteDaily.row) (threshs : list Q)
  : M (list params) :=
  let vals := Float.dropna (CompleteDaily.prcp_values df) in
  let N := length threshs in
  let n := Z.of_nat (length vals * N) in
  let vals := List.filter Float.gt0 vals in
  let ngamma := length vals in
  let nans := {| ngp := repeat NaN N; pshape := repeat NaN N;
                 pscale := repeat NaN N; pscale_orig := repeat NaN N |} in
  call fit <~ (if (10 <? ngamma)%nat then
            exec emit (GammaFit vals) ;>
            match gamma_fit vals with
            | None => exec on_error df ;> ret (NaN, NaN, nans)
            | Some (gshape, gscale) =>
                call st <~ foldM (thresh_body df vals gshape gscale)
                            (enumerate threshs) nans ;>
                ret (gshape, gscale, st)
            end
          else ret (NaN, NaN, nans)) ;>
  let '(gshape, gscale, st) := fit in
  ret (imap (fun i thresh =>
               {| r_n := n;
                  r_ngamma := Z.of_nat ngamma;
                  r_mean_wet := Float.mean vals;
                  r_ngp := nth i (ngp st) NaN;
                  r_thresh := thresh;
                  r_gshape := gshape;
                  r_gscale := gscale;
                  r_pshape := nth i (pshape st) NaN;
                  r_pscale := nth i (pscale st) NaN;
                  r_pscale_orig := nth i (pscale_orig st) NaN |})
            threshs).

(** The thresholds of [setup_from_scratch]: [threshs2compute], with the
    task's [thresh] appended when it is not among them. *)
Definition all_threshs (threshs2compute : list Q) (thresh : Q) : list Q :=
  if existsb (fun t => Qeq_bool t thresh) threshs2compute
  then threshs2compute
  else threshs2compute ++ [thresh].

(** [setup_from_scratch]: the frame of the task, indexed by
    [id, month] and the threshold. *)
Definition setup_from_scratch (cday : list CompleteDaily.row)
    (threshs2compute : list Q) (thresh : Q)
  : M (list ((string * Z) * params)) :=
  let threshs := all_threshs threshs2compute thresh in
  call frames <~ mapM (fun g => call rows <~ prcp_dist_params (snd g) threshs ;>
                           ret (map (pair (fst g)) rows))
                 (groupby CompleteDaily.id_month sz_le cday) ;>
  ret (concat frames).
End prcp_dist_params.

End PrcpDistParams.

(** *** The loop over the thresholds, threshold by threshold *)

(** What the body of the loop leaves at the index of one threshold, and
    the events it adds; the loop is shown below to compute exactly
    these. *)
Section per_threshold.
Variable genpareto_fit : Q -> list npfloat -> option (npfloat * npfloat).
Variable gamma_cdf : npfloat -> npfloat -> npfloat -> npfloat.
Variable gamma_pdf : npfloat -> npfloat -> npfloat -> npfloat.
Variable df : list CompleteDaily.row.
Variable vals : list npfloat.
Variable gshape gscale : npfloat.

Definition cell_ngp (thresh : Q) : npfloat :=
  Float.of_nat (length (PrcpDistParams.exceedances vals thresh)).

(** The Pareto fit of one threshold, when it is tried and succeeds. *)
Definition gp_fit (thresh : Q) : option (npfloat * npfloat) :=
  let arr := PrcpDistParams.exceedances vals thresh in
  if (10 <? length arr)%nat then genpareto_fit thresh arr else None.

Definition cell_pshape (thresh : Q) : npfloat :=
  match gp_fit thresh with Some (psh, _) => psh | None => NaN end.

Definition cell_pscale (thresh : Q) : npfloat :=
  match gp_fit thresh with
  | Some _ =>
      Float.div (Float.sub (Fin 1) (gamma_cdf (Fin thresh) gshape gscale))
                (gamma_pdf (Fin thresh) gshape gscale)
  | None => NaN
  end.

Definition cell_pscale_orig (thresh : Q) : npfloat :=
  match gp_fit thresh with Some (_, pso) => pso | None => NaN end.

Definition error_events : list PrcpDistParams.event :=
  [ PrcpDistParams.LogError (PrcpDistParams.index_ident df);
    PrcpDistParams.ToCsv df;
    PrcpDistParams.LogStored ].

Definition gp_events (thresh : Q) : list PrcpDistParams.event :=
  let arr := PrcpDistParams.exceedances vals thresh in
  if (10 <? length arr)%nat then
    PrcpDistParams.GenparetoFit thresh arr ::
    match genpareto_fit thresh arr with
    | Some _ => []
    | None => error_events
    end
  else [].
End per_threshold.

(** The wet-day samples of a frame: [vals[vals > 0]] of the non-missing
    precipitation values. *)
Definition wet_samples (df : list CompleteDaily.row) : list npfloat :=
  List.filter Float.gt0 (Float.dropna (CompleteDaily.prcp_values df)).

(** The row of a threshold whose cells were all left [NaN], and the
    row of a threshold after a successful Gamma fit. *)
Definition nan_row (df : list CompleteDaily.row) (threshs : list Q) (t : Q)
  : PrcpDistParams.params :=
  {| PrcpDistParams.r_n :=
       Z.of_nat (length (Float.dropna (CompleteDaily.prcp_values df))
                 * length threshs);
     PrcpDistParams.r_ngamma := Z.of_nat (length (wet_samples df));
     PrcpDistParams.r_mean_wet := Float.mean (wet_samples df);
     PrcpDistParams.r_ngp := NaN;
     PrcpDistParams.r_thresh := t;
     PrcpDistParams.r_gshape := NaN;
     PrcpDistParams.r_gscale := NaN;
     PrcpDistParams.r_pshape := NaN;
     PrcpDistParams.r_pscale := NaN;
     PrcpDistParams.r_pscale_orig := NaN |}.

Definition fit_row
    (genpareto_fit : Q -> list npfloat -> option (npfloat * npfloat))
    (gamma_cdf gamma_pdf : npfloat -> npfloat -> npfloat -> npfloat)
    (df : list CompleteDaily.row) (threshs : list Q)
    (gshape gscale : npfloat) (t : Q) : PrcpDistParams.params :=
  {| PrcpDistParams.r_n :=
       Z.of_nat (length (Float.dropna (CompleteDaily.prcp_values df))
                 * length threshs);
     PrcpDistParams.r_ngamma := Z.of_nat (length (wet_samples df));
     PrcpDistParams.r_mean_wet := Float.mean (wet_samples df);
     PrcpDistParams.r_ngp := cell_ngp (wet_samples df) t;
     PrcpDistParams.r_thresh := t;
     PrcpDistParams.r_gshape := gshape;
     PrcpDistParams.r_gscale := gscale;
     PrcpDistParams.r_pshape := cell_pshape genpareto_fit (wet_samples df) t;
     PrcpDistParams.r_pscale :=
       cell_pscale genpareto_fit gamma_cdf gamma_pdf (wet_samples df)
                   gshape gscale t;
     PrcpDistParams.r_pscale_orig :=
       cell_pscale_orig genpareto_fit (wet_samples df) t |}.

(** ** Collecting the run results ([ModelOrganizer.param]) *)

Module ModelOrganizer.

(** A value of a namelist or of the task information: a number or a
    (nested) list. *)
#[local] Unset Elimination Schemes.
Inductive nml_value : Type :=
| NmlFloat (x : npfloat)
| NmlList (l : list nml_value).
#[local] Set Elimination Schemes.

(** A task after [setup_from_instances], with what its [run] step
    returns: [task_nml], a mapping from namelist sections to their
    keys and values, and [task_info].  The mappings are ordered
    dictionaries in the source; the order of the keys plays no role in
    what is stored under them. *)
Record task : Type := Task {
  name : string;
  has_run : bool;
  task_nml : gmap string (gmap string nml_value);
  task_info : gmap string nml_value;
}.

(** [exp_nml.setdefault(key, OrderedDict()).update(val)] *)
Definition update_section (exp_nml : gmap string (gmap string nml_value))
    (key : string) (val : gmap string nml_value)
  : gmap string (gmap string nml_value) :=
  <[key := val ∪ default ∅ (exp_nml !! key)]> exp_nml.

(** [if task_nml: for key, val in task_nml.items(): ...] *)
Definition update_nml (exp_nml task_nml : gmap string (gmap string nml_value))
  : gmap string (gmap string nml_value) :=
  if decide (task_nml = ∅) then exp_nml
  else map_fold (fun key val acc => update_section acc key val)
                exp_nml task_nml.

(** [if task_info: param_info[task.name] = task_info] *)
Definition update_info (param_info : gmap string (gmap string nml_value))
    (t : task) : gmap string (gmap string nml_value) :=
  if decide (task_info t = ∅) then param_info
  else <[name t := task_info t]> param_info.

(** The body of [for i, task in enumerate(tasks[0])], on the pair of
    [exp_nml] and [param_info]. *)
Definition collect_task
    (acc : gmap string (gmap string nml_value)
           * gmap string (gmap string nml_value)) (t : task) :=
  if has_run t
  then (update_nml (fst acc) (task_nml t), update_info (snd acc) t)
  else acc.

(** The loop over the tasks, from the [namelist] and the
    [parameterization] entries of the experiment. *)
Definition collect (exp_nml param_info : gmap string (gmap string nml_value))
    (tasks : list task) :=
  fold_left collect_task tasks (exp_nml, param_info).

(** [nml[section][key]] *)
Definition nml_lookup (nml : gmap string (gmap string nml_value))
    (section key : string) : option nml_value :=
  nml !! section ≫= fun sec => sec !! key.

End ModelOrganizer.

(** ** The cross correlation task (class [CrossCorrelation]) *)

Module CrossCorrelation.

(** [cols = ['tmin', 'tmax', 'mean_cloud']] *)
Inductive col : Type := tmin | tmax | mean_cloud.

Definition cols : list col := [tmin; tmax; mean_cloud].

(** A square frame or array over [cols], rows first.  The cells are
    exact rationals. *)
Definition matrix : Type := col -> col -> Q.

(** The frame of the task: indexed by [variable], with the columns
    [cols] (the lag-0 correlations) and [lag1_cols] (the columns
    [tmin1], [tmax1], [mean_cloud1] of the lag-1 correlations). *)
Record frame : Type := Frame {
  lag0 : matrix;
  lag1 : matrix;
}.

(** Equality of all cells. *)
Definition mat_eq (x y : matrix) : Prop := forall i j, (x i j == y i j)%Q.

(** [m.T], [np.dot(x, y)], [x - y], [m.tolist()] *)
Definition transpose (m : matrix) : matrix := fun i j => m j i.

Definition dot (x y : matrix) : matrix :=
  fun i j => (x i tmin * y tmin j + x i tmax * y tmax j
              + x i mean_cloud * y mean_cloud j)%Q.

Definition sub (x y : matrix) : matrix := fun i j => (x i j - y i j)%Q.

Definition tolist (m : matrix) : list (list Q) :=
  map (fun i => map (m i) cols) cols.

(** What [run] stores: [nml['a']], [nml['b']], [info['M0']] and
    [info['M1']]. *)
Record result : Type := Result {
  a : matrix;
  b : matrix;
  M0 : matrix;
  M1 : matrix;
}.

Section run.
(** numpy's [linalg.inv] and [linalg.cholesky]; [None] when they raise
    [LinAlgError]. *)
Variable inv : matrix -> option matrix.
Variable cholesky : matrix -> option matrix.

(** The argument of [np.linalg.cholesky] in [run]. *)
Definition innovation (m0 m1 m0i : matrix) : matrix :=
  sub m0 (dot (dot m1 m0i) (transpose m1)).

(** [run]; [None] when one of the two numpy routines raises. *)
Definition run (data : frame) : option result :=
  let m0 := lag0 data in
  let m1 := lag1 data in
  match inv m0 with
  | None => None
  | Some m0i =>
      match cholesky (innovation m0 m1 m0i) with
      | None => None
      | Some l =>
          Some {| a := dot m1 m0i;
                  b := transpose l;
                  M0 := m0;
                  M1 := m1 |}
      end
  end.
End run.

(** *** Exact stand-ins for the two numpy routines *)

Definition of_rows (r1 r2 r3 : Q * Q * Q) : matrix :=
  fun i j =>
    let '(x, y, z) := match i with tmin => r1 | tmax => r2 | mean_cloud => r3 end in
    match j with tmin => x | tmax => y | mean_cloud => z end.

Definition identity : matrix :=
  of_rows (1, 0, 0)%Q (0, 1, 0)%Q (0, 0, 1)%Q.

Definition mat_eqb (x y : matrix) : bool :=
  forallb (fun i => forallb (fun j => Qeq_bool (x i j) (y i j)) cols) cols.

(** The inverse by the adjugate; [None] for a singular matrix. *)
Definition inv3 (m : matrix) : option matrix :=
  let a := m tmin tmin in let b := m tmin tmax in
  let c := m tmin mean_cloud in
  let d := m tmax tmin in let e := m tmax tmax in
  let f := m tmax mean_cloud in
  let g := m mean_cloud tmin in let h := m mean_cloud tmax in
  let i := m mean_cloud mean_cloud in
  let det := (a * (e * i - f * h) - b * (d * i - f * g)
              + c * (d * h - e * g))%Q in
  if Qeq_bool det 0 then None
  else Some (of_rows
    ((e * i - f * h) / det, (c * h - b * i) / det, (b * f - c * e) / det)%Q
    ((f * g - d * i) / det, (a * i - c * g) / det, (c * d - a * f) / det)%Q
    ((d * h - e * g) / det, (b * g - a * h) / det, (a * e - b * d) / det)%Q).

(** The lower Cholesky factor, column by column; [None] unless the
    factor found reproduces the matrix (a pivot that is not positive,
    or not the square of a rational, fails this). *)
Definition cholesky3 (s : matrix) : option matrix :=
  let l11 := Float.Qsqrt (s tmin tmin) in
  let l21 := (s tmax tmin / l11)%Q in
  let l31 := (s mean_cloud tmin / l11)%Q in
  let l22 := Float.Qsqrt (s tmax tmax - l21 * l21)%Q in
  let l32 := ((s mean_cloud tmax - l31 * l21) / l22)%Q in
  let l33 := Float.Qsqrt (s mean_cloud mean_cloud - l31 * l31 - l32 * l32)%Q in
  let l := of_rows (l11, 0, 0)%Q (l21, l22, 0)%Q (l31, l32, l33)%Q in
  if mat_eqb (dot l (transpose l)) s then Some l else None.

End CrossCorrelation.

(** ** The registry of tasks and the order of their execution *)

Module Registry.

(** What a task class declares for the engine. *)
Record descriptor : Type := Descriptor {
  name : string;
  setup_requires : list string;
  setup_parallel : bool;
  has_run : bool;
}.

(** Modelled from the spec: the defaults of the class attributes that
    [TaskBase] (in [gwgen.utils]) gives to a task that does not set
    them: no prerequisite, safe to set up in parallel, no run step. *)
Definition task (name : string) (setup_requires : list string)
    (has_run : bool) : descriptor :=
  Descriptor name setup_requires true has_run.

(** The tasks of [parameterization.py] in the order of their
    definition, each with its [name], [setup_requires] and [has_run];
    [corr] alone sets [setup_parallel = False]. *)
Definition registry : list descriptor :=
  [ task "day" [] false;
    task "month" ["day"] false;
    task "cmonth" ["month"] false;
    task "yearly_cmonth" ["month"] false;
    task "cday" ["day"; "month"] false;
    task "yearly_cday" ["day"; "month"] false;
    task "prcp" ["cday"] true;
    task "markov" ["cday"] true;
    task "temp" ["cday"] true;
    task "hourly_cloud" [] false;
    task "daily_cloud" ["hourly_cloud"] false;
    task "monthly_cloud" ["daily_cloud"] false;
    task "cmonthly_cloud" ["monthly_cloud"] false;
    task "yearly_cmonthly_cloud" ["cmonthly_cloud"] false;
    task "cloud" ["cmonthly_cloud"] true;
    task "cdaily_cloud" ["daily_cloud"; "monthly_cloud"] false;
    task "yearly_cdaily_cloud" ["cdaily_cloud"; "cmonthly_cloud"] false;
    Descriptor "corr" ["yearly_cdaily_cloud"] false true ]%string.

Definition find_task (reg : list descriptor) (n : string)
  : option descriptor :=
  List.find (fun d => String.eqb (name d) n) reg.

Inductive resolve_error : Type :=
| CyclicDependencyError (n : string)
| UnknownTaskError (n : string).

(** The given names, later registered tasks first; unknown names last. *)
Definition by_reverse_registration (reg : list descriptor)
    (names : list string) : list string :=
  List.filter (fun n => bool_decide (n ∈ names)) (rev (map name reg))
  ++ List.filter (fun n => negb (bool_decide (n ∈ map name reg))) names.

(** Modelled from the spec: the dependency resolver (the ordering of
    the tasks by requirement, in [gwgen.utils]).  A task is appended
    once all its prerequisites are; [stack] holds the tasks whose
    prerequisites are being resolved, [done] the order built so far.
    Independent tasks are taken in reverse registration order.  The
    depth of the search is bounded by [fuel]. *)
Fixpoint visit (reg : list descriptor) (fuel : nat)
    (stack done : list string) (n : string)
  : resolve_error + list string :=
  match fuel with
  | O => inl (CyclicDependencyError n)
  | S fuel' =>
      if bool_decide (n ∈ done) then inr done
      else if bool_decide (n ∈ stack) then inl (CyclicDependencyError n)
      else
        match find_task reg n with
        | None => inl (UnknownTaskError n)
        | Some d =>
            let fix visit_all (names : list string) (done : list string)
              : resolve_error + list string :=
              match names with
              | [] => inr done
              | m :: names' =>
                  match visit reg fuel' (n :: stack) done m with
                  | inl e => inl e
                  | inr done' => visit_all names' done'
                  end
              end in
            match visit_all
                    (by_reverse_registration reg (setup_requires d)) done with
            | inl e => inl e
            | inr done' => inr (done' ++ [n])
            end
        end
  end.

Fixpoint visit_list (reg : list descriptor) (fuel : nat)
    (names done : list string) : resolve_error + list string :=
  match names with
  | [] => inr done
  | n :: names' =>
      match visit reg fuel [] done n with
      | inl e => inl e
      | inr done' => visit_list reg fuel names' done'
      end
  end.

(** Modelled from the spec: the order of execution for the requested
    tasks, which covers them and their transitive prerequisites, each
    once, every task after its prerequisites. *)
Definition resolve (reg : list descriptor) (requested : list string)
  : resolve_error + list string :=
  visit_list reg (S (length reg)) (by_reverse_registration reg requested) [].

(** The place of a task in the order. *)
Fixpoint position (order : list string) (n : string) : option nat :=
  match order with
  | [] => None
  | m :: order' =>
      if String.eqb m n then Some O else option_map S (position order' n)
  end.

(** [p] stands before [t] in the order. *)
Definition before (order : list string) (p t : string) : Prop :=
  exists i j, position order p = Some i /\ position order t = Some j
              /\ (i < j)%nat.

(** No task that is set up in parallel requires one that is not. *)
Definition parallel_closed (reg : list descriptor) : bool :=
  forallb (fun d =>
    implb (setup_parallel d)
      (forallb (fun p =>
         forallb (fun d' => implb (String.eqb (name d') p) (setup_parallel d'))
                 reg)
         (setup_requires d)))
    reg.

(** The declared prerequisites of a task of the registry. *)
Definition requires (reg : list descriptor) (n : string) : list string :=
  match find_task reg n with
  | Some d => setup_requires d
  | None => []
  end.

End Registry.

(** ** Serial and parallel execution ([ModelOrganizer.param]) *)

Module Coordinator.

Section coordinator.
(** Station identifiers (GHCN ids or EECRA station numbers), the rows
    of the frames, the station of a row (the [id] level of its index)
    and the index of a row. *)
Context {St R K : Type} `{EqDecision St}.
Variable station_of : R -> St.
Variable index : R -> K.
Variable kle : K -> K -> bool.

(** A task of the chain: its name, the names of the tasks it requires,
    whether it may be set up per chunk, and its set-up from scratch for
    a list of stations, reading the frames of other tasks by name. *)
Record task : Type := Task {
  t_name : string;
  t_requires : list string;
  t_parallel : bool;
  t_setup : list St -> (string -> list R) -> list R;
}.

(** The frames of the tasks set up so far, latest first, and the frame
    of a task in them ([self.<name>.data]). *)
Definition lookup_data (env : list (string * list R)) (n : string) : list R :=
  match List.find (fun e => String.eqb (fst e) n) env with
  | Some e => snd e
  | None => []
  end.

(** Modelled from the spec: [Parameterizer.process_data] (in
    [gwgen.utils]) executes the resolved chain serially for one list of
    stations, each task set up from the frames of the tasks before
    it, and returns the task instances in chain order. *)
Fixpoint process_chain (chain : list task) (stations : list St)
    (env : list (string * list R)) : list (string * list R) :=
  match chain with
  | [] => []
  | t :: chain' =>
      let d := t_setup t stations (lookup_data env) in
      (t_name t, d) :: process_chain chain' stations ((t_name t, d) :: env)
  end.

Definition process_data (chain : list task) (stations : list St)
  : list (string * list R) :=
  process_chain chain stations [].

(** [proc_tasks[i].data] *)
Definition instance_data (inst : list (string * list R)) (i : nat) : list R :=
  match inst !! i with
  | Some e => snd e
  | None => []
  end.

(** [int(np.ceil(a / b))] for [b > 0] *)
Definition ceil_div (a b : nat) : nat := ((a + b - 1) / b)%nat.

(** [np.split(stations, np.arange(m, len(stations), m))]: pieces of
    [m] stations, the last one of what is left. *)
Fixpoint np_split (m : nat) (stations : list St) (fuel : nat)
  : list (list St) :=
  match fuel with
  | O => [stations]
  | S fuel' =>
      if (length stations <=? m)%nat then [stations]
      else take m stations :: np_split m (drop m stations) fuel'
  end.

(** The lists of stations that [param] hands to [process_data], one
    when [serial] is set; [None] where the source raises ([nprocs] or
    [max_stations] configured as 0). *)
Definition param_chunks (serial : bool) (nprocs max_stations_conf : nat)
    (stations : list St) : option (list (list St)) :=
  if serial then Some [stations]
  else if (nprocs =? 0)%nat then None
  else
    let max_stations :=
      Nat.min (ceil_div (length stations) nprocs) max_stations_conf in
    if (max_stations <? length stations)%nat then
      if (max_stations =? 0)%nat then None
      else Some (np_split max_stations stations (length stations))
    else Some [stations].

(** Modelled from the spec: [setup_from_instances] (in [gwgen.utils])
    merges the instances of one task: the frames of the chunks are
    concatenated in chunk order; a task that is not safe to set up in
    parallel is set up again from the merged frames of the tasks before
    it. *)
Definition setup_from_instances (t : task) (parts : list (list R))
    (stations : list St) (merged : list (string * list R)) : list R :=
  if t_parallel t then concat parts
  else t_setup t stations (lookup_data merged).

(** [for i, task in enumerate(tasks[0])]: the merged instances, from
    the task of index [k] on. *)
Fixpoint merge_from (k : nat) (chain : list task)
    (tasks : list (list (string * list R))) (stations : list St)
    (merged : list (string * list R)) : list (string * list R) :=
  match chain with
  | [] => []
  | t :: chain' =>
      let d := setup_from_instances t
                 (map (fun proc_tasks => instance_data proc_tasks k) tasks)
                 stations merged in
      (t_name t, d)
        :: merge_from (S k) chain' tasks stations ((t_name t, d) :: merged)
  end.

(** [param]: the merged task instances of a run. *)
Definition param (chain : list task) (serial : bool)
    (nprocs max_stations_conf : nat) (stations : list St)
  : option (list (string * list R)) :=
  match param_chunks serial nprocs max_stations_conf stations with
  | None => None
  | Some chunks =>
      Some (merge_from 0 chain (map (process_data chain) chunks) stations [])
  end.

(** A task works station by station: from frames with rows of the
    requested stations only it makes a frame of such rows, and its rows
    for one station depend only on the rows of that station in the
    frames it requires. *)
Record station_local (t : task) : Prop := StationLocal {
  rows_of_stations : forall ss env,
    (forall p r, In p (t_requires t) -> In r (env p) ->
       In (station_of r) ss) ->
    forall r, In r (t_setup t ss env) -> In (station_of r) ss;
  local : forall ss ss' env env' s,
    List.NoDup ss -> List.NoDup ss' -> In s ss -> In s ss' ->
    (forall p, In p (t_requires t) ->
       get_group station_of (env p) s = get_group station_of (env' p) s) ->
    get_group station_of (t_setup t ss env) s
    = get_group station_of (t_setup t ss' env') s;
}.

(** Every task named [n] in the chain is safe to set up in parallel. *)
Definition safe_name (chain : list task) (n : string) : Prop :=
  forall t, In t chain -> t_name t = n -> t_parallel t = true.

(** The tasks that are set up in parallel work station by station and
    require only tasks that are set up in parallel. *)
Definition parallel_chain (chain : list task) : Prop :=
  forall t, In t chain -> t_parallel t = true ->
    station_local t /\ forall p, In p (t_requires t) -> safe_name chain p.

(** [sorted(rows)], by index. *)
Definition sort_by_index (df : list R) : list R :=
  merge_sort (fun x y => Is_true (kle (index x) (index y))) df.
End coordinator.

End Coordinator.

(** *** A chain of two of the tasks *)

Module Chain.

(** The rows of the frames of the chain: rows of the complete daily
    frame and rows of the Markov chain frame. *)
Inductive row : Type :=
| Day (r : CompleteDaily.row)
| Markov (k : string * Z) (p : MarkovChain.probs).

Definition station_of (r : row) : string :=
  match r with
  | Day d => CompleteDaily.id d
  | Markov k _ => fst k
  end.

(** The index of a row, padded to the four levels
    [id, year, month, day]. *)
Definition index (r : row) : string * (Z * (Z * Z)) :=
  match r with
  | Day d => (CompleteDaily.id d,
              (CompleteDaily.year d, (CompleteDaily.month d, CompleteDaily.day d)))
  | Markov k _ => (fst k, (0, (snd k, 0)))
  end.

(** The daily rows of a frame. *)
Definition days (df : list row) : list CompleteDaily.row :=
  flat_map (fun r => match r with Day d => [d] | Markov _ _ => [] end) df.

(** The complete daily frame of the requested stations, read station by
    station from the complete days [source] of all stations (the
    outcome of the tasks [day], [month] and [cday] for these
    stations). *)
Definition cday_task (source : list CompleteDaily.row)
  : Coordinator.task (St:=string) (R:=row) :=
  {| Coordinator.t_name := "cday";
     Coordinator.t_requires := [];
     Coordinator.t_parallel := true;
     Coordinator.t_setup := fun stations _ =>
       map Day (flat_map (get_group CompleteDaily.id source) stations) |}.

(** The Markov chain task: [MarkovChain.setup_from_scratch] on the
    frame of [cday]. *)
Definition markov_task : Coordinator.task (St:=string) (R:=row) :=
  {| Coordinator.t_name := "markov";
     Coordinator.t_requires := ["cday"%string];
     Coordinator.t_parallel := true;
     Coordinator.t_setup := fun _ env =>
       map (fun kp => Markov (fst kp) (snd kp))
           (MarkovChain.setup_from_scratch (days (env "cday"%string))) |}.

Definition chain (source : list CompleteDaily.row)
  : list (Coordinator.task (St:=string) (R:=row)) :=
  [cday_task source; markov_task].

End Chain.

(** ** Sample frames *)

Definition hourly_sample : list DailyCloud.hourly :=
  [ DailyCloud.Hourly "62" 1990 1 1 0 76 (Fin 3) (Fin 8) (Fin 2);
    DailyCloud.Hourly "62" 1990 1 1 6 61 (Fin 5) (Fin 4) (Fin 1);
    DailyCloud.Hourly "62" 1990 1 2 0 78 (Fin 1) (Fin 2) (Fin 1);
    DailyCloud.Hourly "62" 1990 1 2 6 76 (Fin 2) (Fin 6) (Fin 3) ].

(** Station ST1 has three January days in each of the eleven years
    1990..2000, station ST2 in two years only. *)
Definition cday_sample : list CompleteDaily.row :=
  flat_map (fun y : Z =>
    if Z.even y
    then [ CompleteDaily.Row "ST1" y 1 1 0 (-3) 2;
           CompleteDaily.Row "ST1" y 1 2 (5 # 2) (-1) 4;
           CompleteDaily.Row "ST1" y 1 3 1 0 6 ]
    else [ CompleteDaily.Row "ST1" y 1 1 3 (-2) 5;
           CompleteDaily.Row "ST1" y 1 2 0 (-4) 1;
           CompleteDaily.Row "ST1" y 1 3 0 (-6) 0 ])
    (map Z.of_nat (seq 1990 11))
  ++ [ CompleteDaily.Row "ST2" 1990 1 1 0 1 2;
       CompleteDaily.Row "ST2" 1990 1 2 4 1 3;
       CompleteDaily.Row "ST2" 1991 1 1 1 0 2 ].

Definition markov_sample_row : MarkovChain.probs :=
  MarkovChain.Probs (Fin (6 # 11)) (Fin (6 # 11)) (Fin 0) (Fin (0 # 5))
                    (Fin (11 # 33)).

(** January 1990 of station ST1: a dry day and two wet days. *)
Definition month_sample : list CompleteDaily.row :=
  [ CompleteDaily.Row "ST1" 1990 1 1 0 (-3) 2;
    CompleteDaily.Row "ST1" 1990 1 2 (5 # 2) (-1) 4;
    CompleteDaily.Row "ST1" 1990 1 3 1 0 6 ].

(** Stand-ins for the fitting routines: the Gamma fit returns, the
    Pareto fit raises at the threshold 1. *)
Definition gamma_fit_sample (vals : list npfloat) : option (npfloat * npfloat) :=
  Some (Fin 2, Fin 3).
Definition genpareto_fit_sample (thresh : Q) (arr : list npfloat)
  : option (npfloat * npfloat) :=
  if Qeq_bool thresh 1 then None else Some (Fin (1 # 10), Fin 4).
Definition gamma_cdf_sample (x a scale : npfloat) : npfloat := Fin (1 # 2).
Definition gamma_pdf_sample (x a scale : npfloat) : npfloat := Fin (1 # 4).

(** Two tasks whose run steps write to the section [weathergen_ctl]:
    the first sets [thresh] and [g_scale_coeff], the second updates
    [thresh] and adds [gp_shape]. *)
Definition task_sample_1 : ModelOrganizer.task :=
  ModelOrganizer.Task "first" true
    {[ "weathergen_ctl"%string :=
         {[ "thresh"%string := ModelOrganizer.NmlFloat (Fin 5);
            "g_scale_coeff"%string := ModelOrganizer.NmlFloat (Fin 2) ]} ]}
    ∅.
Definition task_sample_2 : ModelOrganizer.task :=
  ModelOrganizer.Task "second" true
    {[ "weathergen_ctl"%string :=
         {[ "thresh"%string := ModelOrganizer.NmlFloat (Fin 15);
            "gp_shape"%string := ModelOrganizer.NmlFloat (Fin (1 # 10)) ]} ]}
    ∅.

(** Uncorrelated variables at lag 0; at lag 1 the first two correlate
    with yesterday's minimum temperature. *)
Definition corr_sample : CrossCorrelation.frame :=
  {| CrossCorrelation.lag0 := CrossCorrelation.identity;
     CrossCorrelation.lag1 :=
       CrossCorrelation.of_rows (3 # 5, 0, 0)%Q (12 # 25, 0, 0)%Q (0, 0, 0)%Q |}.

Definition stations_sample : list string := ["ST1"; "ST2"]%string.

(** ** Python values: strings and exceptions *)

(** The built-in exceptions that the embedded functions raise. *)
Inductive exn : Type :=
| KeyError
| ValueError
| IndexError
| TypeError
| AttributeError
| ZeroDivisionError.

(** The outcome of a call: the value returned, or the exception
    raised. *)
Inductive outcome (A : Type) : Type :=
| Returns (a : A)
| Raises (e : exn).
Arguments Returns {A} a.
Arguments Raises {A} e.

(** Python's [str] methods, on byte strings. *)
Module Str.

Definition to_list : string -> list Ascii.ascii := String.list_ascii_of_string.
Definition of_list : list Ascii.ascii -> string := String.string_of_list_ascii.

(** [s[::-1]] *)
Definition reversed (s : string) : string := of_list (rev (to_list s)).

(** The class [\d] of the [re] module on byte strings: [0-9]. *)
Definition is_digit (c : Ascii.ascii) : bool :=
  (48 <=? Ascii.nat_of_ascii c)%nat && (Ascii.nat_of_ascii c <=? 57)%nat.

(** [re.findall('\d+', s)]: the maximal runs of digits, from left to
    right; [cur] is the run being read. *)
Fixpoint findall_digits (cur s : list Ascii.ascii) : list (list Ascii.ascii) :=
  match s with
  | [] => match cur with [] => [] | _ => [cur] end
  | c :: s' =>
      if is_digit c then findall_digits (cur ++ [c]) s'
      else match cur with
           | [] => findall_digits [] s'
           | _ => cur :: findall_digits [] s'
           end
  end.

(** [int(s)] for a string of digits *)
Definition int (s : list Ascii.ascii) : N :=
  fold_left (fun acc c => (10 * acc + (Ascii.N_of_ascii c - 48))%N) s 0%N.

(** [s.startswith(p)] *)
Definition startswith (s p : list Ascii.ascii) : bool :=
  bool_decide (take (length p) s = p).

(** [s.replace(old, new)] for a non-empty [old]: the occurrences of
    [old] are found from left to right, none overlapping another;
    [skip] counts the characters of the occurrence just replaced that
    are still to be passed over. *)
Fixpoint replace_from (old new : list Ascii.ascii) (skip : nat) (s : list Ascii.ascii)
  : list Ascii.ascii :=
  match s with
  | [] => []
  | c :: s' =>
      match skip with
      | S k => replace_from old new k s'
      | O =>
          if startswith s old
          then new ++ replace_from old new (length old - 1) s'
          else c :: replace_from old new 0 s'
      end
  end.

(** [s.replace(old, new)]; an empty [old] matches before every character
    and at the end. *)
Definition replace (s old new : list Ascii.ascii) : list Ascii.ascii :=
  match old with
  | [] => new ++ flat_map (fun c => c :: new) s
  | _ => replace_from old new 0 s
  end.

End Str.

(** ** Names of models and experiments ([ModelOrganizer._get_next_name]) *)

(** [_get_next_name]: the last number of the name incremented;
    [ValueError] for a name without a digit. *)
Definition _get_next_name (old : string) : outcome string :=
  let nums := Str.findall_digits [] (Str.to_list old) in
  match last nums with
  | None => Raises ValueError
  | Some num0 =>
      let num1 := Str.to_list (pretty (Str.int num0 + 1)%N) in
      Returns (Str.of_list
                 (rev (Str.replace (rev (Str.to_list old)) (rev num0)
                                   (rev num1))))
  end.

(** A string without a digit, and a number: a non-empty string of
    digits. *)
Definition no_digit (s : string) : Prop :=
  Forall (fun c => Str.is_digit c = false) (Str.to_list s).
Definition number (s : string) : Prop :=
  s <> ""%string /\ Forall (fun c => Str.is_digit c = true) (Str.to_list s).

(** [str(int(d) + 1)] *)
Definition incremented (d : string) : string :=
  pretty (Str.int (Str.to_list d) + 1)%N.

#[global] Instance exn_eq_dec : EqDecision exn.
Proof. solve_decision. Defined.

#[global] Instance outcome_eq_dec {A : Type} `{EqDecision A} :
  EqDecision (outcome A).
Proof. solve_decision. Defined.

(** ** The raw EECRA files (class [HourlyCloud]) *)

Module HourlyCloud.

(** [urls]: the download directory of each period, the periods given by
    their first and last (year, month). *)
Definition urls : list (((Z * Z) * (Z * Z)) * string) :=
  [ (((1971, 1), (1977, 4)),
     "http://cdiac.ornl.gov/ftp/ndp026c/land_197101_197704/");
    (((1977, 5), (1982, 10)),
     "http://cdiac.ornl.gov/ftp/ndp026c/land_197705_198210/");
    (((1982, 11), (1987, 6)),
     "http://cdiac.ornl.gov/ftp/ndp026c/land_198211_198706/");
    (((1987, 7), (1992, 2)),
     "http://cdiac.ornl.gov/ftp/ndp026c/land_198707_199202/");
    (((1992, 3), (1996, 12)),
     "http://cdiac.ornl.gov/ftp/ndp026c/land_199203_199612/");
    (((1997, 1), (2009, 12)),
     "http://cdiac.ornl.gov/ftp/ndp026c/land_199701_200912/") ]%string.

(** [mon_map = dict(zip(range(1, 13), "JAN FEB ... DEC".split()))] *)
Definition mon_map : list (Z * string) :=
  [ (1, "JAN"); (2, "FEB"); (3, "MAR"); (4, "APR"); (5, "MAY"); (6, "JUN");
    (7, "JUL"); (8, "AUG"); (9, "SEP"); (10, "OCT"); (11, "NOV");
    (12, "DEC") ]%string.

(** [years = range(1971, 2010)] and [months = range(1, 13)] *)
Definition years : list Z := seqZ 1971 39.
Definition months : list Z := seqZ 1 12.

(** [s[-2:]] *)
Definition last_two (s : string) : string :=
  let l := Str.to_list s in Str.of_list (drop (length l - 2) l).

(** [eecra_fname(year, mon, ext)]; [KeyError] for a month that
    [mon_map] does not hold. *)
Definition eecra_fname (year mon : Z) (ext : string) : outcome string :=
  match List.find (fun e => fst e =? mon) mon_map with
  | None => Raises KeyError
  | Some (_, c_mon) =>
      let c_yr : string := pretty year in
      Returns (c_mon +:+ last_two c_yr +:+ "L" +:+ ext)
  end.

(** [a <= b] of two pairs of integers *)
Definition tuple_leb (a b : Z * Z) : bool :=
  (fst a <? fst b) || ((fst a =? fst b) && (snd a <=? snd b)).

(** [(year, mon) >= d0 and (year, mon) <= d1] *)
Definition in_period (year mon : Z) (e : ((Z * Z) * (Z * Z)) * string)
  : bool :=
  tuple_leb (fst (fst e)) (year, mon) && tuple_leb (year, mon) (snd (fst e)).

(** [get_eecra_url(year, mon)] over the items of a dictionary of
    periods in the order [items]; the function returns [None] when the
    loop ends without a period found. *)
Definition get_eecra_url_in (items : list (((Z * Z) * (Z * Z)) * string))
    (year mon : Z) : outcome (option string) :=
  match List.find (in_period year mon) items with
  | None => Returns None
  | Some (_, url) =>
      match eecra_fname year mon ".Z" with
      | Returns f => Returns (Some (url +:+ f))
      | Raises e => Raises e
      end
  end.

Definition get_eecra_url : Z -> Z -> outcome (option string) :=
  get_eecra_url_in urls.

(** [product(self.years, self.months)] *)
Definition year_months : list (Z * Z) :=
  flat_map (fun y => map (pair y) months) years.

End HourlyCloud.

(** ** The fit functions of the cloud task *)

(** [cloud_func(x, a)]:
    [((-a - 1) / (a*a*x - a*a - a)) - 1/a], on one cell of [x]. *)
Definition cloud_func (x a : npfloat) : npfloat :=
  Float.sub
    (Float.div (Float.sub (Float.neg a) (Fin 1))
               (Float.sub (Float.sub (Float.mul (Float.mul a a) x)
                                     (Float.mul a a))
                          a))
    (Float.div (Fin 1) a).

(** [cloud_sd_func(x, a)]: [a * a * x * (1 - x)] *)
Definition cloud_sd_func (x a : npfloat) : npfloat :=
  Float.mul (Float.mul (Float.mul a a) x) (Float.sub (Fin 1) x).

(** ** Calls that may raise *)

Definition bind_outcome {A B : Type} (m : outcome A) (k : A -> outcome B)
  : outcome B :=
  match m with
  | Returns a => k a
  | Raises e => Raises e
  end.

(** The calls of [f] on the elements of a list, in order, up to the
    first that raises. *)
Fixpoint traverse {A B : Type} (f : A -> outcome B) (l : list A)
  : outcome (list B) :=
  match l with
  | [] => Returns []
  | a :: l' =>
      bind_outcome (f a) (fun b =>
      bind_outcome (traverse f l') (fun bs => Returns (b :: bs)))
  end.

(** ** The calendar ([calendar.monthrange]) *)

Module Calendar.

(** [isleap(year)] *)
Definition isleap (year : Z) : bool :=
  (year mod 4 =? 0) && (negb (year mod 100 =? 0) || (year mod 400 =? 0)).

(** [mdays[month]], for a month of 1 to 12 *)
Definition mdays (month : Z) : Z :=
  if (month =? 2) then 28
  else if (month =? 4) || (month =? 6) || (month =? 9) || (month =? 11)
       then 30
       else 31.

(** [monthrange(year, month)[1]], the number of days of the month.
    The function raises [IllegalMonthError], a [ValueError], for a
    month outside 1..12, and [datetime.date] raises [ValueError] for a
    year outside 1..9999. *)
Definition monthrange (year month : Z) : outcome Z :=
  if negb ((1 <=? month) && (month <=? 12)) then Raises ValueError
  else if negb ((1 <=? year) && (year <=? 9999)) then Raises ValueError
  else Returns (mdays month + Z.b2z ((month =? 2) && isleap year)).

End Calendar.

(** ** The daily GHCN frame (class [DailyGHCNData]) *)

Module DailyGHCNData.

(** One row of the [day] frame: the index levels
    [id, year, month, day] and the three measurements, [NaN] where none
    was reported.  The flag columns are carried along by the tasks
    below and read by none of them. *)
Record row : Type := Row {
  id : string;
  year : Z;
  month : Z;
  day : Z;
  prcp : npfloat;
  tmin : npfloat;
  tmax : npfloat;
}.

Definition index (r : row) : string * (Z * (Z * Z)) :=
  (id r, (year r, (month r, day r))).

(** The levels [id, year, month] of the index of a row. *)
Definition month_key (r : row) : string * (Z * Z) :=
  (id r, (year r, month r)).

End DailyGHCNData.

(** ** The monthly GHCN frame (class [MonthlyGHCNData]) *)

Module MonthlyGHCNData.

(** The columns of the one-row frame of [monthly_summary]. *)
Record summary : Type := Summary {
  tmin : npfloat;
  tmax : npfloat;
  trange : npfloat;
  prcp : npfloat;
  tmin_abs : npfloat;
  tmax_abs : npfloat;
  prcpmax : npfloat;
  tmin_complete : bool;
  tmax_complete : bool;
  prcp_complete : bool;
  wet_day : Z;
}.

(** [series.count()]: the number of cells that are not missing *)
Definition count (xs : list npfloat) : Z :=
  Z.of_nat (length (Float.dropna xs)).

(** [monthly_summary(df)]; the month is the one of the first row of the
    frame ([df.index[0]]). *)
Definition monthly_summary (df : list DailyGHCNData.row)
  : outcome (list summary) :=
  match df with
  | [] => Raises IndexError
  | r0 :: _ =>
      bind_outcome
        (Calendar.monthrange (DailyGHCNData.year r0) (DailyGHCNData.month r0))
        (fun n =>
      let prcps := map DailyGHCNData.prcp df in
      let tmins := map DailyGHCNData.tmin df in
      let tmaxs := map DailyGHCNData.tmax df in
      Returns
        [ {| tmin := Float.series_mean tmins;
             tmax := Float.series_mean tmaxs;
             trange := Float.series_mean (Float.arr_sub tmaxs tmins);
             prcp := Float.sum (Float.dropna prcps);
             tmin_abs := Float.series_min tmins;
             tmax_abs := Float.series_max tmaxs;
             prcpmax := Float.series_max prcps;
             tmin_complete := count tmins =? n;
             tmax_complete := count tmaxs =? n;
             prcp_complete := count prcps =? n;
             wet_day :=
               Z.of_nat (length (List.filter
                 (fun x => negb (Float.isnan x) && Float.gt0 x) prcps)) |} ])
  end.

(** One row of the frame of the task: the summary of the month and the
    three columns that the merge with [df_yearly] adds. *)
Record monthly : Type := Monthly {
  of_month : summary;
  tmin_complete_year : bool;
  tmax_complete_year : bool;
  prcp_complete_year : bool;
}.

(** [year_complete(series)]: [series.astype(int).sum() == 12] *)
Definition year_complete (series : list bool) : bool :=
  fold_right Z.add 0 (map Z.b2z series) =? 12.

(** The levels [id, year] of the index of the monthly frame. *)
Definition id_year {B : Type} (r : (string * (Z * Z)) * B) : string * Z :=
  (fst (fst r), fst (snd (fst r))).

(** [day.groupby(level=['id', 'year', 'month']).apply(monthly_summary)]
    with the last level of the index dropped. *)
Definition summaries (day : list DailyGHCNData.row)
  : outcome (list ((string * (Z * Z)) * summary)) :=
  bind_outcome
    (traverse (fun g => bind_outcome (monthly_summary (snd g))
                          (fun rows => Returns (map (pair (fst g)) rows)))
              (groupby DailyGHCNData.month_key szz_le day))
    (fun frames => Returns (concat frames)).

(** [data[complete_cols].groupby(level=['id', 'year']).agg(year_complete)],
    the columns in the order [tmin, tmax, prcp]. *)
Definition df_yearly (data : list ((string * (Z * Z)) * summary))
  : list ((string * Z) * (bool * bool * bool)) :=
  map (fun g =>
         (fst g,
          (year_complete (map (fun r => tmin_complete (snd r)) (snd g)),
           year_complete (map (fun r => tmax_complete (snd r)) (snd g)),
           year_complete (map (fun r => prcp_complete (snd r)) (snd g)))))
      (groupby id_year sz_le data).

(** [data.reset_index().merge(df_yearly.reset_index(), on=['id', 'year'],
    suffixes=['', '_year']).set_index(names)]: the inner join, the rows
    in the order of [data]. *)
Definition merge_yearly (data : list ((string * (Z * Z)) * summary))
    (yearly : list ((string * Z) * (bool * bool * bool)))
  : list ((string * (Z * Z)) * monthly) :=
  flat_map (fun r =>
    map (fun y =>
           let '(tn, tx, pr) := snd y in
           (fst r, {| of_month := snd r;
                      tmin_complete_year := tn;
                      tmax_complete_year := tx;
                      prcp_complete_year := pr |}))
        (List.filter (fun y => bool_decide (fst y = id_year r)) yearly))
    data.

Definition setup_from_scratch (day : list DailyGHCNData.row)
  : outcome (list ((string * (Z * Z)) * monthly)) :=
  bind_outcome (summaries day) (fun data =>
  Returns (merge_yearly data (df_yearly data))).

(** [prcp_complete & tmin_complete & tmax_complete] and the same of the
    yearly columns *)
Definition complete (m : monthly) : bool :=
  prcp_complete (of_month m) && tmin_complete (of_month m)
  && tmax_complete (of_month m).
Definition complete_year (m : monthly) : bool :=
  prcp_complete_year m && tmin_complete_year m && tmax_complete_year m.

End MonthlyGHCNData.

(** The tasks [cmonth] and [yearly_cmonth]: the rows of the complete
    months, and of the months of the complete years. *)
Module CompleteMonthlyGHCNData.

Definition setup_from_scratch
    (month : list ((string * (Z * Z)) * MonthlyGHCNData.monthly))
  : list ((string * (Z * Z)) * MonthlyGHCNData.monthly) :=
  List.filter (fun r => MonthlyGHCNData.complete (snd r)) month.

End CompleteMonthlyGHCNData.

Module YearlyCompleteMonthlyGHCNData.

Definition setup_from_scratch
    (month : list ((string * (Z * Z)) * MonthlyGHCNData.monthly))
  : list ((string * (Z * Z)) * MonthlyGHCNData.monthly) :=
  List.filter (fun r => MonthlyGHCNData.complete_year (snd r)) month.

End YearlyCompleteMonthlyGHCNData.

(** The tasks [cday] and [yearly_cday]: the inner join of the daily
    frame with the index of the selected months, on
    [id, year, month]. *)
Module CompleteDailyGHCNData.

(** [day.reset_index().merge(months, how='inner',
    on=['id', 'year', 'month'])], [months] holding the index columns
    only; the rows in the order of [day]. *)
Definition merge_months (day : list DailyGHCNData.row)
    (months : list (string * (Z * Z))) : list DailyGHCNData.row :=
  flat_map (fun r =>
    map (fun _ => r)
        (List.filter (fun k => bool_decide (k = DailyGHCNData.month_key r))
                     months))
    day.

Definition setup_from_scratch (day : list DailyGHCNData.row)
    (month : list ((string * (Z * Z)) * MonthlyGHCNData.monthly))
  : list DailyGHCNData.row :=
  merge_months day
    (map fst (List.filter (fun r => MonthlyGHCNData.complete (snd r)) month)).

End CompleteDailyGHCNData.

Module YearlyCompleteDailyGHCNData.

Definition setup_from_scratch (day : list DailyGHCNData.row)
    (month : list ((string * (Z * Z)) * MonthlyGHCNData.monthly))
  : list DailyGHCNData.row :=
  CompleteDailyGHCNData.merge_months day
    (map fst
       (List.filter (fun r => MonthlyGHCNData.complete_year (snd r)) month)).

End YearlyCompleteDailyGHCNData.

(** The days of a month, 1 to [n]. *)
Definition calendar_day (r : DailyGHCNData.row) : Prop :=
  forall n,
    Calendar.monthrange (DailyGHCNData.year r) (DailyGHCNData.month r)
    = Returns n ->
    1 <= DailyGHCNData.day r <= n.

(** No measurement of the row is missing. *)
Definition no_missing (r : DailyGHCNData.row) : Prop :=
  Float.isnan (DailyGHCNData.prcp r) = false /\
  Float.isnan (DailyGHCNData.tmin r) = false /\
  Float.isnan (DailyGHCNData.tmax r) = false.

(** February 1991 of station ST1, every day reported, and two days of
    March, one without precipitation record. *)
Definition ghcn_day_sample : list DailyGHCNData.row :=
  map (fun d => DailyGHCNData.Row "ST1" 1991 2 d
                  (Fin (inject_Z (d mod 2))) (Fin (inject_Z (- d)))
                  (Fin (inject_Z d)))
      (seqZ 1 28)
  ++ [ DailyGHCNData.Row "ST1" 1991 3 1 NaN (Fin 0) (Fin 1);
       DailyGHCNData.Row "ST1" 1991 3 2 (Fin 1) (Fin 0) (Fin 1) ].

Definition ghcn_month_sample
  : list ((string * (Z * Z)) * MonthlyGHCNData.monthly) :=
  Eval vm_compute in
    match MonthlyGHCNData.setup_from_scratch ghcn_day_sample with
    | Returns m => m
    | Raises _ => []
    end.

(** The year 1991 of station ST1, every day reported. *)
Definition ghcn_year_sample : list DailyGHCNData.row :=
  flat_map (fun m =>
    map (fun d => DailyGHCNData.Row "ST1" 1991 m d
                    (Fin 0) (Fin (inject_Z (- d))) (Fin (inject_Z d)))
        (seqZ 1 (Calendar.mdays m)))
    (seqZ 1 12).

Definition ghcn_year_month_sample
  : list ((string * (Z * Z)) * MonthlyGHCNData.monthly) :=
  Eval vm_compute in
    match MonthlyGHCNData.setup_from_scratch ghcn_year_sample with
    | Returns m => m
    | Raises _ => []
    end.

(** The first row of a frame. *)
Definition first_row {A : Type} (d : A) (l : list A) : A := hd d l.

(** The check that a row is a day of the calendar. *)
Definition calendar_dayb (r : DailyGHCNData.row) : bool :=
  match Calendar.monthrange (DailyGHCNData.year r) (DailyGHCNData.month r) with
  | Returns n => (1 <=? DailyGHCNData.day r) && (DailyGHCNData.day r <=? n)
  | Raises _ => true
  end.

(** ** The run configuration of the tasks ([make_run_config]) *)

Module RunConfig.

(** The attributes of the fit of a plotter
    ([plotter.plot_data[1].attrs]), the task information and the
    namelist [weathergen_ctl]. *)
Abbreviation attrs := (gmap string npfloat).
Abbreviation info := (gmap string (gmap string npfloat)).
Abbreviation namelist := (gmap string ModelOrganizer.nml_value).

(** [attrs[key]] *)
Definition getitem (a : attrs) (key : string) : outcome npfloat :=
  match a !! key with
  | Some x => Returns x
  | None => Raises KeyError
  end.

(** [float(attrs.get(key, 0))] and [float(attrs.get(key))]; [float(None)]
    raises [TypeError]. *)
Definition get_or_zero (a : attrs) (key : string) : npfloat :=
  default (Fin 0) (a !! key).
Definition get_float (a : attrs) (key : string) : outcome npfloat :=
  match a !! key with
  | Some x => Returns x
  | None => Raises TypeError
  end.

(** [for key in keys: vinfo[key] = float(attrs[key])] *)
Fixpoint copy_attrs (a : attrs) (keys : list string) (vinfo : gmap string npfloat)
  : outcome (gmap string npfloat) :=
  match keys with
  | [] => Returns vinfo
  | key :: keys' =>
      bind_outcome (getitem a key) (fun x =>
      copy_attrs a keys' (<[key := x]> vinfo))
  end.

(** The loop of a [make_run_config] over the items of a list. *)
Fixpoint for_each {A S : Type} (body : S -> A -> outcome S) (l : list A)
    (s : S) : outcome S :=
  match l with
  | [] => Returns s
  | a :: l' => bind_outcome (body s a) (for_each body l')
  end.

(** [product(xs, ys)] and [product(xs, ys, zs)] *)
Definition product2 {A B : Type} (xs : list A) (ys : list B) : list (A * B) :=
  flat_map (fun x => map (pair x) ys) xs.
Definition product3 {A B C : Type} (xs : list A) (ys : list B) (zs : list C)
  : list (A * B * C) :=
  flat_map (fun x => flat_map (fun y => map (fun z => (x, y, z)) zs) ys) xs.

(** [s[0]] of a non-empty string, and [s[:1]] *)
Definition first_char (s : string) : outcome string :=
  match s with
  | EmptyString => Raises IndexError
  | String c _ => Returns (String c EmptyString)
  end.
Definition up_to_one (s : string) : string :=
  match s with
  | EmptyString => EmptyString
  | String c _ => String c EmptyString
  end.

(** [full_nml.setdefault('weathergen_ctl', OrderedDict())] and the
    namelists with the section after its update. *)
Definition ctl (full_nml : gmap string namelist) : namelist :=
  default ∅ (full_nml !! "weathergen_ctl"%string).
Definition with_ctl (full_nml : gmap string namelist) (nml : namelist)
  : gmap string namelist :=
  <["weathergen_ctl"%string := nml]> full_nml.

(** *** [TemperatureParameterizer] *)

Module Temperature.

(** [namelist_keys] *)
Definition namelist_keys : list (string * string) :=
  [ ("tmin_w1", "tmin_wet.intercept");
    ("tmin_w2", "tmin_wet.slope");
    ("tmin_d1", "tmin_dry.intercept");
    ("tmin_d2", "tmin_dry.slope");
    ("tmin_sd_w1", "tminstddev_wet.intercept");
    ("tmin_sd_w2", "tminstddev_wet.slope");
    ("tmin_sd_d1", "tminstddev_dry.intercept");
    ("tmin_sd_d2", "tminstddev_dry.slope");
    ("tmax_w1", "tmax_wet.intercept");
    ("tmax_w2", "tmax_wet.slope");
    ("tmax_d1", "tmax_dry.intercept");
    ("tmax_d2", "tmax_dry.slope");
    ("tmax_sd_w1", "tmaxstddev_wet.intercept");
    ("tmax_sd_w2", "tmaxstddev_wet.slope");
    ("tmax_sd_d1", "tmaxstddev_dry.intercept");
    ("tmax_sd_d2", "tmaxstddev_dry.slope") ]%string.

(** The body of [for v, t, state in product(variables, types, states)];
    [sp vname] are the attributes of the first plotter of
    [sp(name=vname)], [None] when there is none. *)
Definition body (sp : string -> option attrs) (acc : info * namelist)
    (it : string * string * string) : outcome (info * namelist) :=
  let '(v, t, state) := it in
  let '(info, nml) := acc in
  let vname := v +:+ t +:+ "_" +:+ state in
  bind_outcome (first_char state) (fun s0 =>
  let nml_name :=
    v +:+ (if String.eqb t "" then "" else "_sd") +:+ "_" +:+ s0 in
  let vinfo := default ∅ (info !! vname) in
  match sp vname with
  | None => Raises IndexError
  | Some a =>
      bind_outcome (copy_attrs a ["rsquared"; "slope"; "intercept"] vinfo)
        (fun vinfo =>
      let nml := <[nml_name +:+ "1" :=
                     ModelOrganizer.NmlFloat (get_or_zero a "intercept")]> nml in
      bind_outcome (get_float a "slope") (fun slope =>
      Returns (<[vname := vinfo]> info,
               <[nml_name +:+ "2" := ModelOrganizer.NmlFloat slope]> nml)))
  end)%string.

Definition make_run_config (sp : string -> option attrs) (info : info)
    (full_nml : gmap string namelist)
  : outcome (RunConfig.info * gmap string namelist) :=
  let variables := ["tmin"; "tmax"]%string in
  let states := ["wet"; "dry"]%string in
  let types := [""; "stddev"]%string in
  bind_outcome
    (for_each (body sp) (product3 variables types states)
              (info, ctl full_nml))
    (fun acc => Returns (fst acc, with_ctl full_nml (snd acc))).

End Temperature.

(** *** [CloudParameterizer] *)

Module Cloud.

(** [namelist_keys] and [error_keys] *)
Definition namelist_keys : list (string * string) :=
  [ ("cldf_w", "mean_cloud_wet.a");
    ("cldf_d", "mean_cloud_dry.a");
    ("cldf_sd_w", "sd_cloud_wet.a");
    ("cldf_sd_d", "sd_cloud_dry.a") ]%string.
Definition error_keys : list (string * string) :=
  [ ("cldf_w", "mean_cloud_wet.a_err");
    ("cldf_d", "mean_cloud_dry.a_err");
    ("cldf_sd_w", "sd_cloud_wet.a_err");
    ("cldf_sd_d", "sd_cloud_dry.a_err") ]%string.

(** The body of [for t, state in product(types, states)] *)
Definition body (sp : string -> option attrs) (acc : info * namelist)
    (it : string * string) : outcome (info * namelist) :=
  let '(t, state) := it in
  let '(info, nml) := acc in
  let vname := t +:+ "_cloud_" +:+ state in
  let nml_name :=
    "cldf" +:+ (if String.eqb t "sd" then "_sd" else "") +:+ "_"
    +:+ up_to_one state in
  match sp vname with
  | None => Raises IndexError
  | Some a =>
      bind_outcome (copy_attrs a ["a"; "a_err"] ∅) (fun vinfo =>
      Returns (<[vname := vinfo]> info,
               <[nml_name := ModelOrganizer.NmlFloat (get_or_zero a "a")]> nml))
  end%string.

Definition make_run_config (sp : string -> option attrs) (info : info)
    (full_nml : gmap string namelist)
  : outcome (RunConfig.info * gmap string namelist) :=
  let states := ["wet"; "dry"]%string in
  let types := ["mean"; "sd"]%string in
  bind_outcome
    (for_each (body sp) (product2 types states) (info, ctl full_nml))
    (fun acc => Returns (fst acc, with_ctl full_nml (snd acc))).

End Cloud.

(** *** [MarkovChain] *)

Module Markov.

(** [namelist_keys], a list *)
Definition namelist_keys : list string :=
  ["p101_1"; "p001_1"; "p001_2"; "p11_1"; "p11_2"; "p101_2"]%string.

(** The names that [create_project] asks plotters for. *)
Definition project_names : list string := ["p11"; "p101"; "p001"]%string.

(** The bodies of the two loops over [sp.plotters]; a plotter is given
    by the name of its data and the attributes of its fit. *)
Definition info_body (info : info) (plotter : string * attrs)
  : outcome RunConfig.info :=
  bind_outcome
    (copy_attrs (snd plotter) ["rsquared"; "slope"; "intercept"]%string ∅)
    (fun d => Returns (<[fst plotter := d]> info)).

Definition nml_body (nml : namelist) (plotter : string * attrs)
  : outcome namelist :=
  let name := fst plotter in
  let nml := <[name +:+ "_1" :=
                 ModelOrganizer.NmlFloat
                   (get_or_zero (snd plotter) "intercept")]> nml in
  bind_outcome (get_float (snd plotter) "slope") (fun slope =>
  Returns (<[name +:+ "_2" := ModelOrganizer.NmlFloat slope]> nml)).

Definition make_run_config (plotters : list (string * attrs)) (info : info)
    (full_nml : gmap string namelist)
  : outcome (RunConfig.info * gmap string namelist) :=
  bind_outcome (for_each info_body plotters info) (fun info =>
  bind_outcome (for_each nml_body plotters (ctl full_nml)) (fun nml =>
  Returns (info, with_ctl full_nml nml))).

End Markov.

End RunConfig.

(** The value that the task information holds at a path
    [vname.attr]. *)
Definition info_at (i : RunConfig.info) (vname attr : string)
  : option npfloat :=
  i !! vname ≫= fun d => d !! attr.

(** The value that the namelist [weathergen_ctl] holds under a key. *)
Definition ctl_at (full_nml : gmap string RunConfig.namelist) (key : string)
  : option ModelOrganizer.nml_value :=
  full_nml !! "weathergen_ctl"%string ≫= fun nml => nml !! key.

(** A project whose fits all have the same attributes, and its
    plotters of the Markov chain task. *)
Definition attrs_sample : RunConfig.attrs :=
  {[ "rsquared"%string := Fin (9 # 10); "slope"%string := Fin 2;
     "intercept"%string := Fin (1 # 2); "a"%string := Fin 3;
     "a_err"%string := Fin (1 # 100) ]}.
Definition sp_sample (vname : string) : option RunConfig.attrs :=
  Some attrs_sample.
Definition plotters_sample : list (string * RunConfig.attrs) :=
  map (fun n => (n, attrs_sample)) RunConfig.Markov.project_names.

(** The result of a call that returns. *)
Definition returned {A : Type} (d : A) (o : outcome A) : A :=
  match o with
  | Returns a => a
  | Raises _ => d
  end.

Definition temperature_run_sample
  : RunConfig.info * gmap string RunConfig.namelist :=
  returned (∅, ∅) (RunConfig.Temperature.make_run_config sp_sample ∅ ∅).
Definition cloud_run_sample
  : RunConfig.info * gmap string RunConfig.namelist :=
  returned (∅, ∅) (RunConfig.Cloud.make_run_config sp_sample ∅ ∅).
Definition markov_run_sample
  : RunConfig.info * gmap string RunConfig.namelist :=
  returned (∅, ∅) (RunConfig.Markov.make_run_config plotters_sample ∅ ∅).

(** ** The task of a namelist key ([Parameterizer.get_task_for_nml_key]) *)

Module Parameterizer.

(** The keys of [namelist_keys] of the task classes, by the name of the
    task; the attribute is empty in [Parameterizer] and in the classes
    that do not set it. *)
Definition namelist_keys (task : string) : list string :=
  if String.eqb task "prcp" then ["thresh"; "g_scale_coeff"; "gp_shape"]
  else if String.eqb task "markov" then RunConfig.Markov.namelist_keys
  else if String.eqb task "temp"
       then map fst RunConfig.Temperature.namelist_keys
  else if String.eqb task "cloud" then map fst RunConfig.Cloud.namelist_keys
  else if String.eqb task "corr" then ["a"; "b"]
  else [].

(** [get_task_for_nml_key(nml_key)] over the classes of [_registry];
    [KeyError] for a key that no class declares. *)
Definition get_task_for_nml_key (registry : list Registry.descriptor)
    (nml_key : string) : outcome Registry.descriptor :=
  match List.find
          (fun para_cls =>
             bool_decide (nml_key ∈ namelist_keys (Registry.name para_cls)))
          (rev registry) with
  | Some para_cls => Returns para_cls
  | None => Raises KeyError
  end.

End Parameterizer.

#[global] Instance descriptor_eq_dec : EqDecision Registry.descriptor.
Proof. solve_decision. Defined.

(** ** The configuration and its paths ([ModelOrganizer.fix_paths]) *)

(** [os.path] of a POSIX system. *)
Module Osp.

(** The separator, the character [/]. *)
Definition sep : Ascii.ascii := Ascii.ascii_of_nat 47.

(** [s.startswith('/')], which is [isabs(s)], and [s.endswith('/')] *)
Definition isabs (s : string) : bool :=
  match s with
  | String c _ => Ascii.eqb c sep
  | EmptyString => false
  end.
Definition endswith_sep (s : string) : bool :=
  match last (Str.to_list s) with
  | Some c => Ascii.eqb c sep
  | None => false
  end.

(** [join(a, b)] *)
Definition join (a b : string) : string :=
  if isabs b then b
  else if String.eqb a "" || endswith_sep a then a +:+ b
  else a +:+ "/" +:+ b.

End Osp.

Module Config.

(** The values of the configuration, as loaded from its yaml files. *)
#[local] Unset Elimination Schemes.
Inductive value : Type :=
| VNone
| VBool (b : bool)
| VInt (z : Z)
| VStr (s : string)
| VList (l : list value)
| VDict (d : list (string * value)).
#[local] Set Elimination Schemes.

(** The truth value of a value. *)
Definition truthy (v : value) : bool :=
  match v with
  | VNone => false
  | VBool b => b
  | VInt z => negb (z =? 0)
  | VStr s => negb (String.eqb s "")
  | VList l => match l with [] => false | _ => true end
  | VDict d => match d with [] => false | _ => true end
  end.

(** [a or b] *)
Definition py_or (a b : value) : value := if truthy a then a else b.

(** [d.get(key)] and [d[key]] of an ordered dictionary *)
Definition lookup (d : list (string * value)) (key : string) : option value :=
  option_map snd (List.find (fun e => String.eqb (fst e) key) d).
Definition get (d : list (string * value)) (key : string) : value :=
  default VNone (lookup d key).

(** [v[key]] of a value: [KeyError] for a dictionary without the key,
    [TypeError] for a value that is no dictionary. *)
Definition getitem (v : value) (key : string) : outcome value :=
  match v with
  | VDict d =>
      match lookup d key with
      | Some x => Returns x
      | None => Raises KeyError
      end
  | _ => Raises TypeError
  end.

(** [os.path.join(root, path)] of two values, [TypeError] unless both
    are strings. *)
Definition osp_join (root path : value) : outcome value :=
  match root, path with
  | VStr r, VStr p => Returns (VStr (Osp.join r p))
  | _, _ => Raises TypeError
  end.

End Config.

Module Organizer.

(** The state of a [ModelOrganizer] that its path functions read and
    write: the three dictionaries of its configuration and the names of
    the current model and experiment ([None] when not set). *)
Record organizer : Type := Organizer {
  name : string;
  experiments : list (string * Config.value);
  models : list (string * Config.value);
  global_config : list (string * Config.value);
  _modelname : option string;
  _experiment : option string;
}.

(** [paths]: the keys that describe paths. *)
Definition paths : list string :=
  ["expdir"; "src"; "data"; "param_stations"; "nc_file"; "project_file";
   "plot_file"]%string.

(** The property [modelname]: the name that was set; else the model of
    the current experiment, when that is set and known; else the last
    model of the configuration, which is then kept as the name. *)
Definition modelname (o : organizer) : outcome (Config.value * organizer) :=
  match _modelname o with
  | Some m => Returns (Config.VStr m, o)
  | None =>
      let exps := experiments o in
      match _experiment o with
      | Some e =>
          match Config.lookup exps e with
          | Some exp =>
              bind_outcome (Config.getitem exp "model") (fun m =>
              Returns (m, o))
          | None =>
              match last (map fst (models o)) with
              | Some m =>
                  Returns (Config.VStr m,
                           Organizer (name o) (experiments o) (models o)
                                     (global_config o) (Some m)
                                     (_experiment o))
              | None => Raises ValueError
              end
          end
      | None =>
          match last (map fst (models o)) with
          | Some m =>
              Returns (Config.VStr m,
                       Organizer (name o) (experiments o) (models o)
                                 (global_config o) (Some m) (_experiment o))
          | None => Raises ValueError
          end
      end
  end.

(** [self.config.models[model]['root']]; a key that is no string is in
    no configuration. *)
Definition model_root (o : organizer) (model : Config.value)
  : outcome Config.value :=
  match model with
  | Config.VStr m =>
      match Config.lookup (models o) m with
      | Some md => Config.getitem md "root"
      | None => Raises KeyError
      end
  | Config.VList _ | Config.VDict _ => Raises TypeError
  | _ => Raises KeyError
  end.

(** [abspath(path, model, root)] *)
Definition abspath (o : organizer) (path model root : Config.value)
  : outcome (Config.value * organizer) :=
  bind_outcome
    (match root with
     | Config.VNone =>
         bind_outcome
           (if Config.truthy model then Returns (model, o) else modelname o)
           (fun mo =>
         bind_outcome (model_root (snd mo) (fst mo)) (fun r =>
         Returns (r, snd mo)))
     | _ => Returns (root, o)
     end)
    (fun ro =>
  bind_outcome (Config.osp_join (fst ro) path) (fun p =>
  Returns (p, snd ro))).

(** The loop [for key, val in d.items()] of [fix_paths]; [nested] is
    the call of [fix_paths] on a value that is a dictionary. *)
Definition fix_items
    (nested : organizer -> Config.value -> outcome (Config.value * organizer))
    (root model : Config.value)
  : organizer -> list (string * Config.value) ->
    outcome (list (string * Config.value) * organizer) :=
  fix loop (o : organizer) (l : list (string * Config.value)) {struct l} :=
    match l with
    | [] => Returns ([], o)
    | (key, val) :: l' =>
        bind_outcome
          (match val with
           | Config.VDict _ => nested o val
           | _ =>
               if bool_decide (key ∈ paths)
               then abspath o val model root
               else Returns (val, o)
           end)
          (fun vo =>
        bind_outcome (loop (snd vo) l') (fun lo =>
        Returns ((key, fst vo) :: fst lo, snd lo)))
    end.

(** [fix_paths(d, root, model)], on the dictionary as a value; a value
    that is no dictionary has no [get].  The dictionary is changed in
    place in the source; it is taken not to be one of the dictionaries
    of [models] that [abspath] reads. *)
Fixpoint fix_paths (o : organizer) (d root model : Config.value) {struct d}
  : outcome (Config.value * organizer) :=
  match d with
  | Config.VDict items =>
      let root := Config.py_or root (Config.get items "root") in
      let model := Config.py_or model (Config.get items "model") in
      bind_outcome
        (fix_items (fun o val => fix_paths o val root model) root model
                   o items)
        (fun lo => Returns (Config.VDict (fst lo), snd lo))
  | _ => Raises AttributeError
  end.

End Organizer.

(** The dictionaries, at any depth, whose entries under a key of
    [paths] are all strings, and those where they are all absolute
    paths. *)
Fixpoint string_paths (v : Config.value) : bool :=
  match v with
  | Config.VDict d =>
      forallb (fun e : string * Config.value =>
                 let (key, val) := e in
                 match val with
                 | Config.VDict _ => string_paths val
                 | Config.VStr _ => true
                 | _ => negb (bool_decide (key ∈ Organizer.paths))
                 end) d
  | _ => true
  end.
Fixpoint absolute_paths (v : Config.value) : bool :=
  match v with
  | Config.VDict d =>
      forallb (fun e : string * Config.value =>
                 let (key, val) := e in
                 match val with
                 | Config.VDict _ => absolute_paths val
                 | Config.VStr s =>
                     implb (bool_decide (key ∈ Organizer.paths))
                           (Osp.isabs s)
                 | _ => negb (bool_decide (key ∈ Organizer.paths))
                 end) d
  | _ => true
  end.

(** A model configuration, one with a path that is no string, and an
    organizer without a model. *)
Definition model_items_sample : list (string * Config.value) :=
  [ ("root", Config.VStr "/home/user/models/gwgen0");
    ("src", Config.VStr "src");
    ("data", Config.VStr "/data/ghcn");
    ("timestamps", Config.VDict [("setup", Config.VStr "2016-01-01")]);
    ("bin", Config.VStr "/home/user/models/gwgen0/bin") ]%string.
Definition model_config_sample : Config.value :=
  Config.VDict model_items_sample.
Definition broken_items_sample : list (string * Config.value) :=
  [ ("root", Config.VStr "/home/user/models/gwgen0");
    ("input", Config.VDict [("data", Config.VInt 3)]) ]%string.
Definition organizer_sample : Organizer.organizer :=
  Organizer.Organizer "gwgen" [] [] [] None None.

(** ** The arguments of chained commands ([FuncArgParser.parse_known_args]) *)

Module FuncArgParser.

(** [groupargs(arg)]: the command that [arg] belongs to, which is
    [currentarg[0]] after the call; [current] is [currentarg[0]] before
    the call. *)
Definition groupargs (commands : list string) (current : option string)
    (arg : string) : option string :=
  if bool_decide (arg ∈ commands) then Some arg else current.

(** The keys that [groupby] computes, one call of [groupargs] for each
    argument, in the order of the arguments. *)
Fixpoint keyed (commands : list string) (current : option string)
    (args : list string) : list (option string * string) :=
  match args with
  | [] => []
  | arg :: args' =>
      let key := groupargs commands current arg in
      (key, arg) :: keyed commands key args'
  end.

(** The groups of [itertools.groupby]: the runs of elements with equal
    keys. *)
Fixpoint runs {K A : Type} `{EqDecision K} (l : list (K * A))
  : list (K * list A) :=
  match l with
  | [] => []
  | (k, a) :: l' =>
      match runs l' with
      | (k', g) :: rest =>
          if decide (k = k') then (k, a :: g) :: rest
          else (k, [a]) :: (k', g) :: rest
      | [] => [(k, [a])]
      end
  end.

(** [groupby(args, groupargs)] *)
Definition groupby (commands : list string) (args : list string)
  : list (option string * list string) :=
  runs (keyed commands None args).

(** The loop over the groups: the arguments of the main parser at the
    end, and the commands with the arguments that their parser is
    called with, in the order of the calls. *)
Fixpoint calls (groups : list (option string * list string))
    (main_args : list string)
  : list string * list (string * list string) :=
  match groups with
  | [] => (main_args, [])
  | (None, subargs) :: groups' => calls groups' (main_args ++ subargs)
  | (Some cmd, subargs) :: groups' =>
      let (main, cs) := calls groups' main_args in
      (main, (cmd, main_args ++ subargs) :: cs)
  end.

Definition parser_calls (commands : list string) (args : list string)
  : list string * list (string * list string) :=
  calls (groupby commands args) [].

End FuncArgParser.

(** The arguments of one command: the command, then arguments that are
    no other command.  The groups after the first: each of a command
    other than the one before. *)
Definition command_group (commands : list string)
    (g : string * list string) : Prop :=
  exists rest,
    snd g = fst g :: rest /\ fst g ∈ commands /\
    Forall (fun a => a ∈ commands -> a = fst g) rest.
Fixpoint alternate (cmds : list string) : Prop :=
  match cmds with
  | c1 :: (c2 :: _) as cmds' => c1 <> c2 /\ alternate cmds'
  | _ => True
  end.

(** ** The monthly cloud values ([MonthlyCloud.calculate_monthly]) *)

Module MonthlyCloud.

(** The columns of [calculate_monthly]'s one-row frame. *)
Record monthly : Type := Monthly {
  wet_day : Z;
  mean_cloud_wet : npfloat;
  mean_cloud_dry : npfloat;
  mean_cloud : npfloat;
  sd_cloud_wet : npfloat;
  sd_cloud_dry : npfloat;
  sd_cloud : npfloat;
}.

(** [Series.std()]: the missing cells are skipped, and the squared
    deviations are summed over [n - 1] ([NaN] for fewer than two
    cells). *)
Definition series_std (xs : list npfloat) : npfloat :=
  let ys := Float.dropna xs in
  let m := Float.mean ys in
  Float.sqrt
    (Float.div
       (Float.sum (map (fun x => Float.mul (Float.sub x m) (Float.sub x m))
                       ys))
       (Float.of_nat (length ys - 1))).

(** [df.wet_day.values.astype(bool)] and its complement *)
Definition wet (df : list DailyCloud.daily) : list bool :=
  map (fun r => negb (DailyCloud.wet_day r =? 0)) df.
Definition dry (df : list DailyCloud.daily) : list bool := map negb (wet df).

(** [calculate_monthly(df)]: one row for a month of two days or more,
    no row else. *)
Definition calculate_monthly (df : list DailyCloud.daily) : list monthly :=
  if (1 <? length df)%nat then
    let cloud := map DailyCloud.mean_cloud df in
    [ {| wet_day := fold_left Z.add (map DailyCloud.wet_day df) 0;
         mean_cloud_wet := Float.series_mean (Arr.select cloud (wet df));
         mean_cloud_dry := Float.series_mean (Arr.select cloud (dry df));
         mean_cloud := Float.series_mean cloud;
         sd_cloud_wet := series_std (Arr.select cloud (wet df));
         sd_cloud_dry := series_std (Arr.select cloud (dry df));
         sd_cloud := series_std cloud |} ]
  else [].

End MonthlyCloud.

(** Three days of a month, two of them wet. *)
Definition cloud_days_sample : list DailyCloud.daily :=
  [ DailyCloud.Daily 1 (Fin 2) (Fin 9) (Fin (6 # 8)) (Fin 3);
    DailyCloud.Daily 0 (Fin 1) (Fin 12) (Fin (2 # 8)) (Fin 1);
    DailyCloud.Daily 1 NaN NaN (Fin 1) NaN ].
Definition cloud_month_sample : MonthlyCloud.monthly :=
  Eval vm_compute in
    match MonthlyCloud.calculate_monthly cloud_days_sample with
    | row :: _ => row
    | [] => MonthlyCloud.Monthly 0 NaN NaN NaN NaN NaN NaN
    end.

(** * Properties *)

(** ** The orders of the index tuples *)

Lemma Z_leb_total_order : total_order Z.leb.
Proof.
  repeat split; intros *; rewrite ?Z.leb_le; lia.
Qed.

Lemma string_compare_trans (s1 s2 s3 : string) :
  String.compare s1 s2 <> Gt -> String.compare s2 s3 <> Gt ->
  String.compare s1 s3 <> Gt.
Proof.
  revert s2 s3. induction s1 as [ | c1 s1 IH]; intros [ | c2 s2] [ | c3 s3];
    simpl; try congruence.
  unfold Ascii.compare.
  destruct (N.compare_spec (Ascii.N_of_ascii c1) (Ascii.N_of_ascii c2)) as [E12 | L12 | G12];
    destruct (N.compare_spec (Ascii.N_of_ascii c2) (Ascii.N_of_ascii c3)) as [E23 | L23 | G23];
    destruct (N.compare_spec (Ascii.N_of_ascii c1) (Ascii.N_of_ascii c3)) as [E13 | L13 | G13];
    try congruence; try lia.
  apply IH.
Qed.

Lemma string_leb_total_order : total_order String.leb.
Proof.
  split; [ exact String.leb_total | split; [ | exact String.leb_antisym ] ].
  intros a b c. unfold String.leb.
  pose proof (string_compare_trans a b c) as H.
  destruct (String.compare a b), (String.compare b c), (String.compare a c);
    try reflexivity; try discriminate; intros _ _; exfalso; apply H; congruence.
Qed.

Lemma lex2_total_order {A B : Type} (ea la : A -> A -> bool)
    (lb : B -> B -> bool) :
  (forall a b, ea a b = true <-> a = b) ->
  total_order la -> total_order lb -> total_order (lex2 ea la lb).
Proof.
  intros Heq (Ta & Ra & Aa) (Tb & Rb & Ab). unfold lex2.
  assert (Hrefl : forall a, ea a a = true) by (intros a; now apply Heq).
  assert (Hne : forall a b, ea a b = false -> ea b a = false).
  { intros a b H. destruct (ea b a) eqn:E; [ | reflexivity ].
    apply Heq in E. subst. rewrite Hrefl in H. discriminate. }
  repeat split.
  - intros [a1 b1] [a2 b2]. simpl. destruct (ea a1 a2) eqn:E.
    + apply Heq in E. subst. rewrite Hrefl. apply Tb.
    + rewrite (Hne _ _ E). apply Ta.
  - intros [a1 b1] [a2 b2] [a3 b3]. simpl.
    destruct (ea a1 a2) eqn:E12.
    + apply Heq in E12. subst a2. destruct (ea a1 a3); [ apply Rb | auto ].
    + destruct (ea a2 a3) eqn:E23.
      * apply Heq in E23. subst a3. rewrite E12. auto.
      * intros H12 H23. destruct (ea a1 a3) eqn:E13; [ | eauto ].
        apply Heq in E13. subst a3.
        rewrite (Aa _ _ H12 H23), Hrefl in E12. discriminate.
  - intros [a1 b1] [a2 b2]. simpl. destruct (ea a1 a2) eqn:E.
    + apply Heq in E. subst. rewrite Hrefl. intros H1 H2.
      now rewrite (Ab _ _ H1 H2).
    + rewrite (Hne _ _ E). intros H1 H2.
      rewrite (Aa _ _ H1 H2), Hrefl in E. discriminate.
Qed.

Lemma zz_le_total_order : total_order zz_le.
Proof.
  apply lex2_total_order;
    auto using Z.eqb_eq, Z_leb_total_order.
Qed.

Lemma sz_le_total_order : total_order sz_le.
Proof.
  apply lex2_total_order;
    auto using String.eqb_eq, Z_leb_total_order, string_leb_total_order.
Qed.

Lemma szzz_le_total_order : total_order szzz_le.
Proof.
  apply lex2_total_order;
    auto using String.eqb_eq, string_leb_total_order.
  apply lex2_total_order;
    auto using Z.eqb_eq, Z_leb_total_order, zz_le_total_order.
Qed.

(** ** Grouping *)

Lemma in_get_group {R K : Type} `{EqDecision K} (key : R -> K)
    (df : list R) (k : K) (r : R) :
  In r (get_group key df k) <-> In r df /\ key r = k.
Proof.
  unfold get_group. rewrite filter_In, bool_decide_eq_true. tauto.
Qed.

Section groupby_facts.
Context {R K : Type} `{EqDecision K}.
Variable key : R -> K.
Variable kle : K -> K -> bool.

Lemma in_group_keys (df : list R) (k : K) :
  In k (group_keys key kle df) <-> In k (map key df).
Proof.
  unfold group_keys. rewrite <- !list_elem_of_In.
  rewrite merge_sort_Permutation. apply elem_of_remove_dups.
Qed.

Lemma NoDup_group_keys (df : list R) : List.NoDup (group_keys key kle df).
Proof.
  unfold group_keys. apply NoDup_ListNoDup.
  rewrite merge_sort_Permutation. apply NoDup_remove_dups.
Qed.

Lemma in_groupby (df : list R) (k : K) (g : list R) :
  In (k, g) (groupby key kle df) <->
  In k (map key df) /\ g = get_group key df k.
Proof.
  unfold groupby. rewrite in_map_iff. split.
  - intros (k' & Heq & Hin). inversion Heq; subst.
    split; [ now apply in_group_keys in Hin | reflexivity ].
  - intros [Hin ->]. exists k. split; [ reflexivity | ].
    now apply in_group_keys.
Qed.

Lemma ngroups_keys (df : list R) :
  ngroups key kle df = length (group_keys key kle df).
Proof. unfold ngroups, groupby. apply length_map. Qed.

Lemma in_groupby_apply {B : Type} (f : list R -> list B) (df : list R)
    (k : K) (b : B) :
  In (k, b) (groupby_apply key kle f df) <->
  In k (map key df) /\ In b (f (get_group key df k)).
Proof.
  unfold groupby_apply. rewrite in_flat_map. split.
  - intros ([k' g] & Hg & Hb). simpl in Hb.
    apply in_map_iff in Hb as (b' & Heq & Hb'). inversion Heq; subst.
    apply in_groupby in Hg as [Hk ->]. tauto.
  - intros [Hk Hb]. exists (k, get_group key df k). split.
    + apply in_groupby. tauto.
    + simpl. apply in_map_iff. eauto.
Qed.
End groupby_facts.

Lemma filter_filter_implied {A : Type} (f g : A -> bool) (l : list A) :
  (forall x, f x = true -> g x = true) ->
  List.filter f (List.filter g l) = List.filter f l.
Proof.
  intros H. induction l as [ | x l IH]; [ reflexivity | ].
  simpl. destruct (g x) eqn:Eg; simpl.
  - destruct (f x); now rewrite IH.
  - destruct (f x) eqn:Ef; [ | exact IH ].
    apply H in Ef. congruence.
Qed.

Lemma flat_map_ext_In {A B : Type} (f g : A -> list B) (l : list A) :
  (forall x, In x l -> f x = g x) -> flat_map f l = flat_map g l.
Proof.
  induction l as [ | x l IH]; intros H; [ reflexivity | ].
  simpl. rewrite (H x) by now left.
  rewrite IH; [ reflexivity | ]. intros y Hy. apply H. now right.
Qed.

Lemma StronglySorted_filter {A : Type} (rel : relation A) (f : A -> bool)
    (l : list A) :
  StronglySorted rel l -> StronglySorted rel (List.filter f l).
Proof.
  induction 1 as [ | a l Hl IH Ha]; simpl; [ constructor | ].
  destruct (f a); [ | exact IH ]. constructor; [ exact IH | ].
  rewrite List.Forall_forall in *. intros x Hx.
  apply filter_In in Hx as [Hx _]. now apply Ha.
Qed.

Lemma filter_flat_map_pointwise {A B : Type} (p : B -> bool)
    (g : A -> list B) (l : list A) :
  List.filter p (flat_map g l) = flat_map (fun x => List.filter p (g x)) l.
Proof.
  induction l as [ | x l IH]; [ reflexivity | ].
  simpl. now rewrite List.filter_app, IH.
Qed.

Lemma flat_map_filter_switch {A B : Type} (q : A -> bool) (g : A -> list B)
    (l : list A) :
  flat_map (fun x => if q x then g x else []) l
  = flat_map g (List.filter q l).
Proof.
  induction l as [ | x l IH]; [ reflexivity | ].
  simpl. destruct (q x); simpl; now rewrite IH.
Qed.

Section groupby_local.
Context {R K St : Type} `{EqDecision K} `{EqDecision St}.
Variable key : R -> K.
Variable kle : K -> K -> bool.
Variable station_of : R -> St.
Variable kst : K -> St.
Hypothesis Hkle : total_order kle.
Hypothesis Hkst : forall r, station_of r = kst (key r).

(** The keys of the rows of one station are the keys of that station. *)
Lemma group_keys_of_station (df : list R) (s : St) :
  group_keys key kle (get_group station_of df s)
  = List.filter (fun k => bool_decide (kst k = s)) (group_keys key kle df).
Proof.
  destruct Hkle as (Htotal & Htrans & Hanti).
  set (rel := fun a b : K => Is_true (kle a b)).
  assert (HT : Total rel).
  { intros x y. unfold rel.
    destruct (Htotal x y) as [E | E]; rewrite E; simpl; auto. }
  assert (HTr : Transitive rel).
  { intros x y z. unfold rel. rewrite !Is_true_true. apply Htrans. }
  assert (HA : AntiSymm eq rel).
  { intros x y. unfold rel. rewrite !Is_true_true. apply Hanti. }
  apply (StronglySorted_unique rel).
  - apply StronglySorted_merge_sort; assumption.
  - apply StronglySorted_filter, StronglySorted_merge_sort; assumption.
  - apply NoDup_Permutation.
    + apply NoDup_ListNoDup, NoDup_group_keys.
    + apply NoDup_ListNoDup, List.NoDup_filter, NoDup_group_keys.
    + intros k. rewrite !list_elem_of_In, filter_In, !in_group_keys,
        bool_decide_eq_true, !in_map_iff. split.
      * intros (r & <- & Hr). apply in_get_group in Hr as [Hr <-].
        split; [ eauto | symmetry; apply Hkst ].
      * intros [(r & <- & Hr) Hs]. exists r. split; [ reflexivity | ].
        apply in_get_group. split; [ exact Hr | ]. now rewrite Hkst.
Qed.

(** Grouping by a key that holds the station works station by
    station: the rows that [groupby(...).apply(f)] makes for a station
    are those it makes from the rows of that station. *)
Lemma groupby_apply_of_station {B : Type} (f : list R -> list B)
    (df : list R) (s : St) :
  List.filter (fun kb => bool_decide (kst (fst kb) = s))
              (groupby_apply key kle f df)
  = groupby_apply key kle f (get_group station_of df s).
Proof.
  unfold groupby_apply, groupby. rewrite !flat_map_concat_map, !map_map.
  rewrite <- !flat_map_concat_map. simpl.
  rewrite filter_flat_map_pointwise, group_keys_of_station.
  rewrite <- flat_map_filter_switch. apply flat_map_ext_In.
  intros k _. destruct (bool_decide (kst k = s)) eqn:E.
  - apply bool_decide_eq_true in E.
    assert (Hg : get_group key (get_group station_of df s) k
                 = get_group key df k).
    { unfold get_group. apply filter_filter_implied.
      intros r Hr. apply bool_decide_eq_true in Hr.
      apply bool_decide_eq_true. rewrite Hkst. congruence. }
    rewrite Hg.
    induction (f (get_group key df k)) as [ | b l IH]; [ reflexivity | ].
    simpl. rewrite (bool_decide_eq_true_2 _ E). now rewrite IH.
  - apply bool_decide_eq_false in E.
    induction (f (get_group key df k)) as [ | b l IH]; [ reflexivity | ].
    simpl. now rewrite (bool_decide_eq_false_2 _ E).
Qed.
End groupby_local.

(** ** Daily cloud *)

Lemma wet_code_spec (w : Z) :
  DailyCloud.wet_code w = true <->
  (50 <= w <= 75 \/ w = 77 \/ w = 79 \/ 80 <= w <= 99).
Proof.
  unfold DailyCloud.wet_code.
  rewrite !orb_true_iff, !andb_true_iff, !Z.leb_le, !Z.eqb_eq. lia.
Qed.

Lemma wet_day_group (df : list DailyCloud.hourly) (d : DailyCloud.daily) :
  In d (DailyCloud.calculate_daily df) ->
  DailyCloud.wet_day d =
    Z.b2z (existsb DailyCloud.wet_code (map DailyCloud.ww df)).
Proof. intros [<- | []]. reflexivity. Qed.

Lemma any_wet_code (df : list DailyCloud.hourly) :
  existsb DailyCloud.wet_code (map DailyCloud.ww df) = true <->
  exists r, In r df /\
    (50 <= DailyCloud.ww r <= 75 \/ DailyCloud.ww r = 77 \/
     DailyCloud.ww r = 79 \/ 80 <= DailyCloud.ww r <= 99).
Proof.
  rewrite existsb_exists. split.
  - intros (w & Hw & Hc). apply in_map_iff in Hw as (r & <- & Hr).
    exists r. split; [ assumption | now apply wet_code_spec ].
  - intros (r & Hr & Hc). exists (DailyCloud.ww r).
    split; [ now apply in_map | now apply wet_code_spec ].
Qed.

(** C10: a calendar day of the daily cloud frame has [wet_day = 1]
    exactly when one of its hourly present-weather codes lies in
    50..75, is 77, is 79 or lies in 80..99; otherwise [wet_day = 0]; a
    day whose codes are all 76 or 78 is dry. *)
Theorem wet_day_iff_wet_code (hourly_cloud : list DailyCloud.hourly)
    (k : string * (Z * (Z * Z))) (d : DailyCloud.daily) :
  In (k, d) (DailyCloud.setup_from_scratch hourly_cloud) ->
  let qualifies (r : DailyCloud.hourly) :=
    50 <= DailyCloud.ww r <= 75 \/ DailyCloud.ww r = 77 \/
    DailyCloud.ww r = 79 \/ 80 <= DailyCloud.ww r <= 99 in
  (DailyCloud.wet_day d = 1 <->
     exists r, In r hourly_cloud /\ DailyCloud.day_key r = k /\ qualifies r)
  /\ (DailyCloud.wet_day d = 0 <->
     forall r, In r hourly_cloud -> DailyCloud.day_key r = k -> ~ qualifies r)
  /\ ((forall r, In r hourly_cloud -> DailyCloud.day_key r = k ->
         DailyCloud.ww r = 76 \/ DailyCloud.ww r = 78) ->
      DailyCloud.wet_day d = 0).
Proof.
  intros Hin qualifies.
  apply in_groupby_apply in Hin as [_ Hd].
  apply wet_day_group in Hd.
  set (g := get_group DailyCloud.day_key hourly_cloud k) in *.
  assert (Hany : existsb DailyCloud.wet_code (map DailyCloud.ww g) = true <->
     exists r, In r hourly_cloud /\ DailyCloud.day_key r = k /\ qualifies r).
  { rewrite any_wet_code. split.
    - intros (r & Hr & Hq). apply in_get_group in Hr as [Hr Hk].
      exists r. auto.
    - intros (r & Hr & Hk & Hq). exists r. split; [ | exact Hq ].
      apply in_get_group. tauto. }
  assert (H1 : DailyCloud.wet_day d = 1 <->
     exists r, In r hourly_cloud /\ DailyCloud.day_key r = k /\ qualifies r).
  { rewrite <- Hany, Hd.
    destruct (existsb _ _); simpl; split; intros; congruence || lia. }
  assert (H0 : DailyCloud.wet_day d = 0 <->
     forall r, In r hourly_cloud -> DailyCloud.day_key r = k -> ~ qualifies r).
  { split.
    - intros Hz r Hr Hk Hq.
      assert (DailyCloud.wet_day d = 1) by (apply H1; eauto). lia.
    - intros Hno. rewrite Hd.
      destruct (existsb _ _) eqn:E; [ | reflexivity ].
      destruct (proj1 Hany eq_refl) as (r & Hr & Hk & Hq).
      now destruct (Hno r). }
  split; [ exact H1 | split; [ exact H0 | ] ].
  intros Hall. apply H0. intros r Hr Hk Hq.
  destruct (Hall r Hr Hk) as [E | E]; unfold qualifies in Hq; lia.
Qed.

Lemma wet_day_iff_wet_code_witness :
  DailyCloud.wet_day
    (DailyCloud.Daily 0 (Fin 1) (Fin 2) (Fin (8 # 16)) (Fin (4 # 2))) = 0.
Proof.
  refine (proj2 (proj2 (wet_day_iff_wet_code hourly_sample
    ("62"%string, (1990, (1, 2)))
    (DailyCloud.Daily 0 (Fin 1) (Fin 2) (Fin (8 # 16)) (Fin (4 # 2))) _)) _).
  - vm_compute. tauto.
  - intros r Hr Hk.
    repeat (destruct Hr as [<- | Hr]; [ first [ discriminate Hk | vm_compute; tauto ] | ]).
    destruct Hr.
Defined.

(** ** Markov chain *)

Lemma count_nonneg (a : list bool) : 0 <= Arr.count a.
Proof. unfold Arr.count. lia. Qed.

Lemma count_cons (b : bool) (a : list bool) :
  Arr.count (b :: a) = Z.b2z b + Arr.count a.
Proof. unfold Arr.count. destruct b; simpl; lia. Qed.

Lemma count_le_length (a : list bool) : Arr.count a <= Z.of_nat (length a).
Proof.
  induction a as [ | b a IH]; [ reflexivity | ].
  rewrite count_cons. destruct b; simpl length; simpl Z.b2z; lia.
Qed.

Lemma count_band_le (a b : list bool) : Arr.count (Arr.band a b) <= Arr.count a.
Proof.
  revert b. induction a as [ | x a IH]; intros [ | y b].
  - reflexivity.
  - reflexivity.
  - apply count_nonneg.
  - change (Arr.band (x :: a) (y :: b)) with (andb x y :: Arr.band a b).
    rewrite !count_cons. specialize (IH b). destruct x, y; simpl; lia.
Qed.

Lemma length_but_last {A} (a : list A) :
  (length (Arr.but_last a) <= length a)%nat.
Proof. unfold Arr.but_last. rewrite length_firstn. lia. Qed.

Lemma calc_ndays_ordered (df : list CompleteDaily.row) (c : MarkovChain.ndays) :
  MarkovChain.calc_ndays df = Some c -> ndays_ordered c.
Proof.
  unfold MarkovChain.calc_ndays. destruct df as [ | r df]; [ discriminate | ].
  intros [= <-]. unfold ndays_ordered. cbn [MarkovChain.np11 MarkovChain.nwet
    MarkovChain.np01 MarkovChain.ndry MarkovChain.np001
    MarkovChain.np001_denom MarkovChain.np101 MarkovChain.np101_denom
    MarkovChain.n].
  set (vals := CompleteDaily.prcp_values (r :: df)).
  repeat split;
    first [ match goal with
            | |- ?x <= ?x + Arr.count ?y => pose proof (count_nonneg y); lia
            end
          | apply count_nonneg
          | apply count_band_le
          | idtac ].
  etransitivity; [ apply count_le_length | ].
  rewrite length_map.
  match goal with
  | |- context [Arr.but_last ?a] => pose proof (length_but_last a) as Hl
  end.
  simpl length in Hl. lia.
Qed.

Lemma zero_ndays_ordered : ndays_ordered MarkovChain.zero_ndays.
Proof. unfold ndays_ordered; simpl; lia. Qed.

Lemma add_ndays_ordered (a b : MarkovChain.ndays) :
  ndays_ordered a -> ndays_ordered b ->
  ndays_ordered (MarkovChain.add_ndays a b).
Proof. unfold ndays_ordered; simpl; lia. Qed.

Lemma sum_ndays_ordered (rows : list (option MarkovChain.ndays)) :
  (forall c, In (Some c) rows -> ndays_ordered c) ->
  ndays_ordered (MarkovChain.sum_ndays rows).
Proof.
  induction rows as [ | [c | ] rows IH]; intros H; simpl.
  - apply zero_ndays_ordered.
  - apply add_ndays_ordered; [ apply H; now left | ].
    apply IH. intros c' Hc'. apply H. now right.
  - apply IH. intros c' Hc'. apply H. now right.
Qed.

Lemma pooled_ordered (df : list CompleteDaily.row) :
  ndays_ordered (MarkovChain.pooled df).
Proof.
  apply sum_ndays_ordered. intros c Hc.
  apply in_map_iff in Hc as (g & Hg & _). now apply calc_ndays_ordered in Hg.
Qed.

Lemma ratio_zero_den (num : Z) : MarkovChain.ratio num 0 = Fin 0.
Proof. reflexivity. Qed.

Lemma ratio_in_unit (num den : Z) :
  0 <= num <= den -> Float.in_unit (MarkovChain.ratio num den).
Proof.
  intros H. unfold MarkovChain.ratio.
  destruct (0 <? den) eqn:E; [ | simpl; split; discriminate ].
  apply Z.ltb_lt in E. unfold Float.div, Float.of_Z.
  assert (Hpos : (0 < inject_Z den)%Q).
  { change 0%Q with (inject_Z 0). now rewrite <- Zlt_Qlt. }
  destruct (Qeq_bool (inject_Z den) 0) eqn:Eq.
  { apply Qeq_bool_iff in Eq. rewrite Eq in Hpos. now apply Qlt_irrefl in Hpos. }
  simpl. split.
  - apply Qle_shift_div_l; [ exact Hpos | ]. rewrite Qmult_0_l.
    change 0%Q with (inject_Z 0). rewrite <- Zle_Qle. lia.
  - apply Qle_shift_div_r; [ exact Hpos | ]. rewrite Qmult_1_l.
    rewrite <- Zle_Qle. lia.
Qed.

Lemma in_markov_frame (cday : list CompleteDaily.row) (k : string * Z)
    (row : MarkovChain.probs) :
  In (k, row) (MarkovChain.setup_from_scratch cday) ->
  let df := get_group CompleteDaily.id_month cday k in
  let dfs := MarkovChain.pooled df in
  (10 < ngroups CompleteDaily.year_month zz_le df)%nat /\
  row = {| MarkovChain.p11 :=
             MarkovChain.ratio (MarkovChain.np11 dfs) (MarkovChain.nwet dfs);
           MarkovChain.p01 :=
             MarkovChain.ratio (MarkovChain.np01 dfs) (MarkovChain.ndry dfs);
           MarkovChain.p001 :=
             MarkovChain.ratio (MarkovChain.np001 dfs)
                               (MarkovChain.np001_denom dfs);
           MarkovChain.p101 :=
             MarkovChain.ratio (MarkovChain.np101 dfs)
                               (MarkovChain.np101_denom dfs);
           MarkovChain.wetf :=
             MarkovChain.ratio (MarkovChain.nwet dfs) (MarkovChain.n dfs) |}.
Proof.
  intros Hin df dfs. apply in_groupby_apply in Hin as [_ Hrow].
  fold df in Hrow. unfold MarkovChain.calculate_probabilities in Hrow.
  destruct (10 <? ngroups CompleteDaily.year_month zz_le df)%nat eqn:E;
    [ | destruct Hrow ].
  apply Nat.ltb_lt in E. destruct Hrow as [<- | []]. split; [ exact E | reflexivity ].
Qed.

(** C4: every row the Markov chain task emits belongs to a
    station-month group of more than 10 (year, month) groups; its five
    ratios p11, p01, p001, p101 and wetf are numbers of [0, 1]; and a
    ratio whose pooled denominator count is 0 is the number 0. *)
Theorem markov_ratios_in_unit_interval (cday : list CompleteDaily.row)
    (k : string * Z) (row : MarkovChain.probs) :
  In (k, row) (MarkovChain.setup_from_scratch cday) ->
  let df := get_group CompleteDaily.id_month cday k in
  let dfs := MarkovChain.pooled df in
  (10 < ngroups CompleteDaily.year_month zz_le df)%nat /\
  (Float.in_unit (MarkovChain.p11 row) /\
   Float.in_unit (MarkovChain.p01 row) /\
   Float.in_unit (MarkovChain.p001 row) /\
   Float.in_unit (MarkovChain.p101 row) /\
   Float.in_unit (MarkovChain.wetf row)) /\
  ((MarkovChain.nwet dfs = 0 -> MarkovChain.p11 row = Fin 0) /\
   (MarkovChain.ndry dfs = 0 -> MarkovChain.p01 row = Fin 0) /\
   (MarkovChain.np001_denom dfs = 0 -> MarkovChain.p001 row = Fin 0) /\
   (MarkovChain.np101_denom dfs = 0 -> MarkovChain.p101 row = Fin 0) /\
   (MarkovChain.n dfs = 0 -> MarkovChain.wetf row = Fin 0)).
Proof.
  intros Hin df dfs. destruct (in_markov_frame cday k row Hin) as [Hn ->].
  pose proof (pooled_ordered df) as Ho.
  change (MarkovChain.pooled df) with dfs in Ho.
  change (MarkovChain.pooled (get_group CompleteDaily.id_month cday k))
    with dfs.
  clearbody dfs. destruct Ho as (H11 & H01 & H001 & H101 & Hw).
  split; [ exact Hn | ]. cbn [MarkovChain.p11 MarkovChain.p01 MarkovChain.p001
    MarkovChain.p101 MarkovChain.wetf]. split.
  - repeat split; apply ratio_in_unit; assumption.
  - repeat split; intros ->; apply ratio_zero_den.
Qed.

Lemma markov_ratios_in_unit_interval_witness :
  In ("ST1"%string, 1, markov_sample_row)
     (MarkovChain.setup_from_scratch cday_sample) /\
  Float.in_unit (MarkovChain.p11 markov_sample_row) /\
  MarkovChain.p001 markov_sample_row = Fin 0.
Proof.
  assert (Hin : In ("ST1"%string, 1, markov_sample_row)
                   (MarkovChain.setup_from_scratch cday_sample))
    by (vm_compute; left; reflexivity).
  split; [ exact Hin | ].
  destruct (markov_ratios_in_unit_interval cday_sample ("ST1"%string, 1)
              markov_sample_row Hin) as (_ & (H11 & _) & (_ & _ & H001 & _)).
  split; [ exact H11 | ]. apply H001. reflexivity.
Defined.

(** C8: a station-month group with 10 or fewer (year, month) groups
    gets the empty frame from [calculate_probabilities], so the frame
    of the task has no row, and no computed probability, for it. *)
Theorem markov_small_group_empty (cday : list CompleteDaily.row)
    (k : string * Z) :
  let df := get_group CompleteDaily.id_month cday k in
  (ngroups CompleteDaily.year_month zz_le df <= 10)%nat ->
  MarkovChain.calculate_probabilities df = [] /\
  forall row, ~ In (k, row) (MarkovChain.setup_from_scratch cday).
Proof.
  intros df Hn.
  assert (E : MarkovChain.calculate_probabilities df = []).
  { unfold MarkovChain.calculate_probabilities.
    destruct (10 <? ngroups CompleteDaily.year_month zz_le df)%nat eqn:E;
      [ apply Nat.ltb_lt in E; lia | reflexivity ]. }
  split; [ exact E | ]. intros row Hin.
  apply in_groupby_apply in Hin as [_ Hrow]. fold df in Hrow.
  rewrite E in Hrow. destruct Hrow.
Qed.

Lemma markov_small_group_empty_witness :
  (ngroups CompleteDaily.year_month zz_le
     (get_group CompleteDaily.id_month cday_sample ("ST2"%string, 1%Z))
   <= 10)%nat /\
  MarkovChain.calculate_probabilities
    (get_group CompleteDaily.id_month cday_sample ("ST2"%string, 1%Z)) = [].
Proof.
  assert (H : (ngroups CompleteDaily.year_month zz_le
     (get_group CompleteDaily.id_month cday_sample ("ST2"%string, 1%Z))
   <= 10)%nat) by (vm_compute; lia).
  split; [ exact H | ].
  exact (proj1 (markov_small_group_empty cday_sample ("ST2"%string, 1) H)).
Defined.

(** ** Temperature *)

Lemma select_map {A B : Type} (f : A -> B) (p : A -> bool) (l : list A) :
  Arr.select (map f l) (map p l) = map f (List.filter p l).
Proof.
  induction l as [ | x l IH]; [ reflexivity | ].
  simpl. destruct (p x); simpl; now rewrite IH.
Qed.

Lemma is_zero_add (x y : npfloat) :
  Float.is_zero x -> Float.is_zero y -> Float.is_zero (Float.add x y).
Proof.
  destruct x as [a | | | ], y as [b | | | ]; simpl; try tauto.
  intros Ha Hb. rewrite Ha, Hb. reflexivity.
Qed.

Lemma is_zero_sub (x y : npfloat) :
  Float.is_zero x -> Float.is_zero y -> Float.is_zero (Float.sub x y).
Proof.
  destruct x as [a | | | ], y as [b | | | ]; simpl; try tauto.
  intros Ha Hb. rewrite Ha, Hb. reflexivity.
Qed.

Lemma is_zero_mul (x y : npfloat) :
  Float.is_zero x -> Float.is_zero y -> Float.is_zero (Float.mul x y).
Proof.
  destruct x as [a | | | ], y as [b | | | ]; simpl; try tauto.
  intros Ha Hb. rewrite Ha. apply Qmult_0_l.
Qed.

Lemma is_zero_sub_self (q : Q) : Float.is_zero (Float.sub (Fin q) (Fin q)).
Proof. simpl. apply Qplus_opp_r. Qed.

Lemma is_zero_sqrt (x : npfloat) :
  Float.is_zero x -> Float.is_zero (Float.sqrt x).
Proof.
  destruct x as [[n d] | | | ]; simpl; try tauto.
  unfold Qeq. simpl. intros H. rewrite Z.mul_1_r in H. subst n.
  simpl. reflexivity.
Qed.

Lemma is_zero_sum (xs : list npfloat) (acc : npfloat) :
  Float.is_zero acc -> Forall Float.is_zero xs ->
  Float.is_zero (fold_left Float.add xs acc).
Proof.
  revert acc. induction xs as [ | x xs IH]; intros acc Ha Hx; [ exact Ha | ].
  simpl. apply Forall_cons_1 in Hx as [Hx Hxs]. apply IH; [ | exact Hxs ].
  now apply is_zero_add.
Qed.

Lemma is_zero_mean (xs : list npfloat) :
  xs <> [] -> Forall Float.is_zero xs -> Float.is_zero (Float.mean xs).
Proof.
  intros Hne Hx. unfold Float.mean.
  pose proof (is_zero_sum xs Float.zero (Qeq_refl 0) Hx) as Hs.
  fold (Float.sum xs) in Hs. destruct (Float.sum xs) as [s | | | ]; try easy.
  simpl in Hs. unfold Float.of_nat, Float.of_Z, Float.div.
  assert (Hn : Qeq_bool (inject_Z (Z.of_nat (length xs))) 0 = false).
  { destruct xs; [ congruence | reflexivity ]. }
  rewrite Hn. simpl. rewrite Hs. apply Qmult_0_l.
Qed.

Lemma is_zero_std (xs : list npfloat) :
  xs <> [] -> Forall Float.is_zero xs -> Float.is_zero (Float.std xs).
Proof.
  intros Hne Hx. unfold Float.std. apply is_zero_sqrt.
  pose proof (is_zero_mean xs Hne Hx) as Hm.
  apply is_zero_mean.
  - destruct xs; [ congruence | discriminate ].
  - apply Forall_map. eapply Forall_impl; [ exact Hx | ].
    intros x Hzx. simpl. apply is_zero_mul; now apply is_zero_sub.
Qed.

Lemma arr_sub_self (qs : list Q) :
  Forall Float.is_zero (Float.arr_sub (map Fin qs) (map Fin qs)).
Proof.
  induction qs as [ | q qs IH]; [ constructor | ].
  change (Float.arr_sub (map Fin (q :: qs)) (map Fin (q :: qs)))
    with (Float.sub (Fin q) (Fin q)
          :: Float.arr_sub (map Fin qs) (map Fin qs)).
  constructor; [ apply is_zero_sub_self | exact IH ].
Qed.

Lemma gt0_Fin (q : Q) : Float.gt0 (Fin q) = true <-> (0 < q)%Q.
Proof.
  unfold Float.gt0, Float.ltb, Float.zero. rewrite Qlt_alt.
  destruct (0 ?= q)%Q; split; congruence.
Qed.

Lemma eq0_Fin (q : Q) : Float.eq0 (Fin q) = true <-> (q == 0)%Q.
Proof. unfold Float.eq0, Float.eqb, Float.zero. apply Qeq_bool_iff. Qed.

(** The maximum temperatures of the days selected by a mask on the
    precipitation are numbers, and there is one when a day is selected. *)
Lemma select_tmax (p : npfloat -> bool) (df : list CompleteDaily.row) :
  exists qs : list Q,
    Arr.select (CompleteDaily.tmax_values df)
               (map p (CompleteDaily.prcp_values df)) = map Fin qs /\
    ((exists r, In r df /\ p (Fin (CompleteDaily.prcp r)) = true) -> qs <> []).
Proof.
  exists (map CompleteDaily.tmax
            (List.filter (fun r => p (Fin (CompleteDaily.prcp r))) df)).
  unfold CompleteDaily.tmax_values, CompleteDaily.prcp_values. split.
  - rewrite (map_map _ p), select_map, (map_map _ Fin). reflexivity.
  - intros (r & Hr & Hp) E. apply map_eq_nil in E.
    assert (Hf : In r (List.filter
                         (fun r => p (Fin (CompleteDaily.prcp r))) df))
      by (apply filter_In; auto).
    rewrite E in Hf. destruct Hf.
Qed.

Lemma range_of_self_zero (qs : list Q) :
  qs <> [] ->
  Float.is_zero (Float.mean (Float.arr_sub (map Fin qs) (map Fin qs))) /\
  Float.is_zero (Float.std (Float.arr_sub (map Fin qs) (map Fin qs))).
Proof.
  intros Hne.
  assert (Hn : Float.arr_sub (map Fin qs) (map Fin qs) <> []).
  { destruct qs; [ congruence | discriminate ]. }
  split; [ apply is_zero_mean | apply is_zero_std ];
    auto using arr_sub_self.
Qed.

(** C9: when [calc_monthly_props] makes the row of a month (the
    arithmetic and the geometric mean of the wet-day precipitation
    differ), it returns exactly that row, and in it the wet-day
    temperature range and its standard deviation, computed from the
    maximum temperatures minus themselves, are the number 0 when the
    month has a wet day; and the same for the dry-day range of a month
    with a dry day. *)
Theorem trange_wet_dry_zero (np_log np_exp : npfloat -> npfloat)
    (df : list CompleteDaily.row) :
  TemperatureParameterizer.fields np_log np_exp df = true ->
  exists row,
    TemperatureParameterizer.calc_monthly_props np_log np_exp df = [row] /\
    ((exists r, In r df /\ (0 < CompleteDaily.prcp r)%Q) ->
     Float.is_zero (TemperatureParameterizer.trange_wet row) /\
     Float.is_zero (TemperatureParameterizer.trangestddev_wet row)) /\
    ((exists r, In r df /\ (CompleteDaily.prcp r == 0)%Q) ->
     Float.is_zero (TemperatureParameterizer.trange_dry row) /\
     Float.is_zero (TemperatureParameterizer.trangestddev_dry row)).
Proof.
  intros Hfields. unfold TemperatureParameterizer.calc_monthly_props.
  rewrite Hfields. eexists. split; [ reflexivity | ].
  cbn [TemperatureParameterizer.trange_wet
       TemperatureParameterizer.trangestddev_wet
       TemperatureParameterizer.trange_dry
       TemperatureParameterizer.trangestddev_dry].
  split; intros (r & Hr & Hp).
  - destruct (select_tmax Float.gt0 df) as (qs & Eqs & Hne).
    assert (E : TemperatureParameterizer.arr_tmax_wet df = map Fin qs)
      by exact Eqs.
    rewrite E. apply range_of_self_zero, Hne.
    exists r. split; [ exact Hr | now apply gt0_Fin ].
  - destruct (select_tmax Float.eq0 df) as (qs & Eqs & Hne).
    assert (E : TemperatureParameterizer.arr_tmax_dry df = map Fin qs)
      by exact Eqs.
    rewrite E. apply range_of_self_zero, Hne.
    exists r. split; [ exact Hr | now apply eq0_Fin ].
Qed.

Lemma trange_wet_dry_zero_witness :
  exists row,
    TemperatureParameterizer.calc_monthly_props
      (fun x => x) (fun x => Float.add x (Fin 1)) month_sample = [row] /\
    Float.is_zero (TemperatureParameterizer.trange_wet row) /\
    Float.is_zero (TemperatureParameterizer.trangestddev_wet row) /\
    Float.is_zero (TemperatureParameterizer.trange_dry row) /\
    Float.is_zero (TemperatureParameterizer.trangestddev_dry row).
Proof.
  destruct (trange_wet_dry_zero (fun x => x) (fun x => Float.add x (Fin 1))
              month_sample)
    as (row & Erow & Hwet & Hdry); [ vm_compute; reflexivity | ].
  exists row. split; [ exact Erow | ].
  destruct Hwet as [Hw1 Hw2].
  { exists (CompleteDaily.Row "ST1" 1990 1 3 1 0 6).
    split; [ right; right; left; reflexivity | reflexivity ]. }
  destruct Hdry as [Hd1 Hd2].
  { exists (CompleteDaily.Row "ST1" 1990 1 1 0 (-3) 2).
    split; [ left; reflexivity | reflexivity ]. }
  repeat split; assumption.
Defined.

(** ** Precipitation distribution *)

Lemma bind_pair {A B : Type} (a : A) (e : list PrcpDistParams.event)
    (k : A -> PrcpDistParams.M B) :
  PrcpDistParams.bind (a, e) k = (fst (k a), e ++ snd (k a)).
Proof. unfold PrcpDistParams.bind. simpl. now destruct (k a). Qed.

Lemma bind_fst {A B : Type} (m : PrcpDistParams.M A)
    (k : A -> PrcpDistParams.M B) :
  fst (PrcpDistParams.bind m k) = fst (k (fst m)).
Proof. unfold PrcpDistParams.bind. now destruct (k (fst m)). Qed.

Lemma bind_snd {A B : Type} (m : PrcpDistParams.M A)
    (k : A -> PrcpDistParams.M B) :
  snd (PrcpDistParams.bind m k) = snd m ++ snd (k (fst m)).
Proof. unfold PrcpDistParams.bind. now destruct (k (fst m)). Qed.

Lemma insert_after_prefix {A : Type} (d r : list A) (x y : A) (k : nat) :
  length d = k -> <[k := x]> (d ++ y :: r) = (d ++ [x]) ++ r.
Proof.
  intros <-. rewrite insert_app_r_alt by lia.
  rewrite Nat.sub_diag. simpl. now rewrite <- app_assoc.
Qed.

Lemma repeat_length_map {A B : Type} (x : B) (l : list A) :
  repeat x (length l) = map (fun _ => x) l.
Proof. induction l; simpl; congruence. Qed.

Lemma imap_nth_cells {B : Type}
    (F : npfloat -> npfloat -> npfloat -> npfloat -> Q -> B)
    (c1 c2 c3 c4 : Q -> npfloat) (ts : list Q) :
  imap (fun i t => F (nth i (map c1 ts) NaN) (nth i (map c2 ts) NaN)
                     (nth i (map c3 ts) NaN) (nth i (map c4 ts) NaN) t) ts
  = map (fun t => F (c1 t) (c2 t) (c3 t) (c4 t) t) ts.
Proof.
  induction ts as [ | t ts IH]; [ reflexivity | ].
  rewrite imap_cons. simpl. f_equal. exact IH.
Qed.

Section loop_facts.
Variable genpareto_fit : Q -> list npfloat -> option (npfloat * npfloat).
Variable gamma_cdf : npfloat -> npfloat -> npfloat -> npfloat.
Variable gamma_pdf : npfloat -> npfloat -> npfloat -> npfloat.
Variable df : list CompleteDaily.row.
Variable vals : list npfloat.
Variable gshape gscale : npfloat.

(** One turn of the loop, from lists filled up to the index [k]. *)
Lemma thresh_body_step (d1 d2 d3 d4 r1 r2 r3 r4 : list npfloat)
    (k : nat) (t : Q) :
  length d1 = k -> length d2 = k -> length d3 = k -> length d4 = k ->
  PrcpDistParams.thresh_body genpareto_fit gamma_cdf gamma_pdf df vals
    gshape gscale
    {| PrcpDistParams.ngp := d1 ++ NaN :: r1;
       PrcpDistParams.pshape := d2 ++ NaN :: r2;
       PrcpDistParams.pscale := d3 ++ NaN :: r3;
       PrcpDistParams.pscale_orig := d4 ++ NaN :: r4 |} (k, t)
  = ({| PrcpDistParams.ngp := (d1 ++ [cell_ngp vals t]) ++ r1;
        PrcpDistParams.pshape :=
          (d2 ++ [cell_pshape genpareto_fit vals t]) ++ r2;
        PrcpDistParams.pscale :=
          (d3 ++ [cell_pscale genpareto_fit gamma_cdf gamma_pdf vals
                              gshape gscale t]) ++ r3;
        PrcpDistParams.pscale_orig :=
          (d4 ++ [cell_pscale_orig genpareto_fit vals t]) ++ r4 |},
      gp_events genpareto_fit df vals t).
Proof.
  intros H1 H2 H3 H4.
  unfold PrcpDistParams.thresh_body, cell_pshape, cell_pscale,
    cell_pscale_orig, gp_fit, gp_events, cell_ngp.
  cbn [PrcpDistParams.ngp PrcpDistParams.pshape PrcpDistParams.pscale
       PrcpDistParams.pscale_orig].
  rewrite (insert_after_prefix d1 r1 _ NaN k H1).
  destruct (10 <? length (PrcpDistParams.exceedances vals t))%nat.
  - unfold PrcpDistParams.emit. rewrite bind_pair.
    destruct (genpareto_fit t (PrcpDistParams.exceedances vals t))
      as [[psh pso] | ].
    + cbn [fst snd PrcpDistParams.ret app].
      rewrite (insert_after_prefix d2 r2 _ NaN k H2),
        (insert_after_prefix d3 r3 _ NaN k H3),
        (insert_after_prefix d4 r4 _ NaN k H4). reflexivity.
    + unfold PrcpDistParams.on_error, PrcpDistParams.emit.
      rewrite !bind_pair. cbn [fst snd PrcpDistParams.ret app].
      rewrite <- !(app_assoc _ [NaN]). reflexivity.
  - unfold PrcpDistParams.ret. rewrite <- !(app_assoc _ [NaN]). reflexivity.
Qed.

Lemma foldM_thresh_body (ts : list Q) :
  forall (d1 d2 d3 d4 : list npfloat) (k : nat),
  length d1 = k -> length d2 = k -> length d3 = k -> length d4 = k ->
  PrcpDistParams.foldM
    (PrcpDistParams.thresh_body genpareto_fit gamma_cdf gamma_pdf df vals
       gshape gscale)
    (combine (seq k (length ts)) ts)
    {| PrcpDistParams.ngp := d1 ++ repeat NaN (length ts);
       PrcpDistParams.pshape := d2 ++ repeat NaN (length ts);
       PrcpDistParams.pscale := d3 ++ repeat NaN (length ts);
       PrcpDistParams.pscale_orig := d4 ++ repeat NaN (length ts) |}
  = ({| PrcpDistParams.ngp := d1 ++ map (cell_ngp vals) ts;
        PrcpDistParams.pshape :=
          d2 ++ map (cell_pshape genpareto_fit vals) ts;
        PrcpDistParams.pscale :=
          d3 ++ map (cell_pscale genpareto_fit gamma_cdf gamma_pdf vals
                                 gshape gscale) ts;
        PrcpDistParams.pscale_orig :=
          d4 ++ map (cell_pscale_orig genpareto_fit vals) ts |},
      flat_map (gp_events genpareto_fit df vals) ts).
Proof.
  induction ts as [ | t ts IH]; intros d1 d2 d3 d4 k H1 H2 H3 H4.
  - simpl. now rewrite !app_nil_r.
  - cbn [length seq combine repeat PrcpDistParams.foldM].
    rewrite (thresh_body_step d1 d2 d3 d4 _ _ _ _ k t H1 H2 H3 H4).
    rewrite bind_pair.
    rewrite (IH _ _ _ _ (S k)) by (rewrite length_app; simpl; lia).
    cbn [fst snd map flat_map]. rewrite <- !app_assoc. reflexivity.
Qed.
End loop_facts.

Section prcp_dist_params_facts.
Variable gamma_fit : list npfloat -> option (npfloat * npfloat).
Variable genpareto_fit : Q -> list npfloat -> option (npfloat * npfloat).
Variable gamma_cdf : npfloat -> npfloat -> npfloat -> npfloat.
Variable gamma_pdf : npfloat -> npfloat -> npfloat -> npfloat.

Local Abbreviation prcp_dist_params :=
  (PrcpDistParams.prcp_dist_params gamma_fit genpareto_fit gamma_cdf
                                   gamma_pdf).

(** With 10 or fewer wet-day samples nothing is fitted. *)
Lemma prcp_dist_params_few (df : list CompleteDaily.row) (threshs : list Q) :
  (length (wet_samples df) <= 10)%nat ->
  prcp_dist_params df threshs = (map (nan_row df threshs) threshs, []).
Proof.
  intros Hn. unfold PrcpDistParams.prcp_dist_params. fold (wet_samples df).
  destruct (10 <? length (wet_samples df))%nat eqn:E;
    [ apply Nat.ltb_lt in E; lia | ].
  unfold PrcpDistParams.ret. rewrite bind_pair. cbn [fst snd app].
  f_equal. rewrite (repeat_length_map NaN threshs).
  apply (imap_nth_cells
           (fun c1 c2 c3 c4 t => PrcpDistParams.Params _ _ _ c1 t _ _ c2 c3 c4)
           (fun _ => NaN) (fun _ => NaN) (fun _ => NaN) (fun _ => NaN)).
Qed.

(** A Gamma fit that raises leaves every cell [NaN]. *)
Lemma prcp_dist_params_gamma_raises (df : list CompleteDaily.row)
    (threshs : list Q) :
  (10 < length (wet_samples df))%nat ->
  gamma_fit (wet_samples df) = None ->
  prcp_dist_params df threshs =
    (map (nan_row df threshs) threshs,
     PrcpDistParams.GammaFit (wet_samples df) :: error_events df).
Proof.
  intros Hn Hfit. unfold PrcpDistParams.prcp_dist_params.
  fold (wet_samples df).
  destruct (10 <? length (wet_samples df))%nat eqn:E;
    [ | apply Nat.ltb_ge in E; lia ].
  rewrite Hfit. unfold PrcpDistParams.on_error, PrcpDistParams.emit,
    PrcpDistParams.ret.
  rewrite !bind_pair. cbn [fst snd app].
  f_equal. rewrite (repeat_length_map NaN threshs).
  apply (imap_nth_cells
           (fun c1 c2 c3 c4 t => PrcpDistParams.Params _ _ _ c1 t _ _ c2 c3 c4)
           (fun _ => NaN) (fun _ => NaN) (fun _ => NaN) (fun _ => NaN)).
Qed.

(** After a Gamma fit every threshold gets the cells of its own turn of
    the loop. *)
Lemma prcp_dist_params_fitted (df : list CompleteDaily.row)
    (threshs : list Q) (gshape gscale : npfloat) :
  (10 < length (wet_samples df))%nat ->
  gamma_fit (wet_samples df) = Some (gshape, gscale) ->
  prcp_dist_params df threshs =
    (map (fit_row genpareto_fit gamma_cdf gamma_pdf df threshs gshape gscale)
         threshs,
     PrcpDistParams.GammaFit (wet_samples df)
       :: flat_map (gp_events genpareto_fit df (wet_samples df)) threshs).
Proof.
  intros Hn Hfit. unfold PrcpDistParams.prcp_dist_params.
  fold (wet_samples df).
  destruct (10 <? length (wet_samples df))%nat eqn:E;
    [ | apply Nat.ltb_ge in E; lia ].
  rewrite Hfit. unfold PrcpDistParams.enumerate.
  pose proof (foldM_thresh_body genpareto_fit gamma_cdf gamma_pdf df
                (wet_samples df) gshape gscale threshs [] [] [] [] 0%nat
                eq_refl eq_refl eq_refl eq_refl) as Hloop.
  cbn [app] in Hloop. rewrite Hloop.
  unfold PrcpDistParams.emit, PrcpDistParams.ret.
  rewrite !bind_pair. cbn [fst snd app]. rewrite !app_nil_r.
  f_equal.
  apply (imap_nth_cells
           (fun c1 c2 c3 c4 t => PrcpDistParams.Params _ _ _ c1 t _ _ c2 c3 c4)).
Qed.
End prcp_dist_params_facts.

Lemma map_thresh_nan_row (df : list CompleteDaily.row) (ts ts' : list Q) :
  map PrcpDistParams.r_thresh (map (nan_row df ts') ts) = ts.
Proof. rewrite map_map. simpl. apply map_id. Qed.

Lemma map_thresh_fit_row
    (genpareto_fit : Q -> list npfloat -> option (npfloat * npfloat))
    (gamma_cdf gamma_pdf : npfloat -> npfloat -> npfloat -> npfloat)
    (df : list CompleteDaily.row) (ts ts' : list Q) (gshape gscale : npfloat) :
  map PrcpDistParams.r_thresh
      (map (fit_row genpareto_fit gamma_cdf gamma_pdf df ts' gshape gscale) ts)
  = ts.
Proof. rewrite map_map. simpl. apply map_id. Qed.

Lemma gp_fit_few
    (genpareto_fit : Q -> list npfloat -> option (npfloat * npfloat))
    (vals : list npfloat) (t : Q) :
  (length (PrcpDistParams.exceedances vals t) <= 10)%nat ->
  gp_fit genpareto_fit vals t = None.
Proof.
  intros H. unfold gp_fit.
  destruct (10 <? length (PrcpDistParams.exceedances vals t))%nat eqn:E;
    [ apply Nat.ltb_lt in E; lia | reflexivity ].
Qed.

Lemma in_gp_events
    (genpareto_fit : Q -> list npfloat -> option (npfloat * npfloat))
    (df : list CompleteDaily.row) (vals : list npfloat) (t t' : Q)
    (arr : list npfloat) :
  In (PrcpDistParams.GenparetoFit t arr) (gp_events genpareto_fit df vals t') ->
  t = t' /\ arr = PrcpDistParams.exceedances vals t /\ (10 < length arr)%nat.
Proof.
  unfold gp_events.
  destruct (10 <? length (PrcpDistParams.exceedances vals t'))%nat eqn:E;
    [ | intros [] ].
  apply Nat.ltb_lt in E. intros [H | H].
  - inversion H; subst. auto.
  - destruct (genpareto_fit t' (PrcpDistParams.exceedances vals t'));
      [ destruct H | ].
    unfold error_events in H. simpl in H.
    destruct H as [H | [H | [H | []]]]; discriminate H.
Qed.

(** Whatever the fits do, the frame has the rows of the thresholds, in
    their order. *)
Lemma prcp_dist_params_threshs
    (gamma_fit : list npfloat -> option (npfloat * npfloat))
    (genpareto_fit : Q -> list npfloat -> option (npfloat * npfloat))
    (gamma_cdf gamma_pdf : npfloat -> npfloat -> npfloat -> npfloat)
    (df : list CompleteDaily.row) (threshs : list Q) :
  map PrcpDistParams.r_thresh
      (fst (PrcpDistParams.prcp_dist_params gamma_fit genpareto_fit
              gamma_cdf gamma_pdf df threshs)) = threshs.
Proof.
  destruct (le_lt_dec (length (wet_samples df)) 10) as [Hle | Hlt].
  - rewrite (prcp_dist_params_few _ _ _ _ df threshs Hle).
    apply map_thresh_nan_row.
  - destruct (gamma_fit (wet_samples df)) as [[gshape gscale] | ] eqn:Hfit.
    + rewrite (prcp_dist_params_fitted _ _ _ _ df threshs gshape gscale
                 Hlt Hfit). apply map_thresh_fit_row.
    + rewrite (prcp_dist_params_gamma_raises _ _ _ _ df threshs Hlt Hfit).
      apply map_thresh_nan_row.
Qed.

(** What [prcp_dist_params] fits, for any frame. *)
Lemma prcp_dist_params_fits
    (gamma_fit : list npfloat -> option (npfloat * npfloat))
    (genpareto_fit : Q -> list npfloat -> option (npfloat * npfloat))
    (gamma_cdf gamma_pdf : npfloat -> npfloat -> npfloat -> npfloat)
    (df : list CompleteDaily.row) (threshs : list Q) :
  let res := PrcpDistParams.prcp_dist_params gamma_fit genpareto_fit
               gamma_cdf gamma_pdf df threshs in
  map PrcpDistParams.r_thresh (fst res) = threshs /\
  ((length (wet_samples df) <= 10)%nat ->
   snd res = [] /\
   forall row, In row (fst res) ->
     PrcpDistParams.r_gshape row = NaN /\
     PrcpDistParams.r_gscale row = NaN /\
     PrcpDistParams.r_pshape row = NaN /\
     PrcpDistParams.r_pscale row = NaN /\
     PrcpDistParams.r_pscale_orig row = NaN) /\
  (forall row, In row (fst res) ->
     (length (PrcpDistParams.exceedances (wet_samples df)
                (PrcpDistParams.r_thresh row)) <= 10)%nat ->
     PrcpDistParams.r_pshape row = NaN /\
     PrcpDistParams.r_pscale row = NaN /\
     PrcpDistParams.r_pscale_orig row = NaN) /\
  (forall t arr, In (PrcpDistParams.GenparetoFit t arr) (snd res) ->
     In t threshs /\
     arr = PrcpDistParams.exceedances (wet_samples df) t /\
     (10 < length arr)%nat).
Proof.
  intros res. subst res.
  destruct (le_lt_dec (length (wet_samples df)) 10) as [Hle | Hlt].
  - rewrite (prcp_dist_params_few _ _ _ _ df threshs Hle). cbn [fst snd].
    split; [ apply map_thresh_nan_row | ].
    split; [ | split ].
    + intros _. split; [ reflexivity | ].
      intros row Hrow. apply in_map_iff in Hrow as (t & <- & _). now simpl.
    + intros row Hrow _. apply in_map_iff in Hrow as (t & <- & _). now simpl.
    + intros t arr [].
  - destruct (gamma_fit (wet_samples df)) as [[gshape gscale] | ] eqn:Hfit.
    + rewrite (prcp_dist_params_fitted _ _ _ _ df threshs gshape gscale
                 Hlt Hfit). cbn [fst snd].
      split; [ apply map_thresh_fit_row | ].
      split; [ intros Hle; lia | split ].
      * intros row Hrow Hex. apply in_map_iff in Hrow as (t & <- & _).
        simpl in Hex. unfold fit_row. simpl.
        unfold cell_pshape, cell_pscale, cell_pscale_orig.
        now rewrite (gp_fit_few genpareto_fit _ t Hex).
      * intros t arr [H | H]; [ discriminate H | ].
        apply in_flat_map in H as (t' & Ht' & H).
        apply in_gp_events in H as (-> & -> & H). auto.
    + rewrite (prcp_dist_params_gamma_raises _ _ _ _ df threshs Hlt Hfit).
      cbn [fst snd].
      split; [ apply map_thresh_nan_row | ].
      split; [ intros Hle; lia | split ].
      * intros row Hrow _. apply in_map_iff in Hrow as (t & <- & _).
        now simpl.
      * intros t arr [H | H]; [ discriminate H | ].
        unfold error_events in H. simpl in H.
        destruct H as [H | [H | [H | []]]]; discriminate H.
Qed.

Lemma mapM_fst {A B : Type} (f : A -> PrcpDistParams.M B) (l : list A) :
  fst (PrcpDistParams.mapM f l) = map (fun a => fst (f a)) l.
Proof.
  induction l as [ | a l IH]; [ reflexivity | ].
  cbn [PrcpDistParams.mapM map]. rewrite !bind_fst. simpl. now rewrite IH.
Qed.

Lemma mapM_snd {A B : Type} (f : A -> PrcpDistParams.M B) (l : list A) :
  snd (PrcpDistParams.mapM f l) = flat_map (fun a => snd (f a)) l.
Proof.
  induction l as [ | a l IH]; [ reflexivity | ].
  cbn [PrcpDistParams.mapM flat_map]. rewrite !bind_snd. simpl.
  now rewrite app_nil_r, IH.
Qed.

Lemma unique_constant {A : Type} `{EqDecision A} (c : A) (l : list A) :
  l <> [] -> (forall x, In x l -> x = c) -> PrcpDistParams.unique l = [c].
Proof.
  unfold PrcpDistParams.unique. destruct l as [ | x l]; [ congruence | ].
  intros _ H. simpl. destruct (decide (x ∈ [])) as [Hin | _];
    [ now apply not_elem_of_nil in Hin | ].
  simpl. rewrite (H x) by now left.
  assert (Hl : forall y, In y l -> y = c) by (intros y Hy; apply H; now right).
  clear H. induction l as [ | y l IH]; [ reflexivity | ].
  simpl. rewrite (Hl y) by now left.
  destruct (decide (c ∈ [c])) as [_ | Hn]; [ | exfalso; apply Hn; now left ].
  apply IH. intros z Hz. apply Hl. now right.
Qed.

(** The identification of a group of [groupby(level=['id', 'month'])]
    names the station and the month of the group. *)
Lemma index_ident_group (cday : list CompleteDaily.row) (k : string * Z) :
  In k (map CompleteDaily.id_month cday) ->
  let who := PrcpDistParams.index_ident
               (get_group CompleteDaily.id_month cday k) in
  PrcpDistParams.ids who = [fst k] /\ PrcpDistParams.months who = [snd k].
Proof.
  intros Hk who. subst who. unfold PrcpDistParams.index_ident. simpl.
  apply in_map_iff in Hk as (r & Hr & Hin).
  assert (Hne : get_group CompleteDaily.id_month cday k <> []).
  { intros E. assert (Hg : In r (get_group CompleteDaily.id_month cday k))
      by (apply in_get_group; auto).
    rewrite E in Hg. destruct Hg. }
  split; apply unique_constant;
    try (intros E; apply map_eq_nil in E; contradiction).
  - intros x Hx. apply in_map_iff in Hx as (r' & <- & Hr').
    apply in_get_group in Hr' as [_ <-]. reflexivity.
  - intros x Hx. apply in_map_iff in Hx as (r' & <- & Hr').
    apply in_get_group in Hr' as [_ <-]. reflexivity.
Qed.

Section setup_facts.
Variable gamma_fit : list npfloat -> option (npfloat * npfloat).
Variable genpareto_fit : Q -> list npfloat -> option (npfloat * npfloat).
Variable gamma_cdf : npfloat -> npfloat -> npfloat -> npfloat.
Variable gamma_pdf : npfloat -> npfloat -> npfloat -> npfloat.

Local Abbreviation prcp_dist_params :=
  (PrcpDistParams.prcp_dist_params gamma_fit genpareto_fit gamma_cdf
                                   gamma_pdf).
Local Abbreviation setup_from_scratch :=
  (PrcpDistParams.setup_from_scratch gamma_fit genpareto_fit gamma_cdf
                                     gamma_pdf).

Lemma in_prcp_frame (cday : list CompleteDaily.row) (t2c : list Q) (thresh : Q)
    (k : string * Z) (row : PrcpDistParams.params) :
  In (k, row) (fst (setup_from_scratch cday t2c thresh)) <->
  In k (map CompleteDaily.id_month cday) /\
  In row (fst (prcp_dist_params (get_group CompleteDaily.id_month cday k)
                 (PrcpDistParams.all_threshs t2c thresh))).
Proof.
  unfold PrcpDistParams.setup_from_scratch. rewrite bind_fst. simpl.
  rewrite mapM_fst, <- flat_map_concat_map, in_flat_map. split.
  - intros ([k' g] & Hg & Hrow). rewrite bind_fst in Hrow. simpl in Hrow.
    apply in_map_iff in Hrow as (row' & Heq & Hrow). inversion Heq; subst.
    apply in_groupby in Hg as [Hk ->]. auto.
  - intros [Hk Hrow].
    exists (k, get_group CompleteDaily.id_month cday k). split.
    + apply in_groupby. auto.
    + rewrite bind_fst. simpl. apply in_map_iff. eauto.
Qed.

Lemma prcp_trace_of_group (cday : list CompleteDaily.row) (t2c : list Q)
    (thresh : Q) (k : string * Z) :
  In k (map CompleteDaily.id_month cday) ->
  exists pre post,
    snd (setup_from_scratch cday t2c thresh) =
    pre ++ snd (prcp_dist_params (get_group CompleteDaily.id_month cday k)
                  (PrcpDistParams.all_threshs t2c thresh)) ++ post.
Proof.
  intros Hk. unfold PrcpDistParams.setup_from_scratch.
  rewrite bind_snd. simpl. rewrite app_nil_r, mapM_snd.
  assert (Hg : In (k, get_group CompleteDaily.id_month cday k)
                  (groupby CompleteDaily.id_month sz_le cday))
    by (apply in_groupby; auto).
  apply in_split in Hg as (l1 & l2 & ->).
  rewrite flat_map_app. cbn [flat_map].
  rewrite bind_snd. simpl. rewrite app_nil_r. eauto.
Qed.
End setup_facts.

(** C5: the rows of a station-month group in the frame of the task are
    the rows that [prcp_dist_params] makes from the complete days of
    the group, one per threshold.  With 10 or fewer wet-day samples in
    the group no fit is tried and gshape, gscale, pshape, pscale and
    pscale_orig are NaN in every row.  For each threshold the
    Generalized Pareto fit is called only with more than 10
    exceedances at or above the threshold, and the Pareto cells of a
    threshold with 10 or fewer exceedances are NaN. *)
Theorem prcp_few_samples_nan
    (gamma_fit : list npfloat -> option (npfloat * npfloat))
    (genpareto_fit : Q -> list npfloat -> option (npfloat * npfloat))
    (gamma_cdf gamma_pdf : npfloat -> npfloat -> npfloat -> npfloat)
    (cday : list CompleteDaily.row) (threshs2compute : list Q) (thresh : Q)
    (k : string * Z) :
  let threshs := PrcpDistParams.all_threshs threshs2compute thresh in
  let df := get_group CompleteDaily.id_month cday k in
  let res := PrcpDistParams.prcp_dist_params gamma_fit genpareto_fit
               gamma_cdf gamma_pdf df threshs in
  (forall row,
     In (k, row)
        (fst (PrcpDistParams.setup_from_scratch gamma_fit genpareto_fit
                gamma_cdf gamma_pdf cday threshs2compute thresh)) <->
     In k (map CompleteDaily.id_month cday) /\ In row (fst res)) /\
  map PrcpDistParams.r_thresh (fst res) = threshs /\
  ((length (wet_samples df) <= 10)%nat ->
   snd res = [] /\
   forall row, In row (fst res) ->
     PrcpDistParams.r_gshape row = NaN /\
     PrcpDistParams.r_gscale row = NaN /\
     PrcpDistParams.r_pshape row = NaN /\
     PrcpDistParams.r_pscale row = NaN /\
     PrcpDistParams.r_pscale_orig row = NaN) /\
  (forall row, In row (fst res) ->
     (length (PrcpDistParams.exceedances (wet_samples df)
                (PrcpDistParams.r_thresh row)) <= 10)%nat ->
     PrcpDistParams.r_pshape row = NaN /\
     PrcpDistParams.r_pscale row = NaN /\
     PrcpDistParams.r_pscale_orig row = NaN) /\
  (forall t arr, In (PrcpDistParams.GenparetoFit t arr) (snd res) ->
     In t threshs /\
     arr = PrcpDistParams.exceedances (wet_samples df) t /\
     (10 < length arr)%nat).
Proof.
  intros threshs df res. split.
  - intros row. apply in_prcp_frame.
  - apply prcp_dist_params_fits.
Qed.

Lemma flat_map_split_at {A B : Type} (f : A -> list B) (l : list A) (a : A) :
  In a l -> exists pre post, flat_map f l = pre ++ f a ++ post.
Proof.
  intros H. apply in_split in H as (l1 & l2 & ->).
  rewrite flat_map_app. cbn [flat_map]. eauto.
Qed.

(** C6: whatever the fitting routines do, [setup_from_scratch] returns
    a frame with a row for every station-month group and every
    threshold.  When the Gamma fit of a group raises, the error is
    recorded with the station and the month of the group, the frame of
    the group goes to a temporary csv file and all five parameters of
    the group are NaN.  When the Pareto fit of one threshold raises, the
    same is recorded, the Pareto cells of that threshold are NaN, and
    every threshold of the group still gets the row of its own turn of
    the loop. *)
Theorem prcp_fit_failure_tolerated
    (gamma_fit : list npfloat -> option (npfloat * npfloat))
    (genpareto_fit : Q -> list npfloat -> option (npfloat * npfloat))
    (gamma_cdf gamma_pdf : npfloat -> npfloat -> npfloat -> npfloat)
    (cday : list CompleteDaily.row) (threshs2compute : list Q) (thresh : Q) :
  let threshs := PrcpDistParams.all_threshs threshs2compute thresh in
  let res := PrcpDistParams.setup_from_scratch gamma_fit genpareto_fit
               gamma_cdf gamma_pdf cday threshs2compute thresh in
  forall k, In k (map CompleteDaily.id_month cday) ->
  let df := get_group CompleteDaily.id_month cday k in
  let vals := wet_samples df in
  let who := PrcpDistParams.index_ident df in
  (forall t, In t threshs ->
     exists row, In (k, row) (fst res) /\ PrcpDistParams.r_thresh row = t) /\
  PrcpDistParams.ids who = [fst k] /\
  PrcpDistParams.months who = [snd k] /\
  ((10 < length vals)%nat -> gamma_fit vals = None ->
   (exists pre post,
      snd res = pre ++ [ PrcpDistParams.GammaFit vals;
                         PrcpDistParams.LogError who;
                         PrcpDistParams.ToCsv df;
                         PrcpDistParams.LogStored ] ++ post) /\
   (forall row, In (k, row) (fst res) ->
      PrcpDistParams.r_gshape row = NaN /\
      PrcpDistParams.r_gscale row = NaN /\
      PrcpDistParams.r_pshape row = NaN /\
      PrcpDistParams.r_pscale row = NaN /\
      PrcpDistParams.r_pscale_orig row = NaN)) /\
  (forall gshape gscale t,
     (10 < length vals)%nat -> gamma_fit vals = Some (gshape, gscale) ->
     In t threshs ->
     (10 < length (PrcpDistParams.exceedances vals t))%nat ->
     genpareto_fit t (PrcpDistParams.exceedances vals t) = None ->
     (exists pre post,
        snd res = pre ++ [ PrcpDistParams.GenparetoFit t
                             (PrcpDistParams.exceedances vals t);
                           PrcpDistParams.LogError who;
                           PrcpDistParams.ToCsv df;
                           PrcpDistParams.LogStored ] ++ post) /\
     (forall row, In (k, row) (fst res) ->
        PrcpDistParams.r_thresh row = t ->
        PrcpDistParams.r_pshape row = NaN /\
        PrcpDistParams.r_pscale row = NaN /\
        PrcpDistParams.r_pscale_orig row = NaN) /\
     (forall t', In t' threshs ->
        In (k, fit_row genpareto_fit gamma_cdf gamma_pdf df threshs
                       gshape gscale t') (fst res))).
Proof.
  intros threshs res k Hk df vals who.
  pose proof (prcp_dist_params_threshs gamma_fit genpareto_fit gamma_cdf
                gamma_pdf df threshs) as Hthreshs.
  pose proof (index_ident_group cday k Hk) as [Hids Hmonths].
  destruct (prcp_trace_of_group gamma_fit genpareto_fit gamma_cdf gamma_pdf
              cday threshs2compute thresh k Hk) as (pre & post & Htrace).
  fold threshs in Htrace. fold df in Htrace. fold res in Htrace.
  assert (Hin : forall row, In (k, row) (fst res) <->
            In row (fst (PrcpDistParams.prcp_dist_params gamma_fit
                           genpareto_fit gamma_cdf gamma_pdf df threshs))).
  { intros row. unfold res. rewrite in_prcp_frame. tauto. }
  split; [ | split; [ exact Hids | split; [ exact Hmonths | split ] ] ].
  - intros t Ht. rewrite <- Hthreshs in Ht.
    apply in_map_iff in Ht as (row & Hrow & Hin'). exists row.
    split; [ now apply Hin | exact Hrow ].
  - intros Hlt Hfit.
    rewrite (prcp_dist_params_gamma_raises _ _ _ _ df threshs Hlt Hfit)
      in Htrace, Hin.
    cbn [fst snd] in Htrace, Hin. split.
    + exists pre, post. exact Htrace.
    + intros row Hrow. apply Hin in Hrow.
      apply in_map_iff in Hrow as (t & <- & _). now simpl.
  - intros gshape gscale t Hlt Hfit Ht Hex Hgp.
    rewrite (prcp_dist_params_fitted _ _ _ _ df threshs gshape gscale
               Hlt Hfit) in Htrace, Hin.
    cbn [fst snd] in Htrace, Hin. split; [ | split ].
    + destruct (flat_map_split_at (gp_events genpareto_fit df vals)
                  threshs t Ht) as (p1 & p2 & Hsplit).
      fold vals in Htrace. rewrite Hsplit in Htrace.
      assert (Hev : gp_events genpareto_fit df vals t =
                [ PrcpDistParams.GenparetoFit t
                    (PrcpDistParams.exceedances vals t);
                  PrcpDistParams.LogError who; PrcpDistParams.ToCsv df;
                  PrcpDistParams.LogStored ]).
      { unfold gp_events. apply Nat.ltb_lt in Hex. now rewrite Hex, Hgp. }
      rewrite Hev in Htrace.
      exists (pre ++ PrcpDistParams.GammaFit vals :: p1), (p2 ++ post).
      rewrite Htrace. simpl. rewrite <- ?app_assoc. simpl.
      rewrite <- ?app_assoc. reflexivity.
    + intros row Hrow Hrt. apply Hin in Hrow.
      apply in_map_iff in Hrow as (t' & <- & _). simpl in Hrt. subst t'.
      unfold fit_row. simpl.
      unfold cell_pshape, cell_pscale, cell_pscale_orig, gp_fit.
      fold df. fold vals. apply Nat.ltb_lt in Hex. now rewrite Hex, Hgp.
    + intros t' Ht'. apply Hin. now apply in_map.
Qed.

Lemma prcp_few_samples_nan_witness :
  (length (wet_samples
             (get_group CompleteDaily.id_month cday_sample ("ST2"%string, 1%Z)))
   <= 10)%nat /\
  snd (PrcpDistParams.prcp_dist_params gamma_fit_sample genpareto_fit_sample
         gamma_cdf_sample gamma_pdf_sample
         (get_group CompleteDaily.id_month cday_sample ("ST2"%string, 1%Z))
         (PrcpDistParams.all_threshs [1; 5 # 2]%Q 3%Q)) = [].
Proof.
  assert (H : (length (wet_samples
                 (get_group CompleteDaily.id_month cday_sample
                            ("ST2"%string, 1%Z))) <= 10)%nat)
    by (vm_compute; lia).
  split; [ exact H | ].
  exact (proj1 (proj1 (proj2 (proj2 (prcp_few_samples_nan gamma_fit_sample
    genpareto_fit_sample gamma_cdf_sample gamma_pdf_sample cday_sample
    [1; 5 # 2]%Q 3%Q ("ST2"%string, 1%Z)))) H)).
Defined.

Lemma prcp_fit_failure_tolerated_witness :
  In ("ST1"%string, 1) (map CompleteDaily.id_month cday_sample) /\
  exists row,
    In ("ST1"%string, 1, row)
       (fst (PrcpDistParams.setup_from_scratch gamma_fit_sample
               genpareto_fit_sample gamma_cdf_sample gamma_pdf_sample
               cday_sample [1; 5 # 2; 3]%Q (5 # 2)%Q)) /\
    PrcpDistParams.r_thresh row = 1%Q.
Proof.
  assert (Hk : In ("ST1"%string, 1)
                  (map CompleteDaily.id_month cday_sample))
    by (vm_compute; left; reflexivity).
  split; [ exact Hk | ].
  apply (proj1 (prcp_fit_failure_tolerated gamma_fit_sample
    genpareto_fit_sample gamma_cdf_sample gamma_pdf_sample cday_sample
    [1; 5 # 2; 3]%Q (5 # 2)%Q ("ST1"%string, 1) Hk)).
  vm_compute. left. reflexivity.
Defined.

(** ** Collecting the run results *)

Lemma update_nml_lookup
    (exp_nml task_nml : gmap string (gmap string ModelOrganizer.nml_value))
    (section : string) :
  ModelOrganizer.update_nml exp_nml task_nml !! section =
  match task_nml !! section with
  | Some val => Some (val ∪ default ∅ (exp_nml !! section))
  | None => exp_nml !! section
  end.
Proof.
  unfold ModelOrganizer.update_nml.
  destruct (decide (task_nml = ∅)) as [-> | _];
    [ now rewrite lookup_empty | ].
  revert section.
  apply (map_fold_weak_ind
           (fun r m => forall section,
              r !! section =
              match m !! section with
              | Some val => Some (val ∪ default ∅ (exp_nml !! section))
              | None => exp_nml !! section
              end)).
  - intros section. now rewrite lookup_empty.
  - intros i x m r Hi IH section. unfold ModelOrganizer.update_section.
    destruct (decide (i = section)) as [<- | Hne].
    + rewrite !lookup_insert_eq. rewrite (IH i), Hi. reflexivity.
    + rewrite !lookup_insert_ne by exact Hne. apply IH.
Qed.

Lemma update_nml_key
    (exp_nml task_nml : gmap string (gmap string ModelOrganizer.nml_value))
    (section key : string) :
  ModelOrganizer.nml_lookup (ModelOrganizer.update_nml exp_nml task_nml)
                            section key =
  match ModelOrganizer.nml_lookup task_nml section key with
  | Some v => Some v
  | None => ModelOrganizer.nml_lookup exp_nml section key
  end.
Proof.
  unfold ModelOrganizer.nml_lookup. rewrite update_nml_lookup.
  destruct (task_nml !! section) as [val | ]; simpl; [ | reflexivity ].
  rewrite lookup_union. destruct (val !! key) as [v | ]; simpl.
  - now rewrite union_Some_l.
  - rewrite (left_id None _). now destruct (exp_nml !! section).
Qed.

Lemma collect_snoc
    (exp_nml param_info : gmap string (gmap string ModelOrganizer.nml_value))
    (tasks : list ModelOrganizer.task) (t : ModelOrganizer.task) :
  ModelOrganizer.collect exp_nml param_info (tasks ++ [t]) =
  ModelOrganizer.collect_task
    (ModelOrganizer.collect exp_nml param_info tasks) t.
Proof. unfold ModelOrganizer.collect. now rewrite fold_left_app. Qed.

(** C7: the run results are merged section by section.  A task
    without a run step leaves the namelist as it is.  After a task with
    a run step, a key that the task emits in a section holds the task's
    value (the task updates or adds the entry), and every other key of
    every section, set by an earlier task or held by the namelist
    before, holds what it held: the merge is [update] on the section,
    which never replaces the section. *)
Theorem nml_merge_later_task_wins
    (exp_nml param_info : gmap string (gmap string ModelOrganizer.nml_value))
    (tasks : list ModelOrganizer.task) (t : ModelOrganizer.task)
    (section key : string) :
  let before := fst (ModelOrganizer.collect exp_nml param_info tasks) in
  let after :=
    fst (ModelOrganizer.collect exp_nml param_info (tasks ++ [t])) in
  (ModelOrganizer.has_run t = false -> after = before) /\
  (ModelOrganizer.has_run t = true ->
   ModelOrganizer.nml_lookup after section key =
   match ModelOrganizer.nml_lookup (ModelOrganizer.task_nml t) section key with
   | Some v => Some v
   | None => ModelOrganizer.nml_lookup before section key
   end).
Proof.
  intros before after. subst before after. rewrite collect_snoc.
  unfold ModelOrganizer.collect_task. split; intros ->.
  - reflexivity.
  - simpl. apply update_nml_key.
Qed.

Lemma nml_merge_later_task_wins_witness :
  ModelOrganizer.has_run task_sample_2 = true /\
  ModelOrganizer.nml_lookup
    (fst (ModelOrganizer.collect ∅ ∅ ([task_sample_1] ++ [task_sample_2])))
    "weathergen_ctl" "g_scale_coeff"
  = ModelOrganizer.nml_lookup
      (fst (ModelOrganizer.collect ∅ ∅ [task_sample_1]))
      "weathergen_ctl" "g_scale_coeff".
Proof.
  split; [ reflexivity | ].
  exact (proj2 (nml_merge_later_task_wins ∅ ∅ [task_sample_1] task_sample_2
                  "weathergen_ctl" "g_scale_coeff") eq_refl).
Defined.

(** ** Cross correlation *)

Lemma mat_eqb_eq (x y : CrossCorrelation.matrix) :
  CrossCorrelation.mat_eqb x y = true -> CrossCorrelation.mat_eq x y.
Proof.
  unfold CrossCorrelation.mat_eqb, CrossCorrelation.cols. simpl.
  rewrite !andb_true_iff, !Qeq_bool_iff. intros H i j.
  destruct i, j; tauto.
Qed.

(** The stand-in factor is a factor. *)
Lemma cholesky3_factor (s l : CrossCorrelation.matrix) :
  CrossCorrelation.cholesky3 s = Some l ->
  CrossCorrelation.mat_eq
    (CrossCorrelation.dot l (CrossCorrelation.transpose l)) s.
Proof.
  unfold CrossCorrelation.cholesky3.
  match goal with
  | |- (if CrossCorrelation.mat_eqb ?p s then _ else _) = _ -> _ =>
      destruct (CrossCorrelation.mat_eqb p s) eqn:E; [ | discriminate ]
  end.
  intros [= <-]. now apply mat_eqb_eq.
Qed.

Lemma inv3_inverse (m mi : CrossCorrelation.matrix) :
  CrossCorrelation.inv3 m = Some mi ->
  CrossCorrelation.mat_eq (CrossCorrelation.dot mi m) CrossCorrelation.identity.
Proof.
  unfold CrossCorrelation.inv3.
  match goal with
  | |- (if Qeq_bool ?d 0 then _ else _) = _ -> _ =>
      destruct (Qeq_bool d 0) eqn:E; [ discriminate | ];
      assert (Hd : ~ (d == 0)%Q) by (intros H; apply Qeq_bool_iff in H; congruence)
  end.
  intros [= <-]. intros i j.
  destruct i, j; unfold CrossCorrelation.dot, CrossCorrelation.identity,
    CrossCorrelation.of_rows; cbv beta iota; field; exact Hd.
Qed.

Lemma dot_inverse_cancel (m1 m0 m0i : CrossCorrelation.matrix) :
  CrossCorrelation.mat_eq (CrossCorrelation.dot m0i m0) CrossCorrelation.identity ->
  CrossCorrelation.mat_eq
    (CrossCorrelation.dot (CrossCorrelation.dot m1 m0i) m0) m1.
Proof.
  intros H i j.
  pose proof (H CrossCorrelation.tmin j) as H1.
  pose proof (H CrossCorrelation.tmax j) as H2.
  pose proof (H CrossCorrelation.mean_cloud j) as H3.
  unfold CrossCorrelation.dot in *.
  transitivity
    (m1 i CrossCorrelation.tmin * CrossCorrelation.identity CrossCorrelation.tmin j
     + m1 i CrossCorrelation.tmax * CrossCorrelation.identity CrossCorrelation.tmax j
     + m1 i CrossCorrelation.mean_cloud
       * CrossCorrelation.identity CrossCorrelation.mean_cloud j)%Q.
  - rewrite <- H1, <- H2, <- H3. ring.
  - destruct j; unfold CrossCorrelation.identity, CrossCorrelation.of_rows;
      cbv beta iota; ring.
Qed.

(** C1, as stated, fails: at the sample frame the emitted [b], times
    its transpose, differs from [M0 - a . M1^T] (481/625 against 16/25
    in the first cell). *)
Lemma corr_b_bT_differs :
  exists r,
    CrossCorrelation.run CrossCorrelation.inv3 CrossCorrelation.cholesky3
                         corr_sample = Some r /\
    ~ CrossCorrelation.mat_eq
        (CrossCorrelation.dot (CrossCorrelation.b r)
           (CrossCorrelation.transpose (CrossCorrelation.b r)))
        (CrossCorrelation.sub (CrossCorrelation.M0 r)
           (CrossCorrelation.dot (CrossCorrelation.a r)
              (CrossCorrelation.transpose (CrossCorrelation.M1 r)))).
Proof.
  destruct (CrossCorrelation.run CrossCorrelation.inv3
              CrossCorrelation.cholesky3 corr_sample) as [r | ] eqn:E;
    [ | vm_compute in E; discriminate E ].
  exists r. split; [ reflexivity | ]. intros H.
  specialize (H CrossCorrelation.tmin CrossCorrelation.tmin).
  unfold CrossCorrelation.run in E. vm_compute in E.
  injection E as <-. vm_compute in H. discriminate H.
Qed.

(** C1, amended: when [run] returns, the emitted [a] is [M1 . M0i] for
    the matrix [M0i] that [linalg.inv] gave for [M0], so [a . M0 = M1],
    and the emitted [b] is the transpose of the lower factor [L] that
    [linalg.cholesky] gave for [M0 - a . M1^T]: with [L . L^T] equal to
    that argument, as numpy documents, [b^T . b = M0 - a . M1^T]. *)
Theorem corr_b_transposed_factor
    (inv cholesky : CrossCorrelation.matrix -> option CrossCorrelation.matrix)
    (data : CrossCorrelation.frame) (r : CrossCorrelation.result) :
  (forall m mi, inv m = Some mi ->
     CrossCorrelation.mat_eq (CrossCorrelation.dot mi m)
                             CrossCorrelation.identity) ->
  (forall s l, cholesky s = Some l ->
     CrossCorrelation.mat_eq
       (CrossCorrelation.dot l (CrossCorrelation.transpose l)) s) ->
  CrossCorrelation.run inv cholesky data = Some r ->
  exists m0i l,
    inv (CrossCorrelation.lag0 data) = Some m0i /\
    CrossCorrelation.a r = CrossCorrelation.dot (CrossCorrelation.lag1 data) m0i /\
    CrossCorrelation.mat_eq
      (CrossCorrelation.dot (CrossCorrelation.a r) (CrossCorrelation.lag0 data))
      (CrossCorrelation.lag1 data) /\
    cholesky (CrossCorrelation.sub (CrossCorrelation.lag0 data)
                (CrossCorrelation.dot (CrossCorrelation.a r)
                   (CrossCorrelation.transpose (CrossCorrelation.lag1 data))))
      = Some l /\
    CrossCorrelation.b r = CrossCorrelation.transpose l /\
    CrossCorrelation.mat_eq
      (CrossCorrelation.dot (CrossCorrelation.transpose (CrossCorrelation.b r))
                            (CrossCorrelation.b r))
      (CrossCorrelation.sub (CrossCorrelation.lag0 data)
         (CrossCorrelation.dot (CrossCorrelation.a r)
            (CrossCorrelation.transpose (CrossCorrelation.lag1 data)))).
Proof.
  intros Hinverse Hchol Hrun. unfold CrossCorrelation.run in Hrun.
  destruct (inv (CrossCorrelation.lag0 data)) as [m0i | ] eqn:Hinv;
    [ | discriminate ].
  destruct (cholesky (CrossCorrelation.innovation (CrossCorrelation.lag0 data)
                        (CrossCorrelation.lag1 data) m0i)) as [l | ] eqn:Hl;
    [ | discriminate ].
  injection Hrun as <-. exists m0i, l. cbn [CrossCorrelation.a CrossCorrelation.b].
  split; [ reflexivity | split; [ reflexivity | split ] ].
  { apply dot_inverse_cancel. now apply Hinverse. }
  split; [ exact Hl | split; [ reflexivity | ] ].
  intros i j. apply (Hchol _ _ Hl i j).
Qed.

Lemma corr_b_transposed_factor_witness :
  exists r,
    CrossCorrelation.run CrossCorrelation.inv3 CrossCorrelation.cholesky3
                         corr_sample = Some r /\
    CrossCorrelation.mat_eq
      (CrossCorrelation.dot (CrossCorrelation.transpose (CrossCorrelation.b r))
                            (CrossCorrelation.b r))
      (CrossCorrelation.sub (CrossCorrelation.lag0 corr_sample)
         (CrossCorrelation.dot (CrossCorrelation.a r)
            (CrossCorrelation.transpose (CrossCorrelation.lag1 corr_sample)))).
Proof.
  destruct (CrossCorrelation.run CrossCorrelation.inv3
              CrossCorrelation.cholesky3 corr_sample) as [r | ] eqn:E;
    [ | vm_compute in E; discriminate E ].
  exists r. split; [ reflexivity | ].
  destruct (corr_b_transposed_factor CrossCorrelation.inv3
              CrossCorrelation.cholesky3 corr_sample r inv3_inverse
              cholesky3_factor E)
    as (m0i & l & _ & _ & _ & _ & _ & H).
  exact H.
Defined.

(** ** The order of execution *)

(** C3, as stated, fails: the tasks [day], [month], [cday] and
    [yearly_cmonthly_cloud] are no prerequisites of [corr] and are not
    in the order resolved for it. *)
Lemma corr_order_without_ghcn :
  exists order,
    Registry.resolve Registry.registry ["corr"%string] = inr order /\
    ~ In "day"%string order /\ ~ In "month"%string order /\
    ~ In "cday"%string order /\ ~ In "yearly_cmonthly_cloud"%string order.
Proof.
  eexists. split; [ vm_compute; reflexivity | ].
  repeat split; intros H; simpl in H;
    repeat (destruct H as [H | H]; [ discriminate H | ]); exact H.
Qed.

(** C3, amended: requesting [corr] resolves to its prerequisite closure
    [hourly_cloud], [daily_cloud], [monthly_cloud], [cmonthly_cloud],
    [cdaily_cloud], [yearly_cdaily_cloud], followed by [corr] itself:
    exactly these tasks, each once, every task after all the tasks of
    its [setup_requires]. *)
Theorem corr_resolves_to_cloud_chain :
  exists order,
    Registry.resolve Registry.registry ["corr"%string] = inr order /\
    (forall n, In n order <->
       In n [ "hourly_cloud"; "daily_cloud"; "monthly_cloud";
              "cmonthly_cloud"; "cdaily_cloud"; "yearly_cdaily_cloud";
              "corr" ]%string) /\
    List.NoDup order /\
    last order = Some "corr"%string /\
    (forall t p, In t order ->
       In p (Registry.requires Registry.registry t) ->
       Registry.before order p t).
Proof.
  eexists. split; [ vm_compute; reflexivity | ].
  split; [ intros n; simpl; tauto | ].
  split; [ apply NoDup_ListNoDup; apply (bool_decide_unpack _);
           vm_compute; exact I | ].
  split; [ reflexivity | ].
  intros t p Ht Hp. simpl in Ht.
  repeat (destruct Ht as [<- | Ht];
    [ vm_compute in Hp;
      repeat (destruct Hp as [<- | Hp];
        [ eexists _, _; split; [ vm_compute; reflexivity | ];
          split; [ vm_compute; reflexivity | lia ] | ]);
      destruct Hp | ]).
  destruct Ht.
Qed.

(** ** Serial and parallel execution *)

(** In the registry only [corr] is not set up in parallel, and no task
    requires it. *)
Lemma registry_parallel_closed :
  Registry.parallel_closed Registry.registry = true.
Proof. reflexivity. Qed.

Section coordinator_facts.
Context {St R : Type} `{EqDecision St}.
Variable station_of : R -> St.

Local Abbreviation rows_of := (get_group station_of).

Lemma np_split_concat (fuel m : nat) (l : list St) :
  concat (Coordinator.np_split m l fuel) = l.
Proof.
  revert l. induction fuel as [ | fuel IH]; intros l; simpl.
  - apply app_nil_r.
  - destruct (length l <=? m)%nat; simpl.
    + apply app_nil_r.
    + rewrite IH. apply take_drop.
Qed.

Lemma param_chunks_concat (serial : bool) (nprocs conf : nat)
    (stations : list St) (chunks : list (list St)) :
  Coordinator.param_chunks serial nprocs conf stations = Some chunks ->
  concat chunks = stations.
Proof.
  unfold Coordinator.param_chunks.
  destruct serial; [ intros [= <-]; apply app_nil_r | ].
  destruct (nprocs =? 0)%nat; [ discriminate | ].
  destruct (_ <? _)%nat.
  - destruct (_ =? 0)%nat; [ discriminate | ].
    intros [= <-]. apply np_split_concat.
  - intros [= <-]. apply app_nil_r.
Qed.

Lemma lookup_data_cons (n : string) (d : list R)
    (env : list (string * list R)) (p : string) :
  Coordinator.lookup_data ((n, d) :: env) p =
  if String.eqb n p then d else Coordinator.lookup_data env p.
Proof.
  unfold Coordinator.lookup_data. simpl. now destruct (String.eqb n p).
Qed.

Section chain.
Variable full : list (Coordinator.task (St:=St) (R:=R)).
Hypothesis Hfull : Coordinator.parallel_chain station_of full.

(** The rows of a station of a chunk are the same in the frames of the
    chunk and in the frames of the serial run. *)
Lemma process_chain_local (chain : list (Coordinator.task (St:=St) (R:=R)))
    (c stations : list St) :
  List.NoDup c -> List.NoDup stations -> incl c stations ->
  forall env_c env_s : list (string * list R),
  incl chain full ->
  (forall p s, Coordinator.safe_name full p -> In s c ->
     rows_of (Coordinator.lookup_data env_c p) s
     = rows_of (Coordinator.lookup_data env_s p) s) ->
  forall i t s, chain !! i = Some t -> Coordinator.t_parallel t = true ->
  In s c ->
  rows_of (Coordinator.instance_data
             (Coordinator.process_chain chain c env_c) i) s
  = rows_of (Coordinator.instance_data
               (Coordinator.process_chain chain stations env_s) i) s.
Proof.
  intros Hc Hs Hincl.
  induction chain as [ | t0 chain IH]; intros env_c env_s Hchain Henv i t s Hi Ht Hin;
    [ discriminate | ].
  assert (Hhead : Coordinator.t_parallel t0 = true -> forall s', In s' c ->
            rows_of (Coordinator.t_setup t0 c (Coordinator.lookup_data env_c)) s'
            = rows_of (Coordinator.t_setup t0 stations
                         (Coordinator.lookup_data env_s)) s').
  { intros Ht0 s' Hs'.
    destruct (Hfull t0 (Hchain t0 (or_introl eq_refl)) Ht0) as [Hloc Hreq].
    apply (Coordinator.local station_of t0 Hloc); auto. }
  destruct i as [ | i]; simpl in Hi.
  - injection Hi as <-. apply Hhead; assumption.
  - apply (IH _ _ (fun x Hx => Hchain x (or_intror Hx))) with (t := t);
      try assumption.
    intros p s' Hp Hs'. rewrite !lookup_data_cons.
    destruct (String.eqb (Coordinator.t_name t0) p) eqn:E.
    + apply String.eqb_eq in E. apply Hhead; [ | exact Hs' ].
      apply (Hp t0 (Hchain t0 (or_introl eq_refl)) E).
    + apply Henv; assumption.
Qed.

(** The frames of the parallel tasks have rows of the stations of the
    run only. *)
Lemma process_chain_rows (chain : list (Coordinator.task (St:=St) (R:=R)))
    (ss : list St) :
  forall env : list (string * list R),
  incl chain full ->
  (forall p r, Coordinator.safe_name full p ->
     In r (Coordinator.lookup_data env p) -> In (station_of r) ss) ->
  forall i t r, chain !! i = Some t -> Coordinator.t_parallel t = true ->
  In r (Coordinator.instance_data (Coordinator.process_chain chain ss env) i) ->
  In (station_of r) ss.
Proof.
  induction chain as [ | t0 chain IH]; intros env Hchain Henv i t r Hi Ht Hr;
    [ discriminate | ].
  assert (Hhead : Coordinator.t_parallel t0 = true -> forall r',
            In r' (Coordinator.t_setup t0 ss (Coordinator.lookup_data env)) ->
            In (station_of r') ss).
  { intros Ht0.
    destruct (Hfull t0 (Hchain t0 (or_introl eq_refl)) Ht0) as [Hloc Hreq].
    apply (Coordinator.rows_of_stations station_of t0 Hloc).
    intros p r' Hp Hr'. apply (Henv p r'); auto. }
  destruct i as [ | i]; simpl in Hi.
  - injection Hi as <-. now apply Hhead.
  - apply (IH ((Coordinator.t_name t0,
                Coordinator.t_setup t0 ss (Coordinator.lookup_data env))
               :: env)
              (fun x Hx => Hchain x (or_intror Hx))) with (i := i) (t := t);
      try assumption.
    intros p r' Hp. rewrite lookup_data_cons.
    destruct (String.eqb (Coordinator.t_name t0) p) eqn:E.
    + apply String.eqb_eq in E. apply Hhead.
      apply (Hp t0 (Hchain t0 (or_introl eq_refl)) E).
    + now apply Henv.
Qed.
End chain.

Lemma merge_from_parallel (chain : list (Coordinator.task (St:=St) (R:=R)))
    (tasks : list (list (string * list R))) (stations : list St) :
  forall (k : nat) (merged : list (string * list R)) (i : nat) t,
  chain !! i = Some t -> Coordinator.t_parallel t = true ->
  Coordinator.instance_data
    (Coordinator.merge_from k chain tasks stations merged) i
  = concat (map (fun proc_tasks =>
                   Coordinator.instance_data proc_tasks (k + i)) tasks).
Proof.
  induction chain as [ | t0 chain IH]; intros k merged i t Hi Ht;
    [ discriminate | ].
  destruct i as [ | i]; simpl in Hi.
  - injection Hi as <-. simpl. unfold Coordinator.instance_data at 1. simpl.
    unfold Coordinator.setup_from_instances. rewrite Ht, Nat.add_0_r.
    reflexivity.
  - simpl. unfold Coordinator.instance_data at 1. simpl.
    change (Coordinator.instance_data
              (Coordinator.merge_from (S k) chain tasks stations
                 ((Coordinator.t_name t0,
                   Coordinator.setup_from_instances t0
                     (map (fun proc_tasks =>
                             Coordinator.instance_data proc_tasks k) tasks)
                     stations merged) :: merged)) i = 
            concat (map (fun proc_tasks =>
                   Coordinator.instance_data proc_tasks (k + S i)) tasks)).
    rewrite (IH (S k) _ i t Hi Ht). now rewrite Nat.add_succ_r.
Qed.
End coordinator_facts.

Lemma filter_split_perm {A : Type} (f : A -> bool) (l : list A) :
  l ≡ₚ List.filter f l ++ List.filter (fun x => negb (f x)) l.
Proof.
  induction l as [ | x l IH]; [ reflexivity | ].
  simpl. destruct (f x); simpl.
  - now constructor.
  - rewrite <- Permutation_middle. now constructor.
Qed.

Lemma flat_map_concat {A B : Type} (f : A -> list B) (ls : list (list A)) :
  flat_map f (concat ls) = concat (map (flat_map f) ls).
Proof.
  induction ls as [ | l ls IH]; [ reflexivity | ].
  simpl. now rewrite flat_map_app, IH.
Qed.

Lemma concat_Permutation_pointwise {A B : Type} (f g : A -> list B)
    (l : list A) :
  (forall x, In x l -> f x ≡ₚ g x) -> concat (map f l) ≡ₚ concat (map g l).
Proof.
  induction l as [ | x l IH]; intros H; [ reflexivity | ].
  simpl. apply Permutation_app; [ apply H; now left | ].
  apply IH. intros y Hy. apply H. now right.
Qed.

Lemma NoDup_concat_In {A : Type} (ls : list (list A)) (l : list A) :
  List.NoDup (concat ls) -> In l ls -> List.NoDup l /\ incl l (concat ls).
Proof.
  induction ls as [ | l0 ls IH]; intros Hnd Hin; [ destruct Hin | ].
  simpl in Hnd. destruct Hin as [-> | Hin].
  - split; [ eapply NoDup_app_remove_r; exact Hnd | ].
    intros x Hx. simpl. apply in_or_app. now left.
  - destruct (IH (NoDup_app_remove_l _ _ Hnd) Hin) as [H1 H2].
    split; [ exact H1 | ]. intros x Hx. simpl. apply in_or_app.
    right. now apply H2.
Qed.

(** A frame is, up to the order of its rows, the rows of its stations
    station by station. *)
Lemma partition_by_station {St R : Type} `{EqDecision St}
    (station_of : R -> St) (keys : list St) :
  forall df : list R,
  List.NoDup keys -> (forall r, In r df -> In (station_of r) keys) ->
  df ≡ₚ flat_map (get_group station_of df) keys.
Proof.
  induction keys as [ | k keys IH]; intros df Hnd Hin.
  - destruct df as [ | r df]; [ reflexivity | ].
    destruct (Hin r (or_introl eq_refl)).
  - simpl. inversion Hnd as [ | ? ? Hk Hnd']; subst.
    set (rest := List.filter
                   (fun r => negb (bool_decide (station_of r = k))) df).
    rewrite (filter_split_perm
               (fun r => bool_decide (station_of r = k)) df) at 1.
    unfold get_group at 1. apply Permutation_app_head. fold rest.
    rewrite (IH rest Hnd').
    + rewrite (flat_map_ext_In (get_group station_of rest)
                 (get_group station_of df)); [ reflexivity | ].
      intros s Hs. unfold get_group, rest. apply filter_filter_implied.
      intros r Hr. apply bool_decide_eq_true in Hr.
      apply negb_true_iff, bool_decide_eq_false. congruence.
    + intros r Hr. unfold rest in Hr. apply filter_In in Hr as [Hr Hne].
      apply negb_true_iff, bool_decide_eq_false in Hne.
      destruct (Hin r Hr) as [E | E]; [ congruence | exact E ].
Qed.

Section serial_parallel.
Context {St R : Type} `{EqDecision St}.
Variable station_of : R -> St.
Variable chain : list (Coordinator.task (St:=St) (R:=R)).
Hypothesis Hchain : Coordinator.parallel_chain station_of chain.

Lemma instance_rows_of_stations (ss : list St) (i : nat)
    (t : Coordinator.task) (r : R) :
  chain !! i = Some t -> Coordinator.t_parallel t = true ->
  In r (Coordinator.instance_data (Coordinator.process_data chain ss) i) ->
  In (station_of r) ss.
Proof.
  intros Hi Ht Hr.
  apply (process_chain_rows station_of chain Hchain chain ss []
           (fun x Hx => Hx)) with (i := i) (t := t); auto.
  intros p r' _ [].
Qed.

(** The concatenated frames of the chunks hold the rows of the frame of
    the serial run. *)
Lemma chunks_Permutation (stations : list St) (chunks : list (list St))
    (i : nat) (t : Coordinator.task) :
  List.NoDup stations -> concat chunks = stations ->
  chain !! i = Some t -> Coordinator.t_parallel t = true ->
  Coordinator.instance_data (Coordinator.process_data chain stations) i
  ≡ₚ concat (map (fun c => Coordinator.instance_data
                             (Coordinator.process_data chain c) i) chunks).
Proof.
  intros Hnd Hcat Hi Ht.
  set (serial := Coordinator.instance_data
                   (Coordinator.process_data chain stations) i).
  rewrite (partition_by_station station_of stations serial Hnd)
    by (intros r Hr; eapply instance_rows_of_stations; eauto).
  rewrite <- Hcat at 1. rewrite flat_map_concat.
  apply concat_Permutation_pointwise. intros c Hc.
  rewrite <- Hcat in Hnd. destruct (NoDup_concat_In chunks c Hnd Hc) as [Hndc Hincl].
  rewrite Hcat in Hnd, Hincl.
  rewrite (partition_by_station station_of c
             (Coordinator.instance_data (Coordinator.process_data chain c) i)
             Hndc)
    by (intros r Hr; eapply instance_rows_of_stations; eauto).
  rewrite (flat_map_ext_In (get_group station_of serial)
             (get_group station_of
                (Coordinator.instance_data
                   (Coordinator.process_data chain c) i)));
    [ reflexivity | ].
  intros s Hs. symmetry.
  apply (process_chain_local station_of chain Hchain chain c stations
           Hndc Hnd Hincl [] [] (fun x Hx => Hx)) with (t := t); auto.
Qed.
End serial_parallel.

Lemma sort_by_index_Permutation {R K : Type} (index : R -> K)
    (kle : K -> K -> bool) (l1 l2 : list R) :
  total_order kle ->
  (forall r1 r2, In r1 l1 -> In r2 l1 -> index r1 = index r2 -> r1 = r2) ->
  l1 ≡ₚ l2 ->
  Coordinator.sort_by_index index kle l1
  = Coordinator.sort_by_index index kle l2.
Proof.
  intros (Htotal & Htrans & Hanti) Huniq Hperm.
  unfold Coordinator.sort_by_index.
  set (rel := fun x y : R => Is_true (kle (index x) (index y))).
  assert (HT : Total rel).
  { intros x y. unfold rel.
    destruct (Htotal (index x) (index y)) as [E | E]; rewrite E; simpl; auto. }
  assert (HTr : Transitive rel).
  { intros x y z. unfold rel. rewrite !Is_true_true. apply Htrans. }
  apply (Sorted_unique_strong rel).
  - intros x1 x2 Hx1 Hx2. unfold rel. rewrite !Is_true_true. intros H1 H2.
    rewrite merge_sort_Permutation in Hx1, Hx2. rewrite <- Hperm in Hx2.
    apply list_elem_of_In in Hx1, Hx2. apply Huniq; auto.
  - apply Sorted_merge_sort. exact HT.
  - apply Sorted_merge_sort. exact HT.
  - now rewrite !merge_sort_Permutation.
Qed.

(** C2: for a chain whose parallel tasks work station by station, a
    list of distinct stations and any configured number of processes
    and chunk size, a task that is set up in parallel has the same rows
    after a serial run and after a parallel run with its merge: the two
    frames are permutations of each other and, each row having its own
    index, they are equal once sorted by index. *)
Theorem serial_parallel_same_rows {St R K : Type} `{EqDecision St}
    (station_of : R -> St) (index : R -> K) (kle : K -> K -> bool)
    (chain : list (Coordinator.task (St:=St) (R:=R)))
    (nprocs max_stations : nat) (stations : list St)
    (serial_run parallel_run : list (string * list R))
    (i : nat) (t : Coordinator.task) :
  total_order kle ->
  Coordinator.parallel_chain station_of chain ->
  List.NoDup stations ->
  Coordinator.param chain true nprocs max_stations stations = Some serial_run ->
  Coordinator.param chain false nprocs max_stations stations
    = Some parallel_run ->
  chain !! i = Some t -> Coordinator.t_parallel t = true ->
  (forall r1 r2, In r1 (Coordinator.instance_data serial_run i) ->
     In r2 (Coordinator.instance_data serial_run i) ->
     index r1 = index r2 -> r1 = r2) ->
  Coordinator.instance_data serial_run i
    ≡ₚ Coordinator.instance_data parallel_run i /\
  Coordinator.sort_by_index index kle (Coordinator.instance_data serial_run i)
  = Coordinator.sort_by_index index kle
      (Coordinator.instance_data parallel_run i).
Proof.
  intros Hkle Hchain Hnd Hserial Hparallel Hi Ht Huniq.
  assert (Hperm : Coordinator.instance_data serial_run i
                  ≡ₚ Coordinator.instance_data parallel_run i).
  { unfold Coordinator.param in Hserial, Hparallel.
    simpl in Hserial. injection Hserial as <-.
    destruct (Coordinator.param_chunks false nprocs max_stations stations)
      as [chunks | ] eqn:Hchunks; [ | discriminate ].
    injection Hparallel as <-.
    apply param_chunks_concat in Hchunks.
    rewrite !(merge_from_parallel chain _ stations 0 [] i t Hi Ht).
    simpl. rewrite app_nil_r, map_map.
    apply (chunks_Permutation station_of chain Hchain stations chunks i t);
      assumption. }
  split; [ exact Hperm | ].
  now apply sort_by_index_Permutation.
Qed.

(** *** The chain of the complete daily frame and the Markov chain *)

Lemma filter_map_switch {A B : Type} (p : B -> bool) (g : A -> B)
    (l : list A) :
  List.filter p (map g l) = map g (List.filter (fun x => p (g x)) l).
Proof.
  induction l as [ | x l IH]; [ reflexivity | ].
  simpl. destruct (p (g x)); simpl; now rewrite IH.
Qed.

Lemma days_in (df : list Chain.row) (d : CompleteDaily.row) :
  In d (Chain.days df) <-> In (Chain.Day d) df.
Proof.
  unfold Chain.days. rewrite in_flat_map. split.
  - intros ([d' | k p] & Hr & Hd); simpl in Hd; [ | destruct Hd ].
    destruct Hd as [<- | []]. exact Hr.
  - intros H. exists (Chain.Day d). split; [ exact H | now left ].
Qed.

Lemma days_of_station (df : list Chain.row) (s : string) :
  get_group CompleteDaily.id (Chain.days df) s
  = Chain.days (get_group Chain.station_of df s).
Proof.
  unfold get_group, Chain.days.
  induction df as [ | [d | k p] df IH]; [ reflexivity | | ]; simpl.
  - destruct (bool_decide (CompleteDaily.id d = s)); simpl; now rewrite IH.
  - destruct (bool_decide (fst k = s)); simpl; exact IH.
Qed.

Lemma filter_filter_disjoint {A : Type} (f g : A -> bool) (l : list A) :
  (forall x, f x = true -> g x = true -> False) ->
  List.filter f (List.filter g l) = [].
Proof.
  intros H. induction l as [ | x l IH]; [ reflexivity | ].
  simpl. destruct (g x) eqn:Eg; [ | exact IH ].
  simpl. destruct (f x) eqn:Ef; [ | exact IH ].
  destruct (H x Ef Eg).
Qed.

Lemma rows_of_other_stations (source : list CompleteDaily.row)
    (ss : list string) (s : string) :
  ~ In s ss ->
  get_group CompleteDaily.id
    (flat_map (get_group CompleteDaily.id source) ss) s = [].
Proof.
  intros Hs. induction ss as [ | s' ss IH]; [ reflexivity | ].
  simpl. unfold get_group at 1. rewrite List.filter_app.
  fold (get_group CompleteDaily.id
          (flat_map (get_group CompleteDaily.id source) ss) s).
  rewrite IH by (intros H; apply Hs; now right). rewrite app_nil_r.
  apply filter_filter_disjoint. intros r H1 H2.
  apply bool_decide_eq_true in H1, H2. apply Hs. left. congruence.
Qed.

Lemma rows_of_one_station (source : list CompleteDaily.row)
    (ss : list string) (s : string) :
  List.NoDup ss -> In s ss ->
  get_group CompleteDaily.id
    (flat_map (get_group CompleteDaily.id source) ss) s
  = get_group CompleteDaily.id source s.
Proof.
  intros Hnd Hs. induction ss as [ | s' ss IH]; [ destruct Hs | ].
  inversion Hnd as [ | ? ? Hs' Hnd']; subst. simpl.
  unfold get_group at 1. rewrite List.filter_app.
  fold (get_group CompleteDaily.id
          (flat_map (get_group CompleteDaily.id source) ss) s).
  destruct (decide (s' = s)) as [-> | Hne].
  - rewrite rows_of_other_stations by exact Hs'. rewrite app_nil_r.
    unfold get_group. apply filter_filter_implied. auto.
  - destruct Hs as [E | Hs]; [ congruence | ].
    rewrite (IH Hnd' Hs). unfold get_group at 1.
    rewrite filter_filter_disjoint; [ reflexivity | ].
    intros r H1 H2. apply bool_decide_eq_true in H1, H2. congruence.
Qed.

(** The two tasks work station by station. *)
Lemma cday_task_local (source : list CompleteDaily.row) :
  Coordinator.station_local Chain.station_of (Chain.cday_task source).
Proof.
  split.
  - intros ss env _ r Hr. simpl in Hr.
    apply in_map_iff in Hr as (d & <- & Hd).
    apply in_flat_map in Hd as (s & Hs & Hd).
    apply in_get_group in Hd as [_ <-]. exact Hs.
  - intros ss ss' env env' s Hnd Hnd' Hs Hs' _. simpl.
    unfold get_group at 1 3. rewrite !filter_map_switch. simpl.
    fold (get_group CompleteDaily.id
            (flat_map (get_group CompleteDaily.id source) ss) s).
    fold (get_group CompleteDaily.id
            (flat_map (get_group CompleteDaily.id source) ss') s).
    now rewrite !rows_of_one_station.
Qed.

Lemma markov_task_local :
  Coordinator.station_local Chain.station_of Chain.markov_task.
Proof.
  split.
  - intros ss env Henv r Hr. simpl in Hr.
    apply in_map_iff in Hr as ([k p] & <- & Hkp). simpl.
    apply in_groupby_apply in Hkp as [Hk _].
    apply in_map_iff in Hk as (d & <- & Hd). apply days_in in Hd.
    apply (Henv "cday"%string (Chain.Day d)); [ now left | exact Hd ].
  - intros ss ss' env env' s _ _ _ _ Henv. simpl.
    unfold get_group at 1 2. rewrite !filter_map_switch. simpl.
    unfold MarkovChain.setup_from_scratch.
    rewrite !(groupby_apply_of_station CompleteDaily.id_month sz_le
                CompleteDaily.id fst sz_le_total_order
                (fun r => eq_refl)).
    rewrite !days_of_station.
    now rewrite (Henv "cday"%string (or_introl eq_refl)).
Qed.

Lemma chain_parallel (source : list CompleteDaily.row) :
  Coordinator.parallel_chain Chain.station_of (Chain.chain source).
Proof.
  intros t [<- | [<- | []]] _.
  - split; [ apply cday_task_local | intros p [] ].
  - split; [ apply markov_task_local | ].
    intros p [<- | []] t [<- | [<- | []]]; reflexivity.
Qed.

Lemma serial_parallel_same_rows_witness :
  exists serial_run parallel_run,
    Coordinator.param (Chain.chain cday_sample) true 2 500 stations_sample
      = Some serial_run /\
    Coordinator.param (Chain.chain cday_sample) false 2 500 stations_sample
      = Some parallel_run /\
    Coordinator.sort_by_index Chain.index szzz_le
      (Coordinator.instance_data serial_run 1)
    = Coordinator.sort_by_index Chain.index szzz_le
        (Coordinator.instance_data parallel_run 1).
Proof.
  eexists _, _. split; [ reflexivity | split; [ reflexivity | ] ].
  refine (proj2 (serial_parallel_same_rows Chain.station_of Chain.index
            szzz_le (Chain.chain cday_sample) 2 500 stations_sample _ _ 1
            Chain.markov_task szzz_le_total_order (chain_parallel _)
            _ eq_refl eq_refl eq_refl eq_refl _)).
  - repeat constructor; simpl; intuition discriminate.
  - intros r1 r2 H1 H2 _. vm_compute in H1, H2.
    destruct H1 as [<- | []], H2 as [<- | []]. reflexivity.
Defined.

(** ** Names of models and experiments *)

Lemma to_list_app (a b : string) :
  Str.to_list (a +:+ b) = Str.to_list a ++ Str.to_list b.
Proof. induction a as [ | c a IH]; simpl; [ reflexivity | now rewrite IH ]. Qed.

Lemma of_list_app (a b : list Ascii.ascii) :
  Str.of_list (a ++ b) = Str.of_list a +:+ Str.of_list b.
Proof. induction a as [ | c a IH]; simpl; [ reflexivity | now rewrite IH ]. Qed.

Lemma of_to_list (s : string) : Str.of_list (Str.to_list s) = s.
Proof. apply String.string_of_list_ascii_of_string. Qed.

Lemma to_of_list (l : list Ascii.ascii) : Str.to_list (Str.of_list l) = l.
Proof. apply String.list_ascii_of_string_of_list_ascii. Qed.

(** Reading a stretch without digits closes the current run. *)
Lemma findall_digits_plain (cur p s : list Ascii.ascii) :
  Forall (fun c => Str.is_digit c = false) p -> p <> [] ->
  Str.findall_digits cur (p ++ s)
  = match cur with [] => [] | _ => [cur] end ++ Str.findall_digits [] s.
Proof.
  intros Hp. revert cur. induction Hp as [ | c p Hc Hp IH]; intros cur Hne;
    [ congruence | ].
  simpl. rewrite Hc. destruct p as [ | c' p].
  - simpl. now destruct cur.
  - rewrite IH by discriminate. now destruct cur.
Qed.

Lemma findall_digits_plain' (p s : list Ascii.ascii) :
  Forall (fun c => Str.is_digit c = false) p ->
  Str.findall_digits [] (p ++ s) = Str.findall_digits [] s.
Proof.
  intros Hp. destruct p as [ | c p]; [ reflexivity | ].
  now rewrite findall_digits_plain by (auto; discriminate).
Qed.

(** Reading digits extends the current run. *)
Lemma findall_digits_run (cur d s : list Ascii.ascii) :
  Forall (fun c => Str.is_digit c = true) d ->
  Str.findall_digits cur (d ++ s) = Str.findall_digits (cur ++ d) s.
Proof.
  intros Hd. revert cur. induction Hd as [ | c d Hc Hd IH]; intros cur.
  - now rewrite app_nil_r.
  - simpl. rewrite Hc, IH, <- app_assoc. reflexivity.
Qed.

Lemma findall_digits_none (cur s : list Ascii.ascii) :
  Forall (fun c => Str.is_digit c = false) s ->
  Str.findall_digits cur s = match cur with [] => [] | _ => [cur] end.
Proof.
  intros Hs. destruct s as [ | c s].
  - reflexivity.
  - rewrite <- (app_nil_r (c :: s)), findall_digits_plain by (auto; discriminate).
    simpl. now rewrite app_nil_r.
Qed.

Lemma findall_digits_nil_iff (cur s : list Ascii.ascii) :
  Str.findall_digits cur s = [] <->
  cur = [] /\ Forall (fun c => Str.is_digit c = false) s.
Proof.
  revert cur. induction s as [ | c s IH]; intros cur; simpl.
  - destruct cur; split; [ auto | intros [_ _]; reflexivity | discriminate
                           | intros [? _]; discriminate ].
  - destruct (Str.is_digit c) eqn:E.
    + rewrite IH. split.
      * intros [H _]. now destruct cur.
      * intros [_ H]. apply Forall_cons_1 in H as [H _]. congruence.
    + destruct cur as [ | x cur].
      * rewrite IH. split.
        -- intros [_ H]. split; [ reflexivity | now constructor ].
        -- intros [_ H]. apply Forall_cons_1 in H as [_ H]. now split.
      * split; [ discriminate | intros [? _]; discriminate ].
Qed.

(** A stretch without the first character of [old] is copied. *)
Lemma replace_from_plain (old new p s : list Ascii.ascii) (c0 : Ascii.ascii) :
  head old = Some c0 -> Forall (fun c => c <> c0) p ->
  Str.replace_from old new 0 (p ++ s) = p ++ Str.replace_from old new 0 s.
Proof.
  intros Hold Hp. induction Hp as [ | c p Hc Hp IH]; [ reflexivity | ].
  simpl. destruct old as [ | o old]; [ discriminate | ].
  injection Hold as ->. unfold Str.startswith.
  rewrite bool_decide_eq_false_2; [ now rewrite IH | ].
  simpl. congruence.
Qed.

Lemma replace_from_skip (old new t s : list Ascii.ascii) :
  Str.replace_from old new (length t) (t ++ s) = Str.replace_from old new 0 s.
Proof. induction t as [ | c t IH]; [ reflexivity | exact IH ]. Qed.

(** An occurrence of [old] is replaced, and the search goes on behind it. *)
Lemma replace_from_match (old new s : list Ascii.ascii) :
  old <> [] ->
  Str.replace_from old new 0 (old ++ s) = new ++ Str.replace_from old new 0 s.
Proof.
  intros Hne. destruct old as [ | o old]; [ congruence | ].
  simpl. unfold Str.startswith.
  rewrite bool_decide_eq_true_2.
  - simpl. rewrite Nat.sub_0_r. now rewrite replace_from_skip.
  - change (o :: old ++ s) with ((o :: old) ++ s).
    now rewrite take_app_length.
Qed.

Lemma digit_not_plain (p : list Ascii.ascii) (c0 : Ascii.ascii) :
  Str.is_digit c0 = true -> Forall (fun c => Str.is_digit c = false) p ->
  Forall (fun c => c <> c0) p.
Proof.
  intros H0 Hp. eapply Forall_impl; [ exact Hp | ].
  intros c Hc ->. simpl in Hc. congruence.
Qed.

Lemma Forall_rev_iff {A : Type} (P : A -> Prop) (l : list A) :
  Forall P l -> Forall P (rev l).
Proof. intros H. now apply Forall_rev. Qed.

Lemma head_rev_digits (d : list Ascii.ascii) :
  d <> [] -> Forall (fun c => Str.is_digit c = true) d ->
  exists c0, head (rev d) = Some c0 /\ Str.is_digit c0 = true.
Proof.
  intros Hne Hd. destruct (rev d) as [ | c0 r] eqn:E.
  - apply (f_equal (@rev Ascii.ascii)) in E. rewrite rev_involutive in E. now subst.
  - exists c0. split; [ reflexivity | ].
    assert (Hin : In c0 (rev d)) by (rewrite E; now left).
    apply in_rev in Hin. rewrite Forall_forall in Hd. apply Hd.
    now apply list_elem_of_In.
Qed.

Lemma to_list_nil (s : string) : Str.to_list s = [] -> s = ""%string.
Proof. now destruct s. Qed.

(** X1: [_get_next_name] raises [ValueError] exactly for the names
    that hold no digit. *)
Theorem next_name_needs_a_digit (old : string) :
  _get_next_name old = Raises ValueError <-> no_digit old.
Proof.
  unfold _get_next_name, no_digit.
  destruct (last (Str.findall_digits [] (Str.to_list old))) as [num0 | ] eqn:E.
  - split; [ discriminate | ]. intros H.
    rewrite (proj2 (findall_digits_nil_iff [] (Str.to_list old))) in E by auto.
    discriminate.
  - split; [ intros _ | reflexivity ].
    apply last_None in E. now apply findall_digits_nil_iff in E.
Qed.

(** The numbers of a name with one number, and of a name with the same
    number twice. *)
Lemma findall_one (p d q : list Ascii.ascii) :
  Forall (fun c => Str.is_digit c = false) p ->
  Forall (fun c => Str.is_digit c = true) d -> d <> [] ->
  Forall (fun c => Str.is_digit c = false) q ->
  Str.findall_digits [] (p ++ d ++ q) = [d].
Proof.
  intros Hp Hd Hne Hq.
  rewrite findall_digits_plain', findall_digits_run by assumption.
  simpl. rewrite findall_digits_none by assumption. now destruct d.
Qed.

Lemma findall_two (p d q : list Ascii.ascii) :
  Forall (fun c => Str.is_digit c = false) p ->
  Forall (fun c => Str.is_digit c = true) d -> d <> [] ->
  Forall (fun c => Str.is_digit c = false) q -> q <> [] ->
  Str.findall_digits [] (p ++ d ++ q ++ d) = [d; d].
Proof.
  intros Hp Hd Hne Hq Hqne.
  rewrite findall_digits_plain', findall_digits_run by assumption.
  simpl. rewrite findall_digits_plain by assumption.
  rewrite <- (app_nil_r d) at 2. rewrite findall_digits_run by assumption.
  simpl. now destruct d.
Qed.

Lemma replace_nonempty (s old new : list Ascii.ascii) :
  old <> [] -> Str.replace s old new = Str.replace_from old new 0 s.
Proof. now destruct old. Qed.

(** X2: in a name with a single number, that number is incremented
    and the text around it is kept. *)
Theorem next_name_increments_the_number (p d q : string) :
  no_digit p -> number d -> no_digit q ->
  _get_next_name (p +:+ d +:+ q) = Returns (p +:+ incremented d +:+ q).
Proof.
  unfold no_digit, number, incremented. intros Hp [Hne Hd] Hq.
  assert (Hdn : Str.to_list d <> []) by (intros E; now apply to_list_nil in E).
  unfold _get_next_name. rewrite !to_list_app, findall_one by assumption.
  cbn [last]. f_equal.
  set (n1 := Str.to_list (pretty (Str.int (Str.to_list d) + 1)%N)).
  destruct (head_rev_digits _ Hdn Hd) as (c0 & Hc0 & Hdig).
  assert (Hrn : rev (Str.to_list d) <> []) by (intros E; now rewrite E in Hc0).
  rewrite replace_nonempty by exact Hrn.
  rewrite !rev_app_distr, <- !app_assoc.
  rewrite (replace_from_plain _ _ _ _ c0 Hc0)
    by (apply digit_not_plain; [ exact Hdig | now apply Forall_rev ]).
  rewrite replace_from_match by exact Hrn.
  rewrite <- (app_nil_r (rev (Str.to_list p))).
  rewrite (replace_from_plain _ _ _ _ c0 Hc0)
    by (apply digit_not_plain; [ exact Hdig | now apply Forall_rev ]).
  simpl Str.replace_from. rewrite app_nil_r.
  rewrite !rev_app_distr, !rev_involutive, <- !app_assoc.
  rewrite !of_list_app, !of_to_list. unfold n1. now rewrite of_to_list.
Qed.

Lemma next_name_increments_the_number_witness :
  _get_next_name "gwgen_exp9" = Returns "gwgen_exp10"%string.
Proof.
  apply (next_name_increments_the_number "gwgen_exp" "9" "").
  - unfold no_digit. simpl. repeat constructor.
  - split; [ discriminate | simpl; repeat constructor ].
  - constructor.
Defined.

(** X3: when the last number of the name stands a second time in
    it, both are incremented: the replacement is not confined to the
    last occurrence. *)
Theorem next_name_increments_equal_numbers (p d q : string) :
  no_digit p -> number d -> no_digit q -> q <> ""%string ->
  _get_next_name (p +:+ d +:+ q +:+ d)
  = Returns (p +:+ incremented d +:+ q +:+ incremented d).
Proof.
  unfold no_digit, number, incremented. intros Hp [Hne Hd] Hq Hqne.
  assert (Hdn : Str.to_list d <> []) by (intros E; now apply to_list_nil in E).
  assert (Hqn : Str.to_list q <> []) by (intros E; now apply to_list_nil in E).
  unfold _get_next_name. rewrite !to_list_app, findall_two by assumption.
  cbn [last]. f_equal.
  set (n1 := Str.to_list (pretty (Str.int (Str.to_list d) + 1)%N)).
  destruct (head_rev_digits _ Hdn Hd) as (c0 & Hc0 & Hdig).
  assert (Hrn : rev (Str.to_list d) <> []) by (intros E; now rewrite E in Hc0).
  rewrite replace_nonempty by exact Hrn.
  rewrite !rev_app_distr, <- !app_assoc.
  rewrite replace_from_match by exact Hrn.
  rewrite (replace_from_plain _ _ _ _ c0 Hc0)
    by (apply digit_not_plain; [ exact Hdig | now apply Forall_rev ]).
  rewrite replace_from_match by exact Hrn.
  rewrite <- (app_nil_r (rev (Str.to_list p))).
  rewrite (replace_from_plain _ _ _ _ c0 Hc0)
    by (apply digit_not_plain; [ exact Hdig | now apply Forall_rev ]).
  simpl Str.replace_from. rewrite app_nil_r.
  rewrite !rev_app_distr, !rev_involutive, <- !app_assoc.
  rewrite !of_list_app, !of_to_list. unfold n1. now rewrite of_to_list.
Qed.

Lemma next_name_increments_equal_numbers_witness :
  _get_next_name "model2_exp2" = Returns "model3_exp3"%string.
Proof.
  apply (next_name_increments_equal_numbers "model" "2" "_exp").
  - unfold no_digit. simpl. repeat constructor.
  - split; [ discriminate | simpl; repeat constructor ].
  - unfold no_digit. simpl. repeat constructor.
  - discriminate.
Defined.

(** ** The chunks of stations of a parallel run *)

Lemma ceil_div_le (a b : nat) :
  (0 < b)%nat -> (a <= Coordinator.ceil_div a b * b)%nat.
Proof.
  intros Hb. unfold Coordinator.ceil_div.
  pose proof (Nat.div_mod_eq (a + b - 1) b) as E.
  pose proof (Nat.mod_upper_bound (a + b - 1) b) as U. nia.
Qed.

Lemma ceil_div_least (a b k : nat) :
  (0 < b)%nat -> (a <= k * b)%nat -> (Coordinator.ceil_div a b <= k)%nat.
Proof.
  intros Hb H. unfold Coordinator.ceil_div.
  apply Nat.lt_succ_r. apply Nat.Div0.div_lt_upper_bound. nia.
Qed.

Lemma ceil_div_small (a b : nat) :
  (0 < a)%nat -> (a <= b)%nat -> Coordinator.ceil_div a b = 1%nat.
Proof.
  intros Ha Hb. unfold Coordinator.ceil_div.
  replace (a + b - 1)%nat with ((a - 1) + 1 * b)%nat by lia.
  rewrite Nat.div_add by lia. rewrite Nat.div_small by lia. reflexivity.
Qed.

Lemma ceil_div_step (a b : nat) :
  (0 < b)%nat -> (b < a)%nat ->
  Coordinator.ceil_div a b = S (Coordinator.ceil_div (a - b) b).
Proof.
  intros Hb Ha. unfold Coordinator.ceil_div.
  replace (a + b - 1)%nat with ((a - b + b - 1) + 1 * b)%nat by lia.
  rewrite Nat.div_add by lia. lia.
Qed.

(** The pieces of [np.split]: none is empty, none is longer than [m],
    and they are as many as [m] goes into the length, rounded up. *)
Lemma np_split_pieces {St : Type} (m fuel : nat) (l : list St) :
  (0 < m)%nat -> l <> [] -> (length l <= fuel)%nat ->
  Forall (fun c => (1 <= length c <= m)%nat) (Coordinator.np_split m l fuel)
  /\ length (Coordinator.np_split m l fuel)
     = Coordinator.ceil_div (length l) m.
Proof.
  intros Hm. revert l. induction fuel as [ | fuel IH]; intros l Hne Hf.
  - destruct l; [ congruence | simpl in Hf; lia ].
  - simpl. destruct (length l <=? m)%nat eqn:E.
    + apply Nat.leb_le in E.
      assert (0 < length l)%nat by (destruct l; [ congruence | simpl; lia ]).
      split; [ repeat constructor; lia | ].
      now rewrite ceil_div_small.
    + apply Nat.leb_gt in E.
      destruct (IH (drop m l)) as [IH1 IH2].
      * intros E'. apply (f_equal length) in E'. rewrite length_drop in E'.
        simpl in E'. lia.
      * rewrite length_drop. lia.
      * split.
        -- constructor; [ rewrite length_take; lia | exact IH1 ].
        -- simpl. rewrite IH2, length_drop. now rewrite <- ceil_div_step.
Qed.

(** X4: in a parallel run the station list is cut, in order, into
    chunks none of which is empty or longer than [max_stations], the
    smaller of the configured bound and of the stations per process;
    the chunks are as many as that size goes into the number of
    stations, rounded up. *)
Theorem param_chunks_sizes {St : Type} (nprocs conf : nat)
    (stations : list St) (chunks : list (list St)) :
  stations <> [] ->
  Coordinator.param_chunks false nprocs conf stations = Some chunks ->
  let max_stations :=
    Nat.min (Coordinator.ceil_div (length stations) nprocs) conf in
  concat chunks = stations /\
  Forall (fun c => (1 <= length c <= max_stations)%nat) chunks /\
  length chunks = Coordinator.ceil_div (length stations) max_stations.
Proof.
  intros Hne H m. split; [ now apply param_chunks_concat in H | ].
  unfold Coordinator.param_chunks in H. fold m in H.
  destruct (nprocs =? 0)%nat; [ discriminate | ].
  assert (Hl : (0 < length stations)%nat)
    by (destruct stations; [ congruence | simpl; lia ]).
  destruct (m <? length stations)%nat eqn:E.
  - destruct (m =? 0)%nat eqn:E0; [ discriminate | ].
    apply Nat.eqb_neq in E0. injection H as <-.
    apply np_split_pieces; [ lia | exact Hne | lia ].
  - apply Nat.ltb_ge in E. injection H as <-. split.
    + repeat constructor; lia.
    + now rewrite ceil_div_small.
Qed.

Lemma param_chunks_sizes_witness :
  Coordinator.param_chunks false 2 500 ["a"; "b"; "c"; "d"; "e"]%string
  = Some [["a"; "b"; "c"]; ["d"; "e"]]%string /\
  Forall (fun c : list string => (1 <= length c <= 3)%nat)
         [["a"; "b"; "c"]; ["d"; "e"]]%string.
Proof.
  assert (H : Coordinator.param_chunks false 2 500
                ["a"; "b"; "c"; "d"; "e"]%string
              = Some [["a"; "b"; "c"]; ["d"; "e"]]%string) by reflexivity.
  split; [ exact H | ].
  refine (proj1 (proj2 (param_chunks_sizes 2 500 _ _ _ H))). discriminate.
Defined.

(** X5: unless the configured [max_stations] is smaller than the
    number of stations per process, a parallel run makes no more chunks
    than there are processes. *)
Theorem param_chunks_at_most_nprocs {St : Type} (nprocs conf : nat)
    (stations : list St) (chunks : list (list St)) :
  stations <> [] ->
  (Coordinator.ceil_div (length stations) nprocs <= conf)%nat ->
  Coordinator.param_chunks false nprocs conf stations = Some chunks ->
  (length chunks <= nprocs)%nat.
Proof.
  intros Hne Hconf H.
  destruct (param_chunks_sizes nprocs conf stations chunks Hne H)
    as (_ & _ & ->).
  rewrite Nat.min_l by exact Hconf.
  unfold Coordinator.param_chunks in H.
  destruct (nprocs =? 0)%nat eqn:Ep; [ discriminate | ].
  apply Nat.eqb_neq in Ep.
  assert (Hl : (0 < length stations)%nat)
    by (destruct stations; [ congruence | simpl; lia ]).
  pose proof (ceil_div_le (length stations) nprocs ltac:(lia)) as Hc.
  apply ceil_div_least; [ | lia ].
  destruct (Coordinator.ceil_div (length stations) nprocs); lia.
Qed.

Lemma param_chunks_at_most_nprocs_witness :
  (length [["a"; "b"; "c"]; ["d"; "e"]]%string <= 2)%nat.
Proof.
  apply (param_chunks_at_most_nprocs 2 500 ["a"; "b"; "c"; "d"; "e"]%string).
  - discriminate.
  - vm_compute. lia.
  - reflexivity.
Defined.

(** ** The raw EECRA files *)

Ltac bool_to_Z :=
  repeat match goal with
  | H : _ && _ = true |- _ => apply andb_true_iff in H; destruct H
  | H : _ || _ = true |- _ => apply orb_true_iff in H; destruct H
  | H : (_ <? _) = true |- _ => apply Z.ltb_lt in H
  | H : (_ <=? _) = true |- _ => apply Z.leb_le in H
  | H : (_ =? _) = true |- _ => apply Z.eqb_eq in H
  end.

(** No month lies in two periods. *)
Lemma urls_disjoint (year mon : Z) (e1 e2 : ((Z * Z) * (Z * Z)) * string) :
  In e1 HourlyCloud.urls -> In e2 HourlyCloud.urls ->
  HourlyCloud.in_period year mon e1 = true ->
  HourlyCloud.in_period year mon e2 = true -> e1 = e2.
Proof.
  unfold HourlyCloud.urls. simpl.
  intros H1 H2;
    repeat (destruct H1 as [<- | H1]; [ | ]); try destruct H1;
    repeat (destruct H2 as [<- | H2]; [ | ]); try destruct H2;
    intros P1 P2; try reflexivity; exfalso;
    unfold HourlyCloud.in_period, HourlyCloud.tuple_leb in P1, P2;
    cbn [fst snd] in P1, P2; bool_to_Z; lia.
Qed.

(** The first element found does not depend on the order of a list in
    which at most one element is looked for. *)
Lemma find_unique_Permutation {A : Type} (p : A -> bool) (l l' : list A) :
  (forall x y, In x l -> In y l -> p x = true -> p y = true -> x = y) ->
  Permutation l l' -> List.find p l = List.find p l'.
Proof.
  intros Hu Hp.
  assert (Hu' : forall x y, In x l' -> In y l' ->
                  p x = true -> p y = true -> x = y).
  { intros x y Hx Hy. apply Hu; eapply Permutation_in;
      try (apply Permutation_sym; exact Hp); assumption. }
  destruct (List.find p l) as [x | ] eqn:E.
  - apply find_some in E as [Hx Px].
    destruct (List.find p l') as [y | ] eqn:E'.
    + apply find_some in E' as [Hy Py]. f_equal. apply Hu'; auto.
      eapply Permutation_in; eauto.
    + exfalso. pose proof (find_none _ _ E' x) as Hn.
      rewrite Hn in Px; [ discriminate | eapply Permutation_in; eauto ].
  - destruct (List.find p l') as [y | ] eqn:E'; [ | reflexivity ].
    apply find_some in E' as [Hy Py]. exfalso.
    pose proof (find_none _ _ E y) as Hn. rewrite Hn in Py; [ discriminate | ].
    eapply Permutation_in; [ apply Permutation_sym; exact Hp | exact Hy ].
Qed.

(** X6: whatever the order in which the dictionary [urls] yields its
    periods, [get_eecra_url] gives the same result. *)
Theorem eecra_url_any_order (items : list (((Z * Z) * (Z * Z)) * string))
    (year mon : Z) :
  Permutation HourlyCloud.urls items ->
  HourlyCloud.get_eecra_url_in items year mon
  = HourlyCloud.get_eecra_url year mon.
Proof.
  intros Hp. unfold HourlyCloud.get_eecra_url, HourlyCloud.get_eecra_url_in.
  rewrite <- (find_unique_Permutation (HourlyCloud.in_period year mon)
                HourlyCloud.urls items); [ reflexivity | | exact Hp ].
  intros x y. apply urls_disjoint.
Qed.

Lemma eecra_url_any_order_witness :
  HourlyCloud.get_eecra_url_in (rev HourlyCloud.urls) 1990 2
  = Returns (Some "http://cdiac.ornl.gov/ftp/ndp026c/land_198707_199202/FEB90L.Z"%string).
Proof.
  rewrite (eecra_url_any_order (rev HourlyCloud.urls) 1990 2).
  - reflexivity.
  - apply Permutation_rev.
Defined.

(** X7: every month of the years 1971 to 2009 has a download address,
    the directory of its period followed by the name of its file with
    the extension [.Z]; for a year outside, [get_eecra_url] returns
    [None] (whatever the month is). *)
Theorem eecra_url_of_every_month (year mon : Z) :
  (In (year, mon) HourlyCloud.year_months ->
   exists e f, In e HourlyCloud.urls /\
     HourlyCloud.in_period year mon e = true /\
     HourlyCloud.eecra_fname year mon ".Z" = Returns f /\
     HourlyCloud.get_eecra_url year mon = Returns (Some (snd e +:+ f))) /\
  (year < 1971 \/ 2009 < year ->
   HourlyCloud.get_eecra_url year mon = Returns None).
Proof.
  split.
  - intros Hin.
    assert (Hall : forallb (fun ym =>
              match List.find (HourlyCloud.in_period (fst ym) (snd ym))
                              HourlyCloud.urls,
                    HourlyCloud.eecra_fname (fst ym) (snd ym) ".Z" with
              | Some _, Returns _ => true
              | _, _ => false
              end) HourlyCloud.year_months = true) by (vm_compute; reflexivity).
    rewrite forallb_forall in Hall. specialize (Hall _ Hin). cbn [fst snd] in Hall.
    unfold HourlyCloud.get_eecra_url, HourlyCloud.get_eecra_url_in.
    destruct (List.find _ HourlyCloud.urls) as [e | ] eqn:E; [ | discriminate ].
    destruct (HourlyCloud.eecra_fname year mon ".Z") as [f | ];
      [ | discriminate ].
    apply find_some in E as [He Hper].
    exists e, f. destruct e as [per url]. auto.
  - intros Hy. unfold HourlyCloud.get_eecra_url, HourlyCloud.get_eecra_url_in.
    destruct (List.find _ HourlyCloud.urls) as [e | ] eqn:E; [ | reflexivity ].
    exfalso. apply find_some in E as [He Hper].
    unfold HourlyCloud.urls in He. simpl in He.
    repeat (destruct He as [<- | He]; [
      unfold HourlyCloud.in_period, HourlyCloud.tuple_leb in Hper;
      cbn [fst snd] in Hper; bool_to_Z; lia | ]).
    destruct He.
Qed.

Lemma eecra_url_of_every_month_witness :
  In (1982, 11) HourlyCloud.year_months /\
  (exists e f, In e HourlyCloud.urls /\
     HourlyCloud.in_period 1982 11 e = true /\
     HourlyCloud.eecra_fname 1982 11 ".Z" = Returns f /\
     HourlyCloud.get_eecra_url 1982 11 = Returns (Some (snd e +:+ f))) /\
  HourlyCloud.get_eecra_url 2010 1 = Returns None.
Proof.
  assert (Hin : In (1982, 11) HourlyCloud.year_months)
    by (apply in_flat_map; exists 1982; split;
        [ | apply in_map ]; apply list_elem_of_In, elem_of_seqZ; lia).
  split; [ exact Hin | split ].
  - exact (proj1 (eecra_url_of_every_month 1982 11) Hin).
  - apply (proj2 (eecra_url_of_every_month 2010 1)). right. lia.
Defined.

Lemma string_app_assoc (a b c : string) : (a +:+ b) +:+ c = a +:+ (b +:+ c).
Proof.
  rewrite <- (of_to_list ((a +:+ b) +:+ c)), <- (of_to_list (a +:+ (b +:+ c))).
  now rewrite !to_list_app, app_assoc.
Qed.

Lemma string_app_nil_r (a : string) : a +:+ "" = a.
Proof.
  rewrite <- (of_to_list (a +:+ "")), to_list_app. simpl.
  now rewrite app_nil_r, of_to_list.
Qed.

Lemma string_app_inv_tail (a b c : string) : a +:+ c = b +:+ c -> a = b.
Proof.
  intros H. apply (f_equal Str.to_list) in H. rewrite !to_list_app in H.
  apply app_inv_tail in H. apply (f_equal Str.of_list) in H.
  now rewrite !of_to_list in H.
Qed.

(** The extension is appended to the name without extension. *)
Lemma eecra_fname_ext (year mon : Z) (ext : string) :
  HourlyCloud.eecra_fname year mon ext
  = match HourlyCloud.eecra_fname year mon "" with
    | Returns s => Returns (s +:+ ext)
    | Raises e => Raises e
    end.
Proof.
  unfold HourlyCloud.eecra_fname.
  destruct (List.find _ HourlyCloud.mon_map) as [[k c_mon] | ]; [ | reflexivity ].
  now rewrite string_app_nil_r, !string_app_assoc.
Qed.

Lemma NoDup_map_inj {A B : Type} (f : A -> B) (l : list A) (x y : A) :
  List.NoDup (map f l) -> In x l -> In y l -> f x = f y -> x = y.
Proof.
  induction l as [ | a l IH]; intros Hnd Hx Hy E; [ destruct Hx | ].
  simpl in Hnd. inversion Hnd as [ | ? ? Hnotin Hnd']. subst.
  destruct Hx as [-> | Hx], Hy as [-> | Hy]; auto.
  - exfalso. apply Hnotin. rewrite E. now apply in_map.
  - exfalso. apply Hnotin. rewrite <- E. now apply in_map.
Qed.

(** X8: the two-digit year keeps the names of the raw files of the
    months of 1971 to 2009 apart: [eecra_fname] gives different names
    for different months, with any extension. *)
Theorem eecra_fname_distinct (ym ym' : Z * Z) (ext : string) :
  In ym HourlyCloud.year_months -> In ym' HourlyCloud.year_months ->
  HourlyCloud.eecra_fname (fst ym) (snd ym) ext
  = HourlyCloud.eecra_fname (fst ym') (snd ym') ext ->
  ym = ym'.
Proof.
  intros Hin Hin' E.
  assert (Hnd : List.NoDup
            (map (fun ym => HourlyCloud.eecra_fname (fst ym) (snd ym) "")
                 HourlyCloud.year_months)).
  { apply NoDup_ListNoDup.
    apply (bool_decide_unpack _). vm_compute. reflexivity. }
  apply (NoDup_map_inj _ _ _ _ Hnd Hin Hin').
  rewrite (eecra_fname_ext _ _ ext), (eecra_fname_ext (fst ym') _ ext) in E.
  assert (Hok : forallb (fun ym =>
            match HourlyCloud.eecra_fname (fst ym) (snd ym) "" with
            | Returns _ => true
            | Raises _ => false
            end) HourlyCloud.year_months = true) by (vm_compute; reflexivity).
  rewrite forallb_forall in Hok.
  pose proof (Hok _ Hin) as H1. pose proof (Hok _ Hin') as H2.
  destruct (HourlyCloud.eecra_fname (fst ym) (snd ym) "") as [s | ];
    [ | discriminate ].
  destruct (HourlyCloud.eecra_fname (fst ym') (snd ym') "") as [s' | ];
    [ | discriminate ].
  injection E as E. apply string_app_inv_tail in E. now subst.
Qed.

Lemma eecra_fname_distinct_witness : (1971, 1) = (1971, 1).
Proof.
  apply (eecra_fname_distinct (1971, 1) (1971, 1) ".Z");
    [ | | reflexivity ];
    apply in_flat_map; eexists; (split;
        [ | apply in_map ]; apply list_elem_of_In, elem_of_seqZ; lia).
Defined.

(** ** The fit functions of the cloud task *)

Lemma Qeq_bool_false (q : Q) : ~ (q == 0)%Q -> Qeq_bool q 0 = false.
Proof.
  intros H. destruct (Qeq_bool q 0) eqn:E; [ | reflexivity ].
  apply Qeq_bool_iff in E. contradiction.
Qed.

(** X9: for a finite parameter [a], the curve fitted to the mean
    cloud fraction of the wet (or dry) days maps the unit interval into
    itself whenever [a > -1] and [a <> 0]: there
    [cloud_func(x, a) = x / (a (1 - x) + 1)], which is 0 at 0 and 1
    at 1. *)
Theorem cloud_func_unit_interval (q p : Q) :
  (~ p == 0)%Q -> (-1 < p)%Q -> (0 <= q <= 1)%Q ->
  exists y, cloud_func (Fin q) (Fin p) = Fin y /\
    (y == q / (p * (1 - q) + 1))%Q /\
    (0 <= y <= 1)%Q /\
    ((q == 0)%Q -> (y == 0)%Q) /\ ((q == 1)%Q -> (y == 1)%Q).
Proof.
  intros Hp Hp1 [Hq0 Hq1].
  assert (Hden : (0 < p * (1 - q) + 1)%Q) by nra.
  assert (HD : ~ (p * p * q + - (p * p) + - p == 0)%Q).
  { intros E. assert (E' : (p * (p * (1 - q) + 1) == 0)%Q) by lra.
    apply Qmult_integral in E' as [E' | E']; [ contradiction | lra ]. }
  unfold cloud_func. cbn [Float.sub Float.neg Float.add Float.mul Float.div].
  rewrite (Qeq_bool_false _ HD), (Qeq_bool_false _ Hp).
  cbn [Float.neg Float.add].
  eexists. split; [ reflexivity | ].
  assert (E : ((- p + - (1)) / (p * p * q + - (p * p) + - p) + - (1 / p)
               == q / (p * (1 - q) + 1))%Q).
  { field. split; [ intros E0; lra | split; assumption ]. }
  split; [ exact E | ]. rewrite E.
  split; [ split | split ].
  - apply Qle_shift_div_l; [ exact Hden | lra ].
  - apply Qle_shift_div_r; [ exact Hden | nra ].
  - intros ->. field; intros E1; lra.
  - intros ->. field; intros E1; lra.
Qed.

Lemma cloud_func_unit_interval_witness :
  exists y, cloud_func (Fin (1 # 2)) (Fin 2) = Fin y /\ (0 <= y <= 1)%Q.
Proof.
  destruct (cloud_func_unit_interval (1 # 2) 2) as (y & E & _ & H & _).
  - discriminate.
  - reflexivity.
  - split; discriminate.
  - exists y. split; [ exact E | exact H ].
Defined.

(** X10: for a finite parameter [a], the curve fitted to the
    standard deviation of the cloud fraction is never negative on the
    unit interval, vanishes at its two ends and does not exceed
    [a * a / 4]. *)
Theorem cloud_sd_func_unit_interval (q p : Q) :
  (0 <= q <= 1)%Q ->
  exists y, cloud_sd_func (Fin q) (Fin p) = Fin y /\
    (0 <= y)%Q /\ (4 * y <= p * p)%Q /\
    ((q == 0)%Q \/ (q == 1)%Q -> (y == 0)%Q).
Proof.
  intros [Hq0 Hq1]. unfold cloud_sd_func.
  cbn [Float.sub Float.neg Float.add Float.mul].
  eexists. split; [ reflexivity | ].
  assert (Hpp : (0 <= p * p)%Q) by nra.
  repeat split.
  - apply Qmult_le_0_compat; [ apply Qmult_le_0_compat | ]; lra.
  - assert (H : (0 <= (p * p) * ((1 - 2 * q) * (1 - 2 * q)))%Q).
    { apply Qmult_le_0_compat; [ exact Hpp | ].
      generalize (1 - 2 * q)%Q. intros x. nra. }
    lra.
  - intros [E | E]; rewrite E; ring.
Qed.

Lemma cloud_sd_func_unit_interval_witness :
  exists y, cloud_sd_func (Fin (1 # 2)) (Fin 2) = Fin y /\ (0 <= y)%Q.
Proof.
  destruct (cloud_sd_func_unit_interval (1 # 2) 2) as (y & E & H & _).
  - split; discriminate.
  - exists y. split; [ exact E | exact H ].
Defined.

(** ** The wet fraction of the Markov chain task *)

(** A group of a frame is not empty. *)
Lemma groupby_nonempty {R K : Type} `{EqDecision K} (key : R -> K)
    (kle : K -> K -> bool) (df : list R) (k : K) (g : list R) :
  In (k, g) (groupby key kle df) -> g <> [].
Proof.
  intros Hin. apply in_groupby in Hin as [Hk ->].
  apply in_map_iff in Hk as (r & Hr & Hin).
  intros E. assert (H' : In r (get_group key df k))
    by (apply in_get_group; auto).
  rewrite E in H'. destruct H'.
Qed.

(** The last day of a month is not counted among its wet days. *)
Lemma calc_ndays_nwet (df : list CompleteDaily.row) (c : MarkovChain.ndays) :
  MarkovChain.calc_ndays df = Some c ->
  MarkovChain.nwet c + 1 <= MarkovChain.n c.
Proof.
  unfold MarkovChain.calc_ndays. destruct df as [ | r df]; [ discriminate | ].
  intros [= <-]. cbn [MarkovChain.nwet MarkovChain.n].
  set (vals := CompleteDaily.prcp_values (r :: df)).
  etransitivity;
    [ apply Z.add_le_mono_r; apply count_le_length | ].
  rewrite length_map. unfold Arr.but_last. rewrite length_firstn.
  simpl length. lia.
Qed.

Lemma sum_ndays_nwet (gs : list (list CompleteDaily.row)) :
  Forall (fun g => g <> []) gs ->
  let c := MarkovChain.sum_ndays (map MarkovChain.calc_ndays gs) in
  MarkovChain.nwet c + Z.of_nat (length gs) <= MarkovChain.n c.
Proof.
  induction 1 as [ | g gs Hg Hgs IH]; [ simpl; lia | ].
  cbn zeta in *. cbn [map MarkovChain.sum_ndays fold_right length].
  destruct (MarkovChain.calc_ndays g) as [c | ] eqn:E.
  - apply calc_ndays_nwet in E.
    fold (MarkovChain.sum_ndays (map MarkovChain.calc_ndays gs)).
    cbn [MarkovChain.add_ndays MarkovChain.nwet MarkovChain.n]. lia.
  - destruct g; [ congruence | discriminate E ].
Qed.

Lemma pooled_nwet (df : list CompleteDaily.row) :
  MarkovChain.nwet (MarkovChain.pooled df)
  + Z.of_nat (ngroups CompleteDaily.year_month zz_le df)
  <= MarkovChain.n (MarkovChain.pooled df).
Proof.
  unfold MarkovChain.pooled, ngroups.
  rewrite <- (map_map snd MarkovChain.calc_ndays).
  rewrite <- (length_map snd (groupby CompleteDaily.year_month zz_le df)).
  apply sum_ndays_nwet. apply Forall_forall. intros g Hg.
  apply list_elem_of_In, in_map_iff in Hg as ([k g'] & <- & Hin).
  now apply groupby_nonempty in Hin.
Qed.

(** X11: the wet fraction of every row of the Markov chain frame is
    a number below 1, also for a station-month whose days are all wet:
    the wet days are counted without the last day of each month, the
    days with it. *)
Theorem markov_wetf_below_one (cday : list CompleteDaily.row)
    (k : string * Z) (row : MarkovChain.probs) :
  In (k, row) (MarkovChain.setup_from_scratch cday) ->
  let dfs := MarkovChain.pooled (get_group CompleteDaily.id_month cday k) in
  MarkovChain.nwet dfs < MarkovChain.n dfs /\
  exists q, MarkovChain.wetf row = Fin q /\ (0 <= q)%Q /\ (q < 1)%Q.
Proof.
  intros Hin dfs. destruct (in_markov_frame cday k row Hin) as [Hn ->].
  cbn [MarkovChain.wetf]. fold dfs.
  pose proof (pooled_nwet (get_group CompleteDaily.id_month cday k)) as Hw.
  pose proof (pooled_ordered (get_group CompleteDaily.id_month cday k)) as Ho.
  fold dfs in Hw, Ho. destruct Ho as (_ & _ & _ & _ & Hnw).
  assert (Hlt : MarkovChain.nwet dfs < MarkovChain.n dfs) by lia.
  split; [ exact Hlt | ].
  unfold MarkovChain.ratio.
  assert (Hpos : 0 < MarkovChain.n dfs) by lia.
  rewrite (proj2 (Z.ltb_lt _ _) Hpos).
  unfold Float.div, Float.of_Z.
  assert (HposQ : (0 < inject_Z (MarkovChain.n dfs))%Q).
  { change 0%Q with (inject_Z 0). now rewrite <- Zlt_Qlt. }
  rewrite Qeq_bool_false by (intros E; rewrite E in HposQ;
                             now apply Qlt_irrefl in HposQ).
  eexists. split; [ reflexivity | split ].
  - apply Qle_shift_div_l; [ exact HposQ | ]. rewrite Qmult_0_l.
    change 0%Q with (inject_Z 0). rewrite <- Zle_Qle. lia.
  - apply Qlt_shift_div_r; [ exact HposQ | ]. rewrite Qmult_1_l.
    now rewrite <- Zlt_Qlt.
Qed.

Lemma markov_wetf_below_one_witness :
  exists q, MarkovChain.wetf markov_sample_row = Fin q /\ (q < 1)%Q.
Proof.
  assert (Hin : In ("ST1"%string, 1, markov_sample_row)
                   (MarkovChain.setup_from_scratch cday_sample))
    by (vm_compute; left; reflexivity).
  destruct (markov_wetf_below_one cday_sample ("ST1"%string, 1)
              markov_sample_row Hin) as (_ & q & E & _ & H).
  exists q. split; [ exact E | exact H ].
Defined.

(** ** The temperature range of all days *)

Lemma sum_Fin (qs : list Q) (a : Q) :
  fold_left Float.add (map Fin qs) (Fin a) = Fin (fold_left Qplus qs a).
Proof.
  revert a. induction qs as [ | q qs IH]; intros a; [ reflexivity | ].
  simpl. apply IH.
Qed.

Lemma fold_Qplus_nonpos (qs : list Q) (a : Q) :
  (a <= 0)%Q -> Forall (fun q => (q <= 0)%Q) qs ->
  (fold_left Qplus qs a <= 0)%Q.
Proof.
  intros Ha Hq. revert a Ha. induction Hq as [ | q qs Hq Hqs IH]; intros a Ha;
    [ exact Ha | ].
  simpl. apply IH. lra.
Qed.

(** The mean of numbers none of which is positive. *)
Lemma mean_nonpos (qs : list Q) :
  qs <> [] -> Forall (fun q => (q <= 0)%Q) qs ->
  exists m, Float.mean (map Fin qs) = Fin m /\ (m <= 0)%Q.
Proof.
  intros Hne Hq. unfold Float.mean, Float.sum, Float.zero.
  rewrite sum_Fin, length_map. unfold Float.of_nat, Float.of_Z, Float.div.
  assert (Hpos : (0 < inject_Z (Z.of_nat (length qs)))%Q).
  { change 0%Q with (inject_Z 0). rewrite <- Zlt_Qlt.
    destruct qs; [ congruence | simpl; lia ]. }
  rewrite Qeq_bool_false
    by (intros E; rewrite E in Hpos; now apply Qlt_irrefl in Hpos).
  eexists. split; [ reflexivity | ].
  apply Qle_shift_div_r; [ exact Hpos | ]. rewrite Qmult_0_l.
  now apply fold_Qplus_nonpos.
Qed.

Lemma arr_sub_tmin_tmax (df : list CompleteDaily.row) :
  Float.arr_sub (CompleteDaily.tmin_values df) (CompleteDaily.tmax_values df)
  = map Fin (map (fun r => (CompleteDaily.tmin r - CompleteDaily.tmax r)%Q) df).
Proof.
  induction df as [ | r df IH]; [ reflexivity | ].
  unfold Float.arr_sub, CompleteDaily.tmin_values, CompleteDaily.tmax_values
    in *. simpl. now rewrite IH.
Qed.

(** X12: the column [trange] of a month is the mean of the minimum
    minus the maximum temperature: whenever no day of the month has its
    minimum above its maximum, it is a number that is not positive. *)
Theorem trange_not_positive (np_log np_exp : npfloat -> npfloat)
    (df : list CompleteDaily.row) (row : TemperatureParameterizer.props) :
  df <> [] ->
  (forall r, In r df -> (CompleteDaily.tmin r <= CompleteDaily.tmax r)%Q) ->
  In row (TemperatureParameterizer.calc_monthly_props np_log np_exp df) ->
  exists q, TemperatureParameterizer.trange row = Fin q /\ (q <= 0)%Q.
Proof.
  intros Hne Hle Hrow.
  unfold TemperatureParameterizer.calc_monthly_props in Hrow.
  destruct (TemperatureParameterizer.fields np_log np_exp df);
    [ | destruct Hrow ].
  destruct Hrow as [<- | []]. cbn [TemperatureParameterizer.trange].
  rewrite arr_sub_tmin_tmax. apply mean_nonpos.
  - intros E. apply map_eq_nil in E. contradiction.
  - apply Forall_map, Forall_forall. intros r Hr.
    apply list_elem_of_In, Hle in Hr. simpl. lra.
Qed.

Lemma trange_not_positive_witness :
  exists q,
    TemperatureParameterizer.trange
      (hd (TemperatureParameterizer.Props NaN NaN NaN NaN NaN NaN NaN NaN NaN
             NaN NaN NaN NaN NaN NaN NaN NaN NaN NaN NaN NaN NaN NaN)
          (TemperatureParameterizer.calc_monthly_props
             (fun x => x) (fun x => Float.add x (Fin 1)) month_sample))
    = Fin q /\ (q <= 0)%Q.
Proof.
  apply (trange_not_positive (fun x => x) (fun x => Float.add x (Fin 1))
           month_sample).
  - discriminate.
  - intros r Hr. simpl in Hr.
    destruct Hr as [<- | [<- | [<- | []]]]; simpl; discriminate.
  - vm_compute. left. reflexivity.
Defined.

(** ** The complete months of the GHCN frames *)

(** Distinct integers of 1..n are at most n, and all of 1..n when they
    are n. *)
Lemma distinct_in_range (l : list Z) (n : Z) :
  List.NoDup l -> (forall x, In x l -> 1 <= x <= n) ->
  (length l <= Z.to_nat n)%nat /\
  ((Z.to_nat n <= length l)%nat -> forall d, 1 <= d <= n -> In d l).
Proof.
  intros Hnd Hr. apply NoDup_ListNoDup in Hnd.
  assert (Hsub : l ⊆+ seqZ 1 n).
  { apply NoDup_submseteq; [ exact Hnd | ]. intros x Hx.
    apply elem_of_seqZ. apply list_elem_of_In, Hr in Hx. lia. }
  split.
  - apply submseteq_length in Hsub. now rewrite length_seqZ in Hsub.
  - intros Hlen d Hd.
    assert (Hp : l ≡ₚ seqZ 1 n)
      by (apply submseteq_length_Permutation;
          [ exact Hsub | now rewrite length_seqZ ]).
    apply list_elem_of_In. rewrite Hp. apply elem_of_seqZ. lia.
Qed.

Lemma traverse_Returns {A B : Type} (f : A -> outcome B) (l : list A)
    (bs : list B) :
  traverse f l = Returns bs -> Forall2 (fun a b => f a = Returns b) l bs.
Proof.
  revert bs. induction l as [ | a l IH]; intros bs; simpl.
  - intros [= <-]. constructor.
  - destruct (f a) as [b | e] eqn:E; [ | discriminate ]. simpl.
    destruct (traverse f l) as [bs' | e]; [ | discriminate ]. simpl.
    intros [= <-]. constructor; [ exact E | now apply IH ].
Qed.

(** What [monthly_summary] returns: one row, for a frame whose first
    row lies in a month of the calendar. *)
Lemma monthly_summary_Returns (df : list DailyGHCNData.row)
    (rows : list MonthlyGHCNData.summary) :
  MonthlyGHCNData.monthly_summary df = Returns rows ->
  exists r0 n s,
    head df = Some r0 /\
    Calendar.monthrange (DailyGHCNData.year r0) (DailyGHCNData.month r0)
    = Returns n /\
    rows = [s] /\
    MonthlyGHCNData.prcp_complete s
    = (MonthlyGHCNData.count (map DailyGHCNData.prcp df) =? n) /\
    MonthlyGHCNData.tmin_complete s
    = (MonthlyGHCNData.count (map DailyGHCNData.tmin df) =? n) /\
    MonthlyGHCNData.tmax_complete s
    = (MonthlyGHCNData.count (map DailyGHCNData.tmax df) =? n).
Proof.
  unfold MonthlyGHCNData.monthly_summary.
  destruct df as [ | r0 df]; [ discriminate | ].
  destruct (Calendar.monthrange _ _) as [n | e] eqn:E; [ | discriminate ].
  simpl. intros [= <-]. exists r0, n. eexists.
  split; [ reflexivity | split; [ exact E | split; [ reflexivity | ] ] ].
  simpl. auto.
Qed.

Lemma monthrange_Returns (year month n : Z) :
  Calendar.monthrange year month = Returns n ->
  1 <= month <= 12 /\ 28 <= n <= 31.
Proof.
  unfold Calendar.monthrange.
  destruct ((1 <=? month) && (month <=? 12)) eqn:Em; [ | discriminate ].
  simpl. destruct ((1 <=? year) && (year <=? 9999)); [ | discriminate ].
  simpl. intros [= <-]. apply andb_true_iff in Em as [H1 H2].
  apply Z.leb_le in H1, H2. split; [ lia | ].
  unfold Calendar.mdays.
  destruct (month =? 2); simpl;
    [ destruct (Calendar.isleap year); simpl; lia | ].
  destruct ((month =? 4) || (month =? 6) || (month =? 9) || (month =? 11));
    lia.
Qed.

(** The frame of the summaries has one row for every month of the daily
    frame, in the order of the months. *)
Lemma summaries_Returns (day : list DailyGHCNData.row)
    (data : list ((string * (Z * Z)) * MonthlyGHCNData.summary)) :
  MonthlyGHCNData.summaries day = Returns data ->
  map fst data = group_keys DailyGHCNData.month_key szz_le day /\
  forall k s, In (k, s) data ->
    MonthlyGHCNData.monthly_summary
      (get_group DailyGHCNData.month_key day k) = Returns [s].
Proof.
  unfold MonthlyGHCNData.summaries.
  destruct (traverse _ _) as [frames | e] eqn:E; [ | discriminate ].
  simpl. intros [= <-]. apply traverse_Returns in E.
  unfold groupby in E. remember (group_keys _ _ day) as keys eqn:Ek.
  clear Ek. revert frames E.
  induction keys as [ | k keys IH]; intros frames E.
  - inversion E. subst. split; [ reflexivity | intros k s [] ].
  - simpl in E. inversion E as [ | g fr gs frs Hg Hgs ]. subst.
    destruct (IH _ Hgs) as [IH1 IH2]. simpl in Hg.
    destruct (MonthlyGHCNData.monthly_summary _) as [rows | e] eqn:Er;
      [ | discriminate ].
    simpl in Hg. injection Hg as <-.
    destruct (monthly_summary_Returns _ _ Er) as (r0 & n & s & _ & _ & -> & _).
    simpl. split; [ now rewrite IH1 | ].
    intros k' s' [[= <- <-] | Hin]; [ exact Er | now apply IH2 ].
Qed.

Lemma in_merge_months (day : list DailyGHCNData.row)
    (months : list (string * (Z * Z))) (r : DailyGHCNData.row) :
  In r (CompleteDailyGHCNData.merge_months day months) <->
  In r day /\ In (DailyGHCNData.month_key r) months.
Proof.
  unfold CompleteDailyGHCNData.merge_months. rewrite in_flat_map. split.
  - intros (r' & Hr' & Hin). apply in_map_iff in Hin as (k & <- & Hk).
    apply filter_In in Hk as [Hk E]. apply bool_decide_eq_true in E.
    subst k. auto.
  - intros [Hr Hk]. exists r. split; [ exact Hr | ].
    apply in_map_iff. exists (DailyGHCNData.month_key r).
    split; [ reflexivity | ]. apply filter_In. split; [ exact Hk | ].
    now apply bool_decide_eq_true.
Qed.

(** The rows of the monthly frame: the summaries, each with the yearly
    columns of its station and year. *)
Lemma in_merge_yearly
    (data : list ((string * (Z * Z)) * MonthlyGHCNData.summary))
    (k : string * (Z * Z)) (m : MonthlyGHCNData.monthly) :
  In (k, m) (MonthlyGHCNData.merge_yearly data
               (MonthlyGHCNData.df_yearly data)) ->
  In (k, MonthlyGHCNData.of_month m) data /\
  let grp := get_group MonthlyGHCNData.id_year data
               (MonthlyGHCNData.id_year (k, MonthlyGHCNData.of_month m)) in
  MonthlyGHCNData.tmin_complete_year m
  = MonthlyGHCNData.year_complete
      (map (fun r => MonthlyGHCNData.tmin_complete (snd r)) grp) /\
  MonthlyGHCNData.tmax_complete_year m
  = MonthlyGHCNData.year_complete
      (map (fun r => MonthlyGHCNData.tmax_complete (snd r)) grp) /\
  MonthlyGHCNData.prcp_complete_year m
  = MonthlyGHCNData.year_complete
      (map (fun r => MonthlyGHCNData.prcp_complete (snd r)) grp).
Proof.
  unfold MonthlyGHCNData.merge_yearly. rewrite in_flat_map.
  intros ([k' s] & Hr & Hin). apply in_map_iff in Hin as (y & Ey & Hy).
  apply filter_In in Hy as [Hy E]. apply bool_decide_eq_true in E.
  unfold MonthlyGHCNData.df_yearly in Hy.
  apply in_map_iff in Hy as ([ky g] & <- & Hg).
  apply in_groupby in Hg as [_ ->]. simpl in E. subst ky.
  simpl in Ey. injection Ey as <- <-. simpl. auto.
Qed.

(** A sum of flags is at most their number, and reaches it only when
    all are set. *)
Lemma sum_flags (bs : list bool) :
  fold_right Z.add 0 (map Z.b2z bs) <= Z.of_nat (length bs) /\
  (fold_right Z.add 0 (map Z.b2z bs) = Z.of_nat (length bs) ->
   forall b, In b bs -> b = true).
Proof.
  induction bs as [ | b bs [IH1 IH2]]; [ split; [ reflexivity | intros _ ? [] ] | ].
  cbn [map fold_right length]. split.
  - destruct b; simpl Z.b2z; lia.
  - intros E b' [<- | Hb'].
    + destruct b; [ reflexivity | simpl Z.b2z in E; lia ].
    + apply IH2; [ | exact Hb' ]. destruct b; simpl Z.b2z in E; lia.
Qed.

Section month_frame.
Variable day : list DailyGHCNData.row.
Variable data : list ((string * (Z * Z)) * MonthlyGHCNData.summary).
Hypothesis Hdata : MonthlyGHCNData.summaries day = Returns data.

Lemma data_keys_NoDup : List.NoDup (map fst data).
Proof.
  rewrite (proj1 (summaries_Returns _ _ Hdata)). apply NoDup_group_keys.
Qed.

(** The month of a row of the summaries is a month of the calendar, and
    the flags of the row compare the counts of the month with its
    number of days. *)
Lemma data_row (k : string * (Z * Z)) (s : MonthlyGHCNData.summary) :
  In (k, s) data ->
  exists n, Calendar.monthrange (fst (snd k)) (snd (snd k)) = Returns n /\
    let g := get_group DailyGHCNData.month_key day k in
    g <> [] /\
    MonthlyGHCNData.prcp_complete s
    = (MonthlyGHCNData.count (map DailyGHCNData.prcp g) =? n) /\
    MonthlyGHCNData.tmin_complete s
    = (MonthlyGHCNData.count (map DailyGHCNData.tmin g) =? n) /\
    MonthlyGHCNData.tmax_complete s
    = (MonthlyGHCNData.count (map DailyGHCNData.tmax g) =? n).
Proof.
  intros Hin. apply (proj2 (summaries_Returns _ _ Hdata)) in Hin.
  destruct (monthly_summary_Returns _ _ Hin)
    as (r0 & n & s' & Hhd & Hn & [= <-] & Hflags).
  assert (Hr0 : In r0 (get_group DailyGHCNData.month_key day k)).
  { destruct (get_group _ day k); [ discriminate | ].
    injection Hhd as ->. now left. }
  pose proof Hr0 as Hne. apply in_get_group in Hr0 as [_ Hk].
  exists n. subst k. simpl. split; [ exact Hn | ].
  split; [ | exact Hflags ]. intros E. rewrite E in Hne. destruct Hne.
Qed.

(** The months of one station and year in the frame are at most twelve,
    and a yearly flag that is set tells that the flag of every one of
    them is set, and that they are twelve. *)
Lemma year_complete_all (flag : MonthlyGHCNData.summary -> bool)
    (iy : string * Z) :
  let grp := get_group MonthlyGHCNData.id_year data iy in
  MonthlyGHCNData.year_complete (map (fun r => flag (snd r)) grp) = true ->
  (forall r, In r grp -> flag (snd r) = true) /\
  forall mo, 1 <= mo <= 12 -> exists s, In ((fst iy, (snd iy, mo)), s) grp.
Proof.
  intros grp Hy. unfold MonthlyGHCNData.year_complete in Hy.
  apply Z.eqb_eq in Hy.
  assert (Hmonths : List.NoDup (map (fun r => snd (snd (fst r))) grp)).
  { apply Finite.Injective_map_NoDup_in.
    - intros [[i [y mo]] s] [[i' [y' mo']] s'] Hx Hx' E. simpl in E. subst mo'.
      apply in_get_group in Hx as [Hx Ex], Hx' as [Hx' Ex'].
      unfold MonthlyGHCNData.id_year in Ex, Ex'. simpl in Ex, Ex'.
      assert (Ek : (i, (y, mo)) = (i', (y', mo))) by congruence.
      injection Ek as <- <-.
      pose proof data_keys_NoDup as Hnd.
      apply (NoDup_map_inj fst data (i, (y, mo), s) (i, (y, mo), s'));
        auto.
    - unfold grp, get_group. apply List.NoDup_filter.
      eapply NoDup_map_inv. exact data_keys_NoDup. }
  assert (Hrange : forall x, In x (map (fun r => snd (snd (fst r))) grp) ->
                     1 <= x <= 12).
  { intros x Hx. apply in_map_iff in Hx as ([k s] & <- & Hin).
    apply in_get_group in Hin as [Hin _].
    destruct (data_row k s Hin) as (n & Hn & _).
    apply monthrange_Returns in Hn. simpl. lia. }
  destruct (distinct_in_range _ 12 Hmonths Hrange) as [Hlen Hall].
  rewrite length_map in Hlen, Hall.
  destruct (sum_flags (map (fun r => flag (snd r)) grp)) as [Hle Heq].
  rewrite length_map in Hle, Heq.
  assert (El : length grp = 12%nat) by lia.
  split.
  - intros r Hr. apply Heq; [ lia | ]. apply in_map_iff. eauto.
  - intros mo Hmo. specialize (Hall ltac:(lia) mo Hmo).
    apply in_map_iff in Hall as ([[i [y mo']] s] & E & Hin). simpl in E.
    subst mo'. exists s.
    pose proof Hin as Hk. apply in_get_group in Hk as [_ Hk].
    unfold MonthlyGHCNData.id_year in Hk. simpl in Hk. subst iy. exact Hin.
Qed.
End month_frame.

Lemma filter_length_all {A : Type} (f : A -> bool) (l : list A) :
  length (List.filter f l) = length l -> forall x, In x l -> f x = true.
Proof.
  induction l as [ | a l IH]; intros E x Hx; [ destruct Hx | ].
  simpl in E. pose proof (List.filter_length_le f l) as Hle.
  destruct (f a) eqn:Ea; simpl in E; [ | lia ].
  destruct Hx as [<- | Hx]; [ exact Ea | apply IH; [ lia | exact Hx ] ].
Qed.

(** A month whose count of a column equals its number of days: the
    column has no missing cell, and every day of the month has its
    row. *)
Lemma complete_column (col : DailyGHCNData.row -> npfloat)
    (g : list DailyGHCNData.row) (n : Z) :
  List.NoDup (map DailyGHCNData.day g) ->
  (forall r, In r g -> 1 <= DailyGHCNData.day r <= n) ->
  MonthlyGHCNData.count (map col g) = n ->
  (forall r, In r g -> Float.isnan (col r) = false) /\
  forall d, 1 <= d <= n -> exists r, In r g /\ DailyGHCNData.day r = d.
Proof.
  intros Hnd Hr Hc.
  destruct (distinct_in_range (map DailyGHCNData.day g) n Hnd) as [Hlen Hall].
  { intros x Hx. apply in_map_iff in Hx as (r & <- & Hin). now apply Hr. }
  rewrite length_map in Hlen, Hall.
  unfold MonthlyGHCNData.count, Float.dropna in Hc.
  pose proof (List.filter_length_le (fun x => negb (Float.isnan x))
                (map col g)) as Hle.
  rewrite length_map in Hle. split.
  - intros r Hin.
    assert (H : negb (Float.isnan (col r)) = true).
    { apply (filter_length_all (fun x => negb (Float.isnan x)) (map col g)).
      - rewrite length_map. lia.
      - now apply in_map. }
    now apply negb_true_iff in H.
  - intros d Hd. specialize (Hall ltac:(lia) d Hd).
    apply in_map_iff in Hall as (r & E & Hin). eauto.
Qed.

(** The days of one month of a frame with distinct index entries are
    distinct. *)
Lemma month_days_NoDup (day : list DailyGHCNData.row) (k : string * (Z * Z)) :
  List.NoDup (map DailyGHCNData.index day) ->
  List.NoDup (map DailyGHCNData.day
                  (get_group DailyGHCNData.month_key day k)).
Proof.
  intros Hnd. apply Finite.Injective_map_NoDup_in.
  - intros x y Hx Hy E. apply in_get_group in Hx as [Hx Kx], Hy as [Hy Ky].
    apply (NoDup_map_inj DailyGHCNData.index day x y Hnd Hx Hy).
    unfold DailyGHCNData.index. unfold DailyGHCNData.month_key in Kx, Ky.
    rewrite E. congruence.
  - unfold get_group. apply List.NoDup_filter.
    eapply NoDup_map_inv. exact Hnd.
Qed.

Section complete_months.
Variable day : list DailyGHCNData.row.
Variable monthly : list ((string * (Z * Z)) * MonthlyGHCNData.monthly).
Hypothesis Hsetup : MonthlyGHCNData.setup_from_scratch day = Returns monthly.

Lemma setup_data :
  exists data, MonthlyGHCNData.summaries day = Returns data /\
    monthly = MonthlyGHCNData.merge_yearly data
                (MonthlyGHCNData.df_yearly data).
Proof.
  unfold MonthlyGHCNData.setup_from_scratch in Hsetup.
  destruct (MonthlyGHCNData.summaries day) as [data | e]; [ | discriminate ].
  simpl in Hsetup. injection Hsetup as <-. eauto.
Qed.

(** Every summary has its row in the monthly frame. *)
Lemma merge_yearly_total
    (data : list ((string * (Z * Z)) * MonthlyGHCNData.summary))
    (k : string * (Z * Z)) (s : MonthlyGHCNData.summary) :
  In (k, s) data ->
  exists m, In (k, m) (MonthlyGHCNData.merge_yearly data
                         (MonthlyGHCNData.df_yearly data))
            /\ MonthlyGHCNData.of_month m = s.
Proof.
  intros Hin. unfold MonthlyGHCNData.merge_yearly.
  set (iy := MonthlyGHCNData.id_year (k, s)).
  assert (Hy : exists fl, In (iy, fl) (MonthlyGHCNData.df_yearly data)).
  { unfold MonthlyGHCNData.df_yearly. eexists. apply in_map_iff.
    exists (iy, get_group MonthlyGHCNData.id_year data iy).
    split; [ reflexivity | ]. apply in_groupby.
    split; [ | reflexivity ]. apply in_map_iff. eauto. }
  destruct Hy as ([[tn tx] pr] & Hy). eexists. split.
  - apply in_flat_map. exists (k, s). split; [ exact Hin | ].
    apply in_map_iff. exists (iy, (tn, tx, pr)). split; [ reflexivity | ].
    apply filter_In. split; [ exact Hy | now apply bool_decide_eq_true ].
  - reflexivity.
Qed.

(** In a complete year the three flags of every month of the station
    and year are set, and the twelve months have their summaries. *)
Lemma complete_year_flags
    (data : list ((string * (Z * Z)) * MonthlyGHCNData.summary))
    (k : string * (Z * Z)) (m : MonthlyGHCNData.monthly) :
  MonthlyGHCNData.summaries day = Returns data ->
  monthly = MonthlyGHCNData.merge_yearly data
              (MonthlyGHCNData.df_yearly data) ->
  In (k, m) monthly -> MonthlyGHCNData.complete_year m = true ->
  let grp := get_group MonthlyGHCNData.id_year data
               (fst k, fst (snd k)) in
  In (k, MonthlyGHCNData.of_month m) grp /\
  (forall r, In r grp ->
     MonthlyGHCNData.prcp_complete (snd r)
     && MonthlyGHCNData.tmin_complete (snd r)
     && MonthlyGHCNData.tmax_complete (snd r) = true) /\
  forall mo, 1 <= mo <= 12 ->
    exists s, In ((fst k, (fst (snd k), mo)), s) grp.
Proof.
  intros Hdata Em Hin Hy. rewrite Em in Hin.
  destruct (in_merge_yearly data k m Hin) as (Hs & Etn & Etx & Epr).
  unfold MonthlyGHCNData.complete_year in Hy.
  apply andb_true_iff in Hy as [Hy Htx]. apply andb_true_iff in Hy as [Hpr Htn].
  rewrite Epr in Hpr. rewrite Etn in Htn. rewrite Etx in Htx.
  change (MonthlyGHCNData.id_year (k, MonthlyGHCNData.of_month m))
    with (fst k, fst (snd k)) in *.
  destruct (year_complete_all day data Hdata MonthlyGHCNData.prcp_complete
              _ Hpr) as [Hp Hmonths].
  destruct (year_complete_all day data Hdata MonthlyGHCNData.tmin_complete
              _ Htn) as [Hn _].
  destruct (year_complete_all day data Hdata MonthlyGHCNData.tmax_complete
              _ Htx) as [Hx _].
  intros grp. split; [ | split ].
  - apply in_get_group. split; [ exact Hs | reflexivity ].
  - intros r Hr. now rewrite Hp, Hn, Hx.
  - exact Hmonths.
Qed.

(** In a complete year every month is complete. *)
Lemma complete_year_complete (k : string * (Z * Z))
    (m : MonthlyGHCNData.monthly) :
  In (k, m) monthly -> MonthlyGHCNData.complete_year m = true ->
  MonthlyGHCNData.complete m = true.
Proof.
  intros Hin Hy. destruct setup_data as (data & Hdata & Em).
  destruct (complete_year_flags data k m Hdata Em Hin Hy) as (Hg & Hall & _).
  exact (Hall _ Hg).
Qed.
End complete_months.

(** X13: in the monthly frame, a month of a year flagged complete
    for the three measurements is itself complete for them, and the
    frame holds the twelve months of that station and year, all of them
    complete. *)
Theorem complete_year_has_twelve_complete_months
    (day : list DailyGHCNData.row)
    (monthly : list ((string * (Z * Z)) * MonthlyGHCNData.monthly))
    (k : string * (Z * Z)) (m : MonthlyGHCNData.monthly) :
  MonthlyGHCNData.setup_from_scratch day = Returns monthly ->
  In (k, m) monthly -> MonthlyGHCNData.complete_year m = true ->
  MonthlyGHCNData.complete m = true /\
  forall mo, 1 <= mo <= 12 ->
    exists m', In ((fst k, (fst (snd k), mo)), m') monthly /\
               MonthlyGHCNData.complete m' = true.
Proof.
  intros Hsetup Hin Hy.
  destruct (setup_data day monthly Hsetup) as (data & Hdata & Em).
  destruct (complete_year_flags day monthly data k m Hdata Em Hin Hy)
    as (Hg & Hall & Hmonths).
  split; [ exact (Hall _ Hg) | ].
  intros mo Hmo. destruct (Hmonths mo Hmo) as (s & Hs).
  pose proof (Hall _ Hs) as Hc. apply in_get_group in Hs as [Hs _].
  destruct (merge_yearly_total data _ s Hs) as (m' & Hm' & Es).
  exists m'. rewrite Em. split; [ exact Hm' | ].
  unfold MonthlyGHCNData.complete. rewrite Es. exact Hc.
Qed.

(** X14: the frames of the tasks [yearly_cmonth] and [yearly_cday]
    are parts of the frames of [cmonth] and [cday]: the months of
    complete years are complete months. *)
Theorem yearly_complete_within_complete
    (day : list DailyGHCNData.row)
    (monthly : list ((string * (Z * Z)) * MonthlyGHCNData.monthly)) :
  MonthlyGHCNData.setup_from_scratch day = Returns monthly ->
  (forall x, In x (YearlyCompleteMonthlyGHCNData.setup_from_scratch monthly) ->
             In x (CompleteMonthlyGHCNData.setup_from_scratch monthly)) /\
  (forall r, In r (YearlyCompleteDailyGHCNData.setup_from_scratch day monthly) ->
             In r (CompleteDailyGHCNData.setup_from_scratch day monthly)).
Proof.
  intros H. split.
  - intros [k m] Hx.
    unfold YearlyCompleteMonthlyGHCNData.setup_from_scratch in Hx.
    apply filter_In in Hx as [Hin Hy]. apply filter_In. split; [ exact Hin | ].
    now apply (complete_year_complete day monthly H k m).
  - intros r Hr.
    unfold YearlyCompleteDailyGHCNData.setup_from_scratch in Hr.
    apply in_merge_months in Hr as [Hr Hk].
    apply in_merge_months. split; [ exact Hr | ].
    apply in_map_iff in Hk as ([k m] & E & Hk). simpl in E. subst k.
    apply filter_In in Hk as [Hin Hy]. apply in_map_iff.
    exists (DailyGHCNData.month_key r, m). split; [ reflexivity | ].
    apply filter_In. split; [ exact Hin | ].
    now apply (complete_year_complete day monthly H
                 (DailyGHCNData.month_key r) m).
Qed.

(** The rows of a complete month. *)
Lemma complete_month_rows (day : list DailyGHCNData.row)
    (monthly : list ((string * (Z * Z)) * MonthlyGHCNData.monthly))
    (k : string * (Z * Z)) (m : MonthlyGHCNData.monthly) :
  MonthlyGHCNData.setup_from_scratch day = Returns monthly ->
  List.NoDup (map DailyGHCNData.index day) ->
  (forall r, In r day -> calendar_day r) ->
  In (k, m) monthly -> MonthlyGHCNData.complete m = true ->
  exists n, Calendar.monthrange (fst (snd k)) (snd (snd k)) = Returns n /\
    (forall r, In r (get_group DailyGHCNData.month_key day k) ->
               no_missing r) /\
    forall d, 1 <= d <= n ->
      exists r, In r (get_group DailyGHCNData.month_key day k)
                /\ DailyGHCNData.day r = d.
Proof.
  intros Hsetup Hnd Hcal Hin Hc.
  destruct (setup_data day monthly Hsetup) as (data & Hdata & ->).
  destruct (in_merge_yearly data k m Hin) as (Hs & _).
  destruct (data_row day data Hdata k _ Hs) as (n & Hn & _ & Ep & Etn & Etx).
  unfold MonthlyGHCNData.complete in Hc.
  apply andb_true_iff in Hc as [Hc Htx]. apply andb_true_iff in Hc as [Hp Htn].
  rewrite Ep in Hp. rewrite Etn in Htn. rewrite Etx in Htx.
  apply Z.eqb_eq in Hp, Htn, Htx.
  set (g := get_group DailyGHCNData.month_key day k) in *.
  assert (Hdays : List.NoDup (map DailyGHCNData.day g))
    by now apply month_days_NoDup.
  assert (Hrange : forall r, In r g -> 1 <= DailyGHCNData.day r <= n).
  { intros r Hr. apply in_get_group in Hr as [Hr Hk].
    apply (Hcal r Hr). unfold DailyGHCNData.month_key in Hk. subst k.
    exact Hn. }
  destruct (complete_column DailyGHCNData.prcp g n Hdays Hrange Hp)
    as [Hnp Hall].
  destruct (complete_column DailyGHCNData.tmin g n Hdays Hrange Htn)
    as [Hnn _].
  destruct (complete_column DailyGHCNData.tmax g n Hdays Hrange Htx)
    as [Hnx _].
  exists n. split; [ exact Hn | split; [ | exact Hall ] ].
  intros r Hr. unfold no_missing. auto.
Qed.

Lemma in_cday (day : list DailyGHCNData.row)
    (monthly : list ((string * (Z * Z)) * MonthlyGHCNData.monthly))
    (r : DailyGHCNData.row) :
  In r (CompleteDailyGHCNData.setup_from_scratch day monthly) <->
  In r day /\ exists m, In (DailyGHCNData.month_key r, m) monthly
                        /\ MonthlyGHCNData.complete m = true.
Proof.
  unfold CompleteDailyGHCNData.setup_from_scratch. rewrite in_merge_months.
  rewrite in_map_iff. split.
  - intros [Hr ([k m] & E & Hk)]. simpl in E. subst k.
    apply filter_In in Hk as [Hin Hc]. eauto.
  - intros [Hr (m & Hin & Hc)]. split; [ exact Hr | ].
    exists (DailyGHCNData.month_key r, m). split; [ reflexivity | ].
    apply filter_In. auto.
Qed.

(** X15: when the index of the daily frame has no entry twice and
    every row is a day of the calendar, no row of the frame of [cday]
    has a missing precipitation, minimum or maximum temperature. *)
Theorem cday_has_no_missing_cell (day : list DailyGHCNData.row)
    (monthly : list ((string * (Z * Z)) * MonthlyGHCNData.monthly))
    (r : DailyGHCNData.row) :
  MonthlyGHCNData.setup_from_scratch day = Returns monthly ->
  List.NoDup (map DailyGHCNData.index day) ->
  (forall r, In r day -> calendar_day r) ->
  In r (CompleteDailyGHCNData.setup_from_scratch day monthly) ->
  no_missing r.
Proof.
  intros Hsetup Hnd Hcal Hr. apply in_cday in Hr as [Hr (m & Hin & Hc)].
  destruct (complete_month_rows day monthly _ m Hsetup Hnd Hcal Hin Hc)
    as (n & _ & Hall & _).
  apply Hall. apply in_get_group. auto.
Qed.

(** X16: under the same conditions the frame of [cday] holds whole
    months: with a row it holds a row for every day of the month of that
    row, from the first day to the last. *)
Theorem cday_holds_whole_months (day : list DailyGHCNData.row)
    (monthly : list ((string * (Z * Z)) * MonthlyGHCNData.monthly))
    (r : DailyGHCNData.row) :
  MonthlyGHCNData.setup_from_scratch day = Returns monthly ->
  List.NoDup (map DailyGHCNData.index day) ->
  (forall r, In r day -> calendar_day r) ->
  In r (CompleteDailyGHCNData.setup_from_scratch day monthly) ->
  exists n,
    Calendar.monthrange (DailyGHCNData.year r) (DailyGHCNData.month r)
    = Returns n /\
    forall d, 1 <= d <= n ->
      exists r', In r' (CompleteDailyGHCNData.setup_from_scratch day monthly)
                 /\ DailyGHCNData.month_key r' = DailyGHCNData.month_key r
                 /\ DailyGHCNData.day r' = d.
Proof.
  intros Hsetup Hnd Hcal Hr. apply in_cday in Hr as [Hr (m & Hin & Hc)].
  destruct (complete_month_rows day monthly _ m Hsetup Hnd Hcal Hin Hc)
    as (n & Hn & _ & Hdays).
  exists n. split; [ exact Hn | ]. intros d Hd.
  destruct (Hdays d Hd) as (r' & Hr' & Ed).
  apply in_get_group in Hr' as [Hr' Hk]. exists r'.
  split; [ | auto ]. apply in_cday. split; [ exact Hr' | ].
  exists m. rewrite Hk. auto.
Qed.

Lemma calendar_dayb_spec (r : DailyGHCNData.row) :
  calendar_dayb r = true -> calendar_day r.
Proof.
  unfold calendar_dayb, calendar_day. intros H n E. rewrite E in H.
  apply andb_true_iff in H as [H1 H2]. apply Z.leb_le in H1, H2. lia.
Qed.

Lemma complete_year_has_twelve_complete_months_witness :
  MonthlyGHCNData.complete
    (snd (first_row (("", (0, 0)),
                     MonthlyGHCNData.Monthly
                       (MonthlyGHCNData.Summary NaN NaN NaN NaN NaN NaN NaN
                          false false false 0) false false false)
                    ghcn_year_month_sample)) = true.
Proof.
  refine (proj1 (complete_year_has_twelve_complete_months ghcn_year_sample
                   ghcn_year_month_sample ("ST1"%string, (1991, 1)) _ _ _ _)).
  - vm_compute. reflexivity.
  - left. reflexivity.
  - reflexivity.
Defined.

Lemma yearly_complete_within_complete_witness :
  In (first_row (("", (0, 0)),
                 MonthlyGHCNData.Monthly
                   (MonthlyGHCNData.Summary NaN NaN NaN NaN NaN NaN NaN
                      false false false 0) false false false)
                (YearlyCompleteMonthlyGHCNData.setup_from_scratch
                   ghcn_year_month_sample))
     (CompleteMonthlyGHCNData.setup_from_scratch ghcn_year_month_sample).
Proof.
  refine (proj1 (yearly_complete_within_complete ghcn_year_sample
                   ghcn_year_month_sample _) _ _).
  - vm_compute. reflexivity.
  - vm_compute. left. reflexivity.
Defined.

Lemma ghcn_day_sample_ok :
  MonthlyGHCNData.setup_from_scratch ghcn_day_sample
  = Returns ghcn_month_sample /\
  List.NoDup (map DailyGHCNData.index ghcn_day_sample) /\
  (forall r, In r ghcn_day_sample -> calendar_day r) /\
  In (DailyGHCNData.Row "ST1" 1991 2 1 (Fin 1) (Fin (-1)) (Fin 1))
     (CompleteDailyGHCNData.setup_from_scratch ghcn_day_sample
        ghcn_month_sample).
Proof.
  split; [ vm_compute; reflexivity | split; [ | split ] ].
  - apply NoDup_ListNoDup. apply (bool_decide_unpack _). vm_compute.
    reflexivity.
  - intros r Hr. apply calendar_dayb_spec.
    assert (H : forallb calendar_dayb ghcn_day_sample = true)
      by (vm_compute; reflexivity).
    rewrite forallb_forall in H. now apply H.
  - vm_compute. left. reflexivity.
Qed.

Lemma cday_has_no_missing_cell_witness :
  no_missing (DailyGHCNData.Row "ST1" 1991 2 1 (Fin 1) (Fin (-1)) (Fin 1)).
Proof.
  destruct ghcn_day_sample_ok as (H1 & H2 & H3 & H4).
  exact (cday_has_no_missing_cell ghcn_day_sample ghcn_month_sample _
           H1 H2 H3 H4).
Defined.

Lemma cday_holds_whole_months_witness :
  exists n,
    Calendar.monthrange 1991 2 = Returns n /\
    forall d, 1 <= d <= n ->
      exists r', In r' (CompleteDailyGHCNData.setup_from_scratch
                          ghcn_day_sample ghcn_month_sample)
                 /\ DailyGHCNData.month_key r' = ("ST1"%string, (1991, 2))
                 /\ DailyGHCNData.day r' = d.
Proof.
  destruct ghcn_day_sample_ok as (H1 & H2 & H3 & H4).
  exact (cday_holds_whole_months ghcn_day_sample ghcn_month_sample _
           H1 H2 H3 H4).
Defined.

(** ** The run configuration of the tasks *)

Lemma copy_attrs_three (a : RunConfig.attrs) (k1 k2 k3 : string)
    (vinfo vinfo' : gmap string npfloat) :
  RunConfig.copy_attrs a [k1; k2; k3] vinfo = Returns vinfo' ->
  exists x1 x2 x3,
    a !! k1 = Some x1 /\ a !! k2 = Some x2 /\ a !! k3 = Some x3 /\
    vinfo' = <[k3 := x3]> (<[k2 := x2]> (<[k1 := x1]> vinfo)).
Proof.
  simpl. unfold RunConfig.getitem.
  destruct (a !! k1) as [x1 | ]; [ | discriminate ]. simpl.
  destruct (a !! k2) as [x2 | ]; [ | discriminate ]. simpl.
  destruct (a !! k3) as [x3 | ]; [ | discriminate ]. simpl.
  intros [= <-]. exists x1, x2, x3. auto.
Qed.

Lemma copy_attrs_two (a : RunConfig.attrs) (k1 k2 : string)
    (vinfo vinfo' : gmap string npfloat) :
  RunConfig.copy_attrs a [k1; k2] vinfo = Returns vinfo' ->
  exists x1 x2,
    a !! k1 = Some x1 /\ a !! k2 = Some x2 /\
    vinfo' = <[k2 := x2]> (<[k1 := x1]> vinfo).
Proof.
  simpl. unfold RunConfig.getitem.
  destruct (a !! k1) as [x1 | ]; [ | discriminate ]. simpl.
  destruct (a !! k2) as [x2 | ]; [ | discriminate ]. simpl.
  intros [= <-]. exists x1, x2. auto.
Qed.

(** What one round of the loop of the temperature task stores. *)
Lemma temperature_body (sp : string -> option RunConfig.attrs)
    (i : RunConfig.info) (nml : RunConfig.namelist)
    (v t state : string) (acc : RunConfig.info * RunConfig.namelist) :
  RunConfig.Temperature.body sp (i, nml) (v, t, state) = Returns acc ->
  exists a r s c s0,
    RunConfig.first_char state = Returns s0 /\
    sp (v +:+ t +:+ "_" +:+ state) = Some a /\
    a !! "rsquared"%string = Some r /\ a !! "slope"%string = Some s /\
    a !! "intercept"%string = Some c /\
    let nml_name :=
      v +:+ (if String.eqb t "" then "" else "_sd") +:+ "_" +:+ s0 in
    acc = (<[v +:+ t +:+ "_" +:+ state :=
               <["intercept"%string := c]>
                 (<["slope"%string := s]>
                    (<["rsquared"%string := r]>
                       (default ∅ (i !! (v +:+ t +:+ "_" +:+ state)))))]> i,
           <[nml_name +:+ "2" := ModelOrganizer.NmlFloat s]>
             (<[nml_name +:+ "1" := ModelOrganizer.NmlFloat c]> nml)).
Proof.
  unfold RunConfig.Temperature.body.
  destruct (RunConfig.first_char state) as [s0 | ]; [ | discriminate ].
  cbn [bind_outcome].
  destruct (sp _) as [a | ]; [ | discriminate ].
  destruct (RunConfig.copy_attrs a _ _) as [vinfo | ] eqn:E; [ | discriminate ].
  apply copy_attrs_three in E as (r & s & c & Hr & Hs & Hc & ->).
  cbn [bind_outcome]. unfold RunConfig.get_float, RunConfig.get_or_zero.
  rewrite Hs, Hc. cbn [bind_outcome default]. intros [= <-].
  exists a, r, s, c, s0. auto 10.
Qed.

Ltac lookup_inserts :=
  repeat first [ rewrite lookup_insert_eq
               | rewrite lookup_insert_ne by discriminate ].

Ltac temperature_round H :=
  let acc := fresh "acc" in
  let E := fresh "E" in
  let a := fresh "a" in let r := fresh "r" in let s := fresh "s" in
  let c := fresh "c" in let s0 := fresh "s0" in
  let Hs0 := fresh "Hs0" in let Hsp := fresh "Hsp" in
  let Hr := fresh "Hr" in let Hs := fresh "Hs" in let Hc := fresh "Hc" in
  match type of H with
  | bind_outcome (RunConfig.Temperature.body ?sp (?i, ?n) ?it) _ = _ =>
      destruct (RunConfig.Temperature.body sp (i, n) it) as [acc | ] eqn:E;
      [ | discriminate H ];
      apply temperature_body in E
        as (a & r & s & c & s0 & Hs0 & Hsp & Hr & Hs & Hc & E);
      cbn in Hs0; injection Hs0 as <-;
      cbv [String.append String.eqb Ascii.eqb Bool.eqb] in E, Hsp;
      repeat rewrite lookup_insert_ne in E by discriminate;
      subst acc; cbn [bind_outcome RunConfig.for_each] in H
  end.

(** X17: when [make_run_config] of the temperature task returns, the
    namelist [weathergen_ctl] holds under every key of [namelist_keys]
    the value that the task information holds at the path declared for
    the key, which is that attribute of the fit of the plotter of that
    name; every other key of the namelist is as before. *)
Theorem temperature_namelist_as_declared
    (sp : string -> option RunConfig.attrs) (i i' : RunConfig.info)
    (full_nml full_nml' : gmap string RunConfig.namelist) :
  RunConfig.Temperature.make_run_config sp i full_nml
  = Returns (i', full_nml') ->
  (forall key path, In (key, path) RunConfig.Temperature.namelist_keys ->
     exists vname attr a x,
       path = vname +:+ "." +:+ attr /\
       sp vname = Some a /\ a !! attr = Some x /\
       info_at i' vname attr = Some x /\
       ctl_at full_nml' key = Some (ModelOrganizer.NmlFloat x)) /\
  (forall key, ~ In key (map fst RunConfig.Temperature.namelist_keys) ->
     ctl_at full_nml' key = ctl_at full_nml key).
Proof.
  unfold RunConfig.Temperature.make_run_config. intros H0.
  destruct (RunConfig.for_each _ _ _) as [[i1 nml1] | ] eqn:H;
    [ | discriminate H0 ].
  cbn [bind_outcome fst snd] in H0. injection H0 as <- <-.
  cbn [RunConfig.product3 flat_map map app RunConfig.for_each] in H.
  do 8 temperature_round H.
  injection H as <- <-.
  split.
  - intros key path Hin. unfold RunConfig.Temperature.namelist_keys in Hin.
    unfold info_at, ctl_at, RunConfig.with_ctl.
    rewrite lookup_insert_eq. cbn [mbind option_bind].
    repeat (destruct Hin as [[= <- <-] | Hin];
      [ match goal with
        | |- exists _ _ _ _, (?p = _) /\ _ =>
            first
              [ exists "tmin_wet"%string, "intercept"%string; eexists; eexists;
                split; [ reflexivity | ]
              | exists "tmin_wet"%string, "slope"%string; eexists; eexists;
                split; [ reflexivity | ]
              | exists "tmin_dry"%string, "intercept"%string; eexists; eexists;
                split; [ reflexivity | ]
              | exists "tmin_dry"%string, "slope"%string; eexists; eexists;
                split; [ reflexivity | ]
              | exists "tminstddev_wet"%string, "intercept"%string; eexists;
                eexists; split; [ reflexivity | ]
              | exists "tminstddev_wet"%string, "slope"%string; eexists;
                eexists; split; [ reflexivity | ]
              | exists "tminstddev_dry"%string, "intercept"%string; eexists;
                eexists; split; [ reflexivity | ]
              | exists "tminstddev_dry"%string, "slope"%string; eexists;
                eexists; split; [ reflexivity | ]
              | exists "tmax_wet"%string, "intercept"%string; eexists; eexists;
                split; [ reflexivity | ]
              | exists "tmax_wet"%string, "slope"%string; eexists; eexists;
                split; [ reflexivity | ]
              | exists "tmax_dry"%string, "intercept"%string; eexists; eexists;
                split; [ reflexivity | ]
              | exists "tmax_dry"%string, "slope"%string; eexists; eexists;
                split; [ reflexivity | ]
              | exists "tmaxstddev_wet"%string, "intercept"%string; eexists;
                eexists; split; [ reflexivity | ]
              | exists "tmaxstddev_wet"%string, "slope"%string; eexists;
                eexists; split; [ reflexivity | ]
              | exists "tmaxstddev_dry"%string, "intercept"%string; eexists;
                eexists; split; [ reflexivity | ]
              | exists "tmaxstddev_dry"%string, "slope"%string; eexists;
                eexists; split; [ reflexivity | ] ]
        end;
        split; [ eassumption | ];
        split; [ eassumption | ];
        split; lookup_inserts; cbn [mbind option_bind]; lookup_inserts;
        reflexivity
      | ]).
    destruct Hin.
  - intros key Hkey. unfold ctl_at, RunConfig.with_ctl, RunConfig.ctl.
    rewrite lookup_insert_eq. cbn [mbind option_bind default].
    assert (E : forall n : RunConfig.namelist,
              (full_nml !! "weathergen_ctl"%string ≫= fun nml => nml !! key)
              = default ∅ (full_nml !! "weathergen_ctl"%string) !! key).
    { intros _. destruct (full_nml !! "weathergen_ctl"%string); reflexivity. }
    rewrite (E ∅).
    cbn [map fst RunConfig.Temperature.namelist_keys In] in Hkey.
    assert (Hne : forall k, In k (map fst RunConfig.Temperature.namelist_keys)
                    -> k <> key).
    { intros k Hk ->. contradiction. }
    cbn [map fst RunConfig.Temperature.namelist_keys] in Hne.
    rewrite !lookup_insert_ne by (apply Hne; simpl; tauto). reflexivity.
Qed.

Lemma temperature_namelist_as_declared_witness :
  exists vname attr a x,
    "tmin_wet.intercept"%string = vname +:+ "." +:+ attr /\
    sp_sample vname = Some a /\ a !! attr = Some x /\
    info_at (fst temperature_run_sample) vname attr = Some x /\
    ctl_at (snd temperature_run_sample) "tmin_w1"
    = Some (ModelOrganizer.NmlFloat x).
Proof.
  apply (proj1 (temperature_namelist_as_declared sp_sample ∅
                  (fst temperature_run_sample) ∅
                  (snd temperature_run_sample) eq_refl)).
  left. reflexivity.
Defined.

(** What one round of the loop of the cloud task stores. *)
Lemma cloud_body (sp : string -> option RunConfig.attrs)
    (i : RunConfig.info) (nml : RunConfig.namelist)
    (t state : string) (acc : RunConfig.info * RunConfig.namelist) :
  RunConfig.Cloud.body sp (i, nml) (t, state) = Returns acc ->
  exists a x e,
    sp (t +:+ "_cloud_" +:+ state) = Some a /\
    a !! "a"%string = Some x /\ a !! "a_err"%string = Some e /\
    acc = (<[t +:+ "_cloud_" +:+ state :=
               <["a_err"%string := e]> (<["a"%string := x]> ∅)]> i,
           <["cldf" +:+ (if String.eqb t "sd" then "_sd" else "") +:+ "_"
             +:+ RunConfig.up_to_one state := ModelOrganizer.NmlFloat x]> nml).
Proof.
  unfold RunConfig.Cloud.body.
  destruct (sp _) as [a | ]; [ | discriminate ].
  destruct (RunConfig.copy_attrs a _ _) as [vinfo | ] eqn:E; [ | discriminate ].
  apply copy_attrs_two in E as (x & e & Hx & He & ->).
  cbn [bind_outcome]. unfold RunConfig.get_or_zero. rewrite Hx.
  cbn [default]. intros [= <-]. exists a, x, e. auto.
Qed.

Ltac cloud_round H :=
  let acc := fresh "acc" in
  let E := fresh "E" in
  let a := fresh "a" in let x := fresh "x" in let e := fresh "e" in
  let Hsp := fresh "Hsp" in let Hx := fresh "Hx" in let He := fresh "He" in
  match type of H with
  | bind_outcome (RunConfig.Cloud.body ?sp (?i, ?n) ?it) _ = _ =>
      destruct (RunConfig.Cloud.body sp (i, n) it) as [acc | ] eqn:E;
      [ | discriminate H ];
      apply cloud_body in E as (a & x & e & Hsp & Hx & He & E);
      cbv [String.append String.eqb Ascii.eqb Bool.eqb RunConfig.up_to_one]
        in E, Hsp;
      subst acc; cbn [bind_outcome RunConfig.for_each] in H
  end.

(** X18: when [make_run_config] of the cloud task returns, the
    namelist [weathergen_ctl] holds under every key of [namelist_keys]
    the value that the task information holds at the path declared for
    the key, the parameter [a] of the fit of that name, and the task
    information holds the error of the parameter at the path that
    [error_keys] declares for the key; every other key of the namelist
    is as before. *)
Theorem cloud_namelist_as_declared
    (sp : string -> option RunConfig.attrs) (i i' : RunConfig.info)
    (full_nml full_nml' : gmap string RunConfig.namelist) :
  RunConfig.Cloud.make_run_config sp i full_nml = Returns (i', full_nml') ->
  (forall key path, In (key, path) RunConfig.Cloud.namelist_keys ->
     exists vname a x e,
       path = vname +:+ ".a" /\
       In (key, vname +:+ ".a_err") RunConfig.Cloud.error_keys /\
       sp vname = Some a /\
       a !! "a"%string = Some x /\ a !! "a_err"%string = Some e /\
       info_at i' vname "a" = Some x /\
       info_at i' vname "a_err" = Some e /\
       ctl_at full_nml' key = Some (ModelOrganizer.NmlFloat x)) /\
  (forall key, ~ In key (map fst RunConfig.Cloud.namelist_keys) ->
     ctl_at full_nml' key = ctl_at full_nml key).
Proof.
  unfold RunConfig.Cloud.make_run_config. intros H0.
  destruct (RunConfig.for_each _ _ _) as [[i1 nml1] | ] eqn:H;
    [ | discriminate H0 ].
  cbn [bind_outcome fst snd] in H0. injection H0 as <- <-.
  cbn [RunConfig.product2 flat_map map app RunConfig.for_each] in H.
  do 4 cloud_round H.
  injection H as <- <-.
  split.
  - intros key path Hin. unfold RunConfig.Cloud.namelist_keys in Hin.
    unfold info_at, ctl_at, RunConfig.with_ctl.
    rewrite lookup_insert_eq. cbn [mbind option_bind].
    repeat (destruct Hin as [[= <- <-] | Hin];
      [ first [ exists "mean_cloud_wet"%string; eexists; eexists; eexists;
                split; [ reflexivity | ]
              | exists "mean_cloud_dry"%string; eexists; eexists; eexists;
                split; [ reflexivity | ]
              | exists "sd_cloud_wet"%string; eexists; eexists; eexists;
                split; [ reflexivity | ]
              | exists "sd_cloud_dry"%string; eexists; eexists; eexists;
                split; [ reflexivity | ] ];
        split; [ cbv [String.append]; simpl; tauto | ];
        split; [ eassumption | ];
        split; [ eassumption | ];
        split; [ eassumption | ];
        repeat split; lookup_inserts; cbn [mbind option_bind];
        lookup_inserts; reflexivity
      | ]).
    destruct Hin.
  - intros key Hkey. unfold ctl_at, RunConfig.with_ctl, RunConfig.ctl.
    rewrite lookup_insert_eq. cbn [mbind option_bind default].
    assert (Hne : forall k, In k (map fst RunConfig.Cloud.namelist_keys)
                    -> k <> key).
    { intros k Hk ->. contradiction. }
    cbn [map fst RunConfig.Cloud.namelist_keys] in Hne.
    rewrite !lookup_insert_ne by (apply Hne; simpl; tauto).
    destruct (full_nml !! "weathergen_ctl"%string); reflexivity.
Qed.

Lemma cloud_namelist_as_declared_witness :
  exists vname a x e,
    "sd_cloud_dry.a"%string = vname +:+ ".a" /\
    In ("cldf_sd_d"%string, vname +:+ ".a_err") RunConfig.Cloud.error_keys /\
    sp_sample vname = Some a /\
    a !! "a"%string = Some x /\ a !! "a_err"%string = Some e /\
    info_at (fst cloud_run_sample) vname "a" = Some x /\
    info_at (fst cloud_run_sample) vname "a_err" = Some e /\
    ctl_at (snd cloud_run_sample) "cldf_sd_d"
    = Some (ModelOrganizer.NmlFloat x).
Proof.
  apply (proj1 (cloud_namelist_as_declared sp_sample ∅
                  (fst cloud_run_sample) ∅ (snd cloud_run_sample) eq_refl)).
  right. right. right. left. reflexivity.
Defined.

(** What the two loops of the Markov chain task store for one
    plotter. *)
Lemma markov_info_body (i i2 : RunConfig.info) (name : string)
    (a : RunConfig.attrs) :
  RunConfig.Markov.info_body i (name, a) = Returns i2 ->
  exists r s c,
    a !! "rsquared"%string = Some r /\ a !! "slope"%string = Some s /\
    a !! "intercept"%string = Some c /\
    i2 = <[name := <["intercept"%string := c]>
                     (<["slope"%string := s]>
                        (<["rsquared"%string := r]> ∅))]> i.
Proof.
  unfold RunConfig.Markov.info_body. cbn [fst snd].
  destruct (RunConfig.copy_attrs a _ _) as [d | ] eqn:E; [ | discriminate ].
  apply copy_attrs_three in E as (r & s & c & Hr & Hs & Hc & ->).
  cbn [bind_outcome]. intros [= <-]. exists r, s, c. auto.
Qed.

Lemma markov_nml_body (nml nml2 : RunConfig.namelist) (name : string)
    (a : RunConfig.attrs) (s c : npfloat) :
  a !! "slope"%string = Some s -> a !! "intercept"%string = Some c ->
  RunConfig.Markov.nml_body nml (name, a) = Returns nml2 ->
  nml2 = <[name +:+ "_2" := ModelOrganizer.NmlFloat s]>
           (<[name +:+ "_1" := ModelOrganizer.NmlFloat c]> nml).
Proof.
  intros Hs Hc. unfold RunConfig.Markov.nml_body. cbn [fst snd].
  unfold RunConfig.get_float, RunConfig.get_or_zero. rewrite Hs, Hc.
  cbn [bind_outcome default]. now intros [= <-].
Qed.

(** X19: when [make_run_config] of the Markov chain task returns for
    the plotters of the three variables that [create_project] asks for,
    the keys of [namelist_keys] are exactly what it stores in the
    namelist [weathergen_ctl]: under [name_1] the intercept and under
    [name_2] the slope of the fit of the plotter [name], the values
    that the task information holds for it; every other key of the
    namelist is as before. *)
Theorem markov_namelist_as_declared
    (plotters : list (string * RunConfig.attrs)) (i i' : RunConfig.info)
    (full_nml full_nml' : gmap string RunConfig.namelist) :
  map fst plotters = RunConfig.Markov.project_names ->
  RunConfig.Markov.make_run_config plotters i full_nml
  = Returns (i', full_nml') ->
  (forall key, In key RunConfig.Markov.namelist_keys ->
     exists name a attr x,
       In (name, a) plotters /\
       ((key = name +:+ "_1" /\ attr = "intercept"%string) \/
        (key = name +:+ "_2" /\ attr = "slope"%string)) /\
       a !! attr = Some x /\ info_at i' name attr = Some x /\
       ctl_at full_nml' key = Some (ModelOrganizer.NmlFloat x)) /\
  (forall key, ~ In key RunConfig.Markov.namelist_keys ->
     ctl_at full_nml' key = ctl_at full_nml key).
Proof.
  intros Hnames H0.
  destruct plotters as [ | [n1 a1] [ | [n2 a2] [ | [n3 a3] [ | ? ?]]]];
    try discriminate Hnames.
  injection Hnames as -> -> ->.
  unfold RunConfig.Markov.make_run_config in H0.
  destruct (RunConfig.for_each RunConfig.Markov.info_body _ _)
    as [i1 | ] eqn:Hi; [ | discriminate H0 ].
  cbn [bind_outcome] in H0.
  destruct (RunConfig.for_each RunConfig.Markov.nml_body _ _)
    as [nml1 | ] eqn:Hn; [ | discriminate H0 ].
  cbn [bind_outcome] in H0. injection H0 as <- <-.
  cbn [RunConfig.for_each] in Hi, Hn.
  destruct (RunConfig.Markov.info_body i _) as [j1 | ] eqn:E1;
    [ | discriminate Hi ].
  apply markov_info_body in E1 as (r1 & s1 & c1 & Hr1 & Hs1 & Hc1 & ->).
  cbn [bind_outcome] in Hi.
  destruct (RunConfig.Markov.info_body _ _) as [j2 | ] eqn:E2;
    [ | discriminate Hi ].
  apply markov_info_body in E2 as (r2 & s2 & c2 & Hr2 & Hs2 & Hc2 & ->).
  cbn [bind_outcome] in Hi.
  destruct (RunConfig.Markov.info_body _ _) as [j3 | ] eqn:E3;
    [ | discriminate Hi ].
  apply markov_info_body in E3 as (r3 & s3 & c3 & Hr3 & Hs3 & Hc3 & ->).
  cbn [bind_outcome] in Hi. injection Hi as <-.
  destruct (RunConfig.Markov.nml_body (RunConfig.ctl full_nml) _)
    as [m1 | ] eqn:F1; [ | discriminate Hn ].
  apply (markov_nml_body _ _ _ _ s1 c1 Hs1 Hc1) in F1 as ->.
  cbn [bind_outcome] in Hn.
  destruct (RunConfig.Markov.nml_body _ _) as [m2 | ] eqn:F2;
    [ | discriminate Hn ].
  apply (markov_nml_body _ _ _ _ s2 c2 Hs2 Hc2) in F2 as ->.
  cbn [bind_outcome] in Hn.
  destruct (RunConfig.Markov.nml_body _ _) as [m3 | ] eqn:F3;
    [ | discriminate Hn ].
  apply (markov_nml_body _ _ _ _ s3 c3 Hs3 Hc3) in F3 as ->.
  cbn [bind_outcome] in Hn. injection Hn as <-.
  cbv [String.append].
  split.
  - intros key Hin. unfold RunConfig.Markov.namelist_keys in Hin.
    unfold info_at, ctl_at, RunConfig.with_ctl.
    rewrite lookup_insert_eq. cbn [mbind option_bind].
    assert (P1 : In ("p11"%string, a1)
                    [("p11"%string, a1); ("p101"%string, a2);
                     ("p001"%string, a3)]) by (simpl; tauto).
    assert (P2 : In ("p101"%string, a2)
                    [("p11"%string, a1); ("p101"%string, a2);
                     ("p001"%string, a3)]) by (simpl; tauto).
    assert (P3 : In ("p001"%string, a3)
                    [("p11"%string, a1); ("p101"%string, a2);
                     ("p001"%string, a3)]) by (simpl; tauto).
    destruct Hin as [<- | [<- | [<- | [<- | [<- | [<- | []]]]]]].
    + exists "p101"%string, a2, "intercept"%string, c2.
      split; [ exact P2 | split; [ left; split; reflexivity | ] ].
      split; [ exact Hc2 | ]. split; lookup_inserts; cbn [mbind option_bind];
        lookup_inserts; reflexivity.
    + exists "p001"%string, a3, "intercept"%string, c3.
      split; [ exact P3 | split; [ left; split; reflexivity | ] ].
      split; [ exact Hc3 | ]. split; lookup_inserts; cbn [mbind option_bind];
        lookup_inserts; reflexivity.
    + exists "p001"%string, a3, "slope"%string, s3.
      split; [ exact P3 | split; [ right; split; reflexivity | ] ].
      split; [ exact Hs3 | ]. split; lookup_inserts; cbn [mbind option_bind];
        lookup_inserts; reflexivity.
    + exists "p11"%string, a1, "intercept"%string, c1.
      split; [ exact P1 | split; [ left; split; reflexivity | ] ].
      split; [ exact Hc1 | ]. split; lookup_inserts; cbn [mbind option_bind];
        lookup_inserts; reflexivity.
    + exists "p11"%string, a1, "slope"%string, s1.
      split; [ exact P1 | split; [ right; split; reflexivity | ] ].
      split; [ exact Hs1 | ]. split; lookup_inserts; cbn [mbind option_bind];
        lookup_inserts; reflexivity.
    + exists "p101"%string, a2, "slope"%string, s2.
      split; [ exact P2 | split; [ right; split; reflexivity | ] ].
      split; [ exact Hs2 | ]. split; lookup_inserts; cbn [mbind option_bind];
        lookup_inserts; reflexivity.
  - intros key Hkey. unfold ctl_at, RunConfig.with_ctl, RunConfig.ctl.
    rewrite lookup_insert_eq. cbn [mbind option_bind default].
    assert (Hne : forall k, In k RunConfig.Markov.namelist_keys -> k <> key).
    { intros k Hk ->. contradiction. }
    cbn [RunConfig.Markov.namelist_keys] in Hne.
    rewrite !lookup_insert_ne by (apply Hne; simpl; tauto).
    destruct (full_nml !! "weathergen_ctl"%string); reflexivity.
Qed.

Lemma markov_namelist_as_declared_witness :
  exists name a attr x,
    In (name, a) plotters_sample /\
    (("p11_1"%string = name +:+ "_1" /\ attr = "intercept"%string) \/
     ("p11_1"%string = name +:+ "_2" /\ attr = "slope"%string)) /\
    a !! attr = Some x /\ info_at (fst markov_run_sample) name attr = Some x /\
    ctl_at (snd markov_run_sample) "p11_1" = Some (ModelOrganizer.NmlFloat x).
Proof.
  apply (proj1 (markov_namelist_as_declared plotters_sample ∅
                  (fst markov_run_sample) ∅ (snd markov_run_sample)
                  eq_refl eq_refl)).
  right. right. right. left. reflexivity.
Defined.

(** ** The task of a namelist key *)

(** X20: every namelist key that a task class declares is attributed
    by [get_task_for_nml_key] to that class: no two classes of the
    registry declare the same key, so the search from the last
    registered class backwards never meets another class first; a key
    that no class declares raises [KeyError]. *)
Theorem nml_key_has_one_task (para_cls : Registry.descriptor)
    (nml_key : string) :
  (In para_cls Registry.registry ->
   In nml_key (Parameterizer.namelist_keys (Registry.name para_cls)) ->
   Parameterizer.get_task_for_nml_key Registry.registry nml_key
   = Returns para_cls) /\
  ((forall cls, In cls Registry.registry ->
      ~ In nml_key (Parameterizer.namelist_keys (Registry.name cls))) ->
   Parameterizer.get_task_for_nml_key Registry.registry nml_key
   = Raises KeyError).
Proof.
  split.
  - intros Hcls Hkey.
    assert (Hall : forallb (fun cls =>
              forallb (fun key =>
                 bool_decide (Parameterizer.get_task_for_nml_key
                                Registry.registry key = Returns cls))
                (Parameterizer.namelist_keys (Registry.name cls)))
              Registry.registry = true) by (vm_compute; reflexivity).
    rewrite forallb_forall in Hall. specialize (Hall _ Hcls).
    rewrite forallb_forall in Hall. specialize (Hall _ Hkey).
    now apply bool_decide_eq_true in Hall.
  - intros Hnone. unfold Parameterizer.get_task_for_nml_key.
    destruct (List.find _ _) as [cls | ] eqn:E; [ | reflexivity ].
    apply find_some in E as [Hin Hk]. apply bool_decide_eq_true in Hk.
    exfalso. apply (Hnone cls); [ now apply in_rev | now apply list_elem_of_In ].
Qed.

Lemma nml_key_has_one_task_witness :
  Parameterizer.get_task_for_nml_key Registry.registry "cldf_sd_w"
  = Returns (Registry.task "cloud" ["cmonthly_cloud"%string] true) /\
  Parameterizer.get_task_for_nml_key Registry.registry "nprocs"
  = Raises KeyError.
Proof.
  split.
  - apply (proj1 (nml_key_has_one_task _ "cldf_sd_w")).
    + unfold Registry.registry. simpl. tauto.
    + simpl. tauto.
  - apply (proj2 (nml_key_has_one_task
                    (Registry.task "cloud" ["cmonthly_cloud"%string] true)
                    "nprocs")).
    intros cls Hcls Hk. unfold Registry.registry in Hcls. simpl in Hcls.
    repeat (destruct Hcls as [<- | Hcls];
            [ vm_compute in Hk; intuition discriminate | ]).
    destruct Hcls.
Defined.

(** ** The other columns of the daily cloud frame *)

Lemma ltb_Fin (a b : Q) : Float.ltb (Fin a) (Fin b) = true <-> (a < b)%Q.
Proof.
  unfold Float.ltb. rewrite Qlt_alt. destruct (a ?= b)%Q; split; congruence.
Qed.

Lemma leb_Fin (a b : Q) : Float.leb (Fin a) (Fin b) = true <-> (a <= b)%Q.
Proof.
  unfold Float.leb. rewrite orb_true_iff, ltb_Fin. unfold Float.eqb.
  rewrite Qeq_bool_iff. split.
  - intros [H | H]; [ now apply Qlt_le_weak | rewrite H; apply Qle_refl ].
  - intros H. apply Qle_lteq in H. tauto.
Qed.

Lemma leb_refl (x : npfloat) : Float.isnan x = false -> Float.leb x x = true.
Proof.
  destruct x as [q | | | ]; try reflexivity; [ | discriminate ].
  intros _. apply leb_Fin. apply Qle_refl.
Qed.

Lemma leb_trans (x y z : npfloat) :
  Float.leb x y = true -> Float.leb y z = true -> Float.leb x z = true.
Proof.
  destruct x as [a | | | ], y as [b | | | ], z as [c | | | ];
    try reflexivity; try discriminate.
  rewrite !leb_Fin. apply Qle_trans.
Qed.

Lemma leb_total (x y : npfloat) :
  Float.isnan x = false -> Float.isnan y = false ->
  Float.ltb y x = true \/ Float.leb x y = true.
Proof.
  destruct x as [a | | | ], y as [b | | | ]; try discriminate; intros _ _;
    try (now left); try (now right).
  rewrite ltb_Fin, leb_Fin. destruct (Qlt_le_dec b a); auto.
Qed.

Lemma ltb_leb (x y : npfloat) : Float.ltb x y = true -> Float.leb x y = true.
Proof. unfold Float.leb. now intros ->. Qed.

Lemma fmin_spec (x y : npfloat) :
  Float.isnan x = false -> Float.isnan y = false ->
  Float.isnan (Float.fmin x y) = false /\
  Float.leb (Float.fmin x y) x = true /\ Float.leb (Float.fmin x y) y = true.
Proof.
  intros Hx Hy. unfold Float.fmin.
  destruct (Float.ltb y x) eqn:E.
  - split; [ exact Hy | split; [ now apply ltb_leb | now apply leb_refl ] ].
  - split; [ exact Hx | split; [ now apply leb_refl | ] ].
    destruct (leb_total x y Hx Hy) as [H | H]; [ congruence | exact H ].
Qed.

Lemma fmax_spec (x y : npfloat) :
  Float.isnan x = false -> Float.isnan y = false ->
  Float.isnan (Float.fmax x y) = false /\
  Float.leb x (Float.fmax x y) = true /\ Float.leb y (Float.fmax x y) = true.
Proof.
  intros Hx Hy. unfold Float.fmax.
  destruct (Float.ltb x y) eqn:E.
  - split; [ exact Hy | split; [ now apply ltb_leb | now apply leb_refl ] ].
  - split; [ exact Hx | split; [ now apply leb_refl | ] ].
    destruct (leb_total y x Hy Hx) as [H | H]; [ congruence | exact H ].
Qed.

(** The minimum of the cells read so far stays below the first. *)
Lemma fold_fmin_le (r : list npfloat) (x : npfloat) :
  Float.isnan x = false -> Forall (fun y => Float.isnan y = false) r ->
  Float.isnan (fold_left Float.fmin r x) = false /\
  Float.leb (fold_left Float.fmin r x) x = true.
Proof.
  intros Hx Hr. revert x Hx.
  induction Hr as [ | y r Hy Hr IH]; intros x Hx.
  - split; [ exact Hx | now apply leb_refl ].
  - simpl. destruct (fmin_spec x y Hx Hy) as (Hn & Hlx & _).
    destruct (IH _ Hn) as [Hn' Hle]. split; [ exact Hn' | ].
    eapply leb_trans; eauto.
Qed.

Lemma fold_fmax_ge (r : list npfloat) (x : npfloat) :
  Float.isnan x = false -> Forall (fun y => Float.isnan y = false) r ->
  Float.isnan (fold_left Float.fmax r x) = false /\
  Float.leb x (fold_left Float.fmax r x) = true.
Proof.
  intros Hx Hr. revert x Hx.
  induction Hr as [ | y r Hy Hr IH]; intros x Hx.
  - split; [ exact Hx | now apply leb_refl ].
  - simpl. destruct (fmax_spec x y Hx Hy) as (Hn & Hlx & _).
    destruct (IH _ Hn) as [Hn' Hle]. split; [ exact Hn' | ].
    eapply leb_trans; eauto.
Qed.

Lemma dropna_not_nan (xs : list npfloat) :
  Forall (fun y => Float.isnan y = false) (Float.dropna xs).
Proof.
  apply Forall_forall. intros y Hy. apply list_elem_of_In in Hy.
  unfold Float.dropna in Hy. apply filter_In in Hy as [_ Hy].
  now apply negb_true_iff in Hy.
Qed.

(** [series.min()] and [series.max()] are both missing, or both are
    values with the minimum not above the maximum. *)
Lemma series_min_le_max (xs : list npfloat) :
  (Float.series_min xs = NaN /\ Float.series_max xs = NaN) \/
  (Float.isnan (Float.series_min xs) = false /\
   Float.isnan (Float.series_max xs) = false /\
   Float.leb (Float.series_min xs) (Float.series_max xs) = true).
Proof.
  unfold Float.series_min, Float.series_max.
  pose proof (dropna_not_nan xs) as Hn.
  destruct (Float.dropna xs) as [ | x r]; [ now left | right ].
  apply Forall_cons_1 in Hn as [Hx Hr].
  destruct (fold_fmin_le r x Hx Hr) as [H1 H2].
  destruct (fold_fmax_ge r x Hx Hr) as [H3 H4].
  split; [ exact H1 | split; [ exact H3 | ] ]. eapply leb_trans; eauto.
Qed.

Lemma fold_Qplus_bounds (qs : list Q) (a lo hi : Q) (n : nat) :
  (lo * inject_Z (Z.of_nat n) <= a)%Q -> (a <= hi * inject_Z (Z.of_nat n))%Q ->
  Forall (fun q => (lo <= q <= hi)%Q) qs ->
  (lo * inject_Z (Z.of_nat (n + length qs)) <= fold_left Qplus qs a)%Q /\
  (fold_left Qplus qs a <= hi * inject_Z (Z.of_nat (n + length qs)))%Q.
Proof.
  intros Hlo Hhi Hq. revert a n Hlo Hhi.
  induction Hq as [ | q qs [Hq1 Hq2] Hqs IH]; intros a n Hlo Hhi.
  - simpl. now rewrite Nat.add_0_r.
  - simpl length. replace (n + S (length qs))%nat with (S n + length qs)%nat
      by lia.
    simpl fold_left. apply IH.
    + rewrite Nat2Z.inj_succ. unfold Z.succ. rewrite inject_Z_plus.
      change (inject_Z 1) with 1%Q. rewrite Qmult_plus_distr_r.
      clear IH Hhi. revert Hlo. generalize (lo * inject_Z (Z.of_nat n))%Q.
      intros; lra.
    + rewrite Nat2Z.inj_succ. unfold Z.succ. rewrite inject_Z_plus.
      change (inject_Z 1) with 1%Q. rewrite Qmult_plus_distr_r.
      clear IH Hlo. revert Hhi. generalize (hi * inject_Z (Z.of_nat n))%Q.
      intros; lra.
Qed.

(** The mean of numbers of an interval lies in the interval. *)
Lemma mean_bounds (qs : list Q) (lo hi : Q) :
  qs <> [] -> Forall (fun q => (lo <= q <= hi)%Q) qs ->
  exists m, Float.mean (map Fin qs) = Fin m /\ (lo <= m <= hi)%Q.
Proof.
  intros Hne Hq. unfold Float.mean, Float.sum, Float.zero.
  rewrite sum_Fin, length_map. unfold Float.of_nat, Float.of_Z, Float.div.
  assert (Hpos : (0 < inject_Z (Z.of_nat (length qs)))%Q).
  { change 0%Q with (inject_Z 0). rewrite <- Zlt_Qlt.
    destruct qs; [ congruence | simpl; lia ]. }
  rewrite Qeq_bool_false
    by (intros E; rewrite E in Hpos; now apply Qlt_irrefl in Hpos).
  eexists. split; [ reflexivity | ].
  destruct (fold_Qplus_bounds qs 0 lo hi 0) as [H1 H2];
    [ change (inject_Z (Z.of_nat 0)) with 0%Q; rewrite Qmult_0_r;
      apply Qle_refl
    | change (inject_Z (Z.of_nat 0)) with 0%Q; rewrite Qmult_0_r;
      apply Qle_refl
    | exact Hq | ].
  simpl plus in H1, H2. split.
  - apply Qle_shift_div_l; [ exact Hpos | exact H1 ].
  - apply Qle_shift_div_r; [ exact Hpos | exact H2 ].
Qed.

(** The cells that are numbers of an interval, after the missing ones
    are dropped. *)
Lemma dropna_numbers (xs : list npfloat) (lo hi : Q) :
  Forall (fun x => x = NaN \/ exists q, x = Fin q /\ (lo <= q <= hi)%Q) xs ->
  exists qs, Float.dropna xs = map Fin qs /\
             Forall (fun q => (lo <= q <= hi)%Q) qs.
Proof.
  induction 1 as [ | x xs Hx Hxs (qs & E & Hq)].
  - exists []. split; [ reflexivity | constructor ].
  - destruct Hx as [-> | (q & -> & Hq0)].
    + exists qs. split; [ exact E | exact Hq ].
    + exists (q :: qs). unfold Float.dropna in *. simpl. rewrite E.
      split; [ reflexivity | now constructor ].
Qed.

(** X21: in every row of the daily cloud frame the minimum and the
    maximum temperature of the day are both missing (no temperature was
    observed) or both present with the minimum not above the maximum;
    and when every total cloud cover observed is a number of octas from
    0 to 8, the mean cloud fraction is missing (no cover was observed)
    or a number of [0, 1]. *)
Theorem daily_cloud_ranges (hourly_cloud : list DailyCloud.hourly)
    (k : string * (Z * (Z * Z))) (d : DailyCloud.daily) :
  In (k, d) (DailyCloud.setup_from_scratch hourly_cloud) ->
  ((DailyCloud.tmin d = NaN /\ DailyCloud.tmax d = NaN) \/
   (Float.isnan (DailyCloud.tmin d) = false /\
    Float.isnan (DailyCloud.tmax d) = false /\
    Float.leb (DailyCloud.tmin d) (DailyCloud.tmax d) = true)) /\
  ((forall r, In r hourly_cloud ->
      DailyCloud.N r = NaN \/
      exists q, DailyCloud.N r = Fin q /\ (0 <= q <= 8)%Q) ->
   DailyCloud.mean_cloud d = NaN \/ Float.in_unit (DailyCloud.mean_cloud d)).
Proof.
  intros Hin. unfold DailyCloud.setup_from_scratch in Hin.
  apply in_groupby_apply in Hin as [_ Hd].
  unfold DailyCloud.calculate_daily in Hd. destruct Hd as [<- | []].
  cbn [DailyCloud.tmin DailyCloud.tmax DailyCloud.mean_cloud]. split.
  - apply series_min_le_max.
  - intros HN.
    set (g := get_group DailyCloud.day_key hourly_cloud k).
    destruct (dropna_numbers (map DailyCloud.N g) 0 8) as (qs & E & Hq).
    { apply Forall_map, Forall_forall. intros r Hr.
      apply list_elem_of_In, in_get_group in Hr as [Hr _]. now apply HN. }
    unfold Float.series_mean. rewrite E.
    destruct qs as [ | q qs]; [ left; reflexivity | right ].
    destruct (mean_bounds (q :: qs) 0 8 ltac:(discriminate) Hq)
      as (m & -> & Hm1 & Hm2).
    unfold Float.div, Float.of_Z.
    change (Qeq_bool (inject_Z 8) 0) with false. cbn [Float.in_unit]. split.
    + apply Qle_shift_div_l; [ reflexivity | ]. rewrite Qmult_0_l. exact Hm1.
    + apply Qle_shift_div_r; [ reflexivity | ]. rewrite Qmult_1_l. exact Hm2.
Qed.

Lemma daily_cloud_ranges_witness :
  Float.leb (Fin 3) (Fin 5) = true /\
  Float.in_unit (Fin (12 # 16)).
Proof.
  destruct (daily_cloud_ranges hourly_sample ("62"%string, (1990, (1, 1)))
              (DailyCloud.Daily 1 (Fin 3) (Fin 5)
                 (Fin (12 # 16)) (Fin (3 # 2))))
    as [Ht Hc].
  { vm_compute. left. reflexivity. }
  split.
  - destruct Ht as [[Ht _] | (_ & _ & Ht)]; [ discriminate Ht | exact Ht ].
  - destruct Hc as [Hc | Hc]; [ | discriminate Hc | exact Hc ].
    intros r Hr. right. simpl in Hr.
    destruct Hr as [<- | [<- | [<- | [<- | []]]]]; simpl; eexists;
      (split; [ reflexivity | split; discriminate ]).
Defined.

(** ** The paths of a configuration ([ModelOrganizer.fix_paths]) *)

(** Induction on a value of the configuration, through the entries of
    its dictionaries. *)
Lemma config_value_ind (P : Config.value -> Prop)
  (Hleaf : forall v, (forall d, v <> Config.VDict d) -> P v)
  (Hdict : forall d, Forall (fun e => P (snd e)) d -> P (Config.VDict d)) :
  forall v, P v.
Proof.
  fix go 1. intros [ | b | z | s | l | d ].
  1-5: apply Hleaf; discriminate.
  apply Hdict. induction d as [ | [k v] d IHd ]; constructor.
  - exact (go v).
  - exact IHd.
Qed.

Lemma isabs_nonempty (r : string) : Osp.isabs r = true -> r <> "".
Proof. intros H E. subst r. discriminate. Qed.

Lemma isabs_app (a b : string) :
  Osp.isabs a = true -> Osp.isabs (a +:+ b) = true.
Proof. destruct a as [ | c a ]; [ discriminate | intros H; exact H ]. Qed.

(** A path joined to an absolute directory is absolute, and an absolute
    path is what it was. *)
Lemma join_isabs (r p : string) :
  Osp.isabs r = true -> Osp.isabs (Osp.join r p) = true.
Proof.
  intros Hr. unfold Osp.join. destruct (Osp.isabs p) eqn:Hp; [ exact Hp | ].
  destruct (String.eqb r "" || Osp.endswith_sep r); apply isabs_app; exact Hr.
Qed.

Lemma join_abs (r p : string) : Osp.isabs p = true -> Osp.join r p = p.
Proof. intros Hp. unfold Osp.join. rewrite Hp. reflexivity. Qed.

Lemma py_or_rooted (r : string) (x : Config.value) :
  Osp.isabs r = true -> Config.py_or (Config.VStr r) x = Config.VStr r.
Proof.
  intros Hr. unfold Config.py_or. simpl.
  destruct (String.eqb_spec r ""); [ | reflexivity ].
  subst r. discriminate.
Qed.

Lemma fix_paths_dict (o : Organizer.organizer) (d : list (string * Config.value))
    (r : string) (model : Config.value) :
  Osp.isabs r = true ->
  Organizer.fix_paths o (Config.VDict d) (Config.VStr r) model =
  bind_outcome
    (Organizer.fix_items
       (fun o val =>
          Organizer.fix_paths o val (Config.VStr r)
            (Config.py_or model (Config.get d "model")))
       (Config.VStr r) (Config.py_or model (Config.get d "model")) o d)
    (fun lo => Returns (Config.VDict (fst lo), snd lo)).
Proof.
  intros Hr. cbn [Organizer.fix_paths]. rewrite (py_or_rooted r _ Hr).
  reflexivity.
Qed.

Lemma bind_outcome_Returns {A B : Type} (m : outcome A)
    (k : A -> outcome B) (b : B) :
  bind_outcome m k = Returns b -> exists a, m = Returns a /\ k a = Returns b.
Proof. destruct m as [a | e]; [ intros H; now exists a | discriminate ]. Qed.

Lemma lookup_cons (key k : string) (v : Config.value)
    (d : list (string * Config.value)) :
  Config.lookup ((k, v) :: d) key =
  if String.eqb k key then Some v else Config.lookup d key.
Proof.
  unfold Config.lookup. simpl. destruct (String.eqb k key); reflexivity.
Qed.

Lemma fix_items_cons
    (nested : Organizer.organizer -> Config.value ->
              outcome (Config.value * Organizer.organizer))
    (root model : Config.value) (o : Organizer.organizer) (key : string)
    (val : Config.value) (l : list (string * Config.value)) :
  Organizer.fix_items nested root model o ((key, val) :: l) =
  bind_outcome
    (match val with
     | Config.VDict _ => nested o val
     | _ =>
         if bool_decide (key ∈ Organizer.paths)
         then Organizer.abspath o val model root
         else Returns (val, o)
     end)
    (fun vo =>
       bind_outcome (Organizer.fix_items nested root model (snd vo) l)
         (fun lo => Returns ((key, fst vo) :: fst lo, snd lo))).
Proof. reflexivity. Qed.

Section rooted.

Variable r : string.
Hypothesis Hr : Osp.isabs r = true.

(** An entry that is no dictionary: with the root given, a path is
    joined to it and the organizer is not asked. *)
Lemma leaf_rooted (o : Organizer.organizer) (key : string)
    (val model : Config.value) (vo : Config.value * Organizer.organizer) :
  (forall d, val <> Config.VDict d) ->
  (if bool_decide (key ∈ Organizer.paths)
   then Organizer.abspath o val model (Config.VStr r)
   else Returns (val, o)) = Returns vo ->
  snd vo = o /\
  (forall d, fst vo <> Config.VDict d) /\
  (key ∉ Organizer.paths -> fst vo = val) /\
  absolute_paths (Config.VDict [(key, fst vo)]) = true.
Proof.
  intros Hval. destruct (bool_decide (key ∈ Organizer.paths)) eqn:Hk.
  - destruct val as [ | b | z | p | l | d ];
      cbn [Organizer.abspath Config.osp_join bind_outcome fst snd];
      try discriminate.
    intros [= <-]. cbn [fst snd]. repeat split.
    + discriminate.
    + intros Hn. apply bool_decide_eq_true in Hk. contradiction.
    + cbn [absolute_paths forallb]. rewrite Hk, (join_isabs r p Hr).
      reflexivity.
  - intros [= <-]. cbn [fst snd]. repeat split; [ exact Hval | ].
    cbn [absolute_paths forallb]. rewrite Hk.
    destruct val as [ | b | z | p | l | d ]; try reflexivity.
    now destruct (Hval d).
Qed.

Lemma fix_items_rooted (items : list (string * Config.value)) :
  Forall (fun e =>
            forall o model v' o',
              Organizer.fix_paths o (snd e) (Config.VStr r) model =
              Returns (v', o') ->
              o' = o /\ absolute_paths v' = true /\
              exists d', v' = Config.VDict d') items ->
  forall o nested_model model items' o',
    Organizer.fix_items
      (fun o val => Organizer.fix_paths o val (Config.VStr r) nested_model)
      (Config.VStr r) model o items = Returns (items', o') ->
    o' = o /\
    absolute_paths (Config.VDict items') = true /\
    map fst items' = map fst items /\
    forall key x,
      key ∉ Organizer.paths -> (forall d, x <> Config.VDict d) ->
      Config.lookup items key = Some x -> Config.lookup items' key = Some x.
Proof.
  induction 1 as [ | [key val] items Hval _ IH ];
    intros o nested_model model items' o'.
  - intros [= <- <-]. repeat split. intros key x _ _ H. exact H.
  - rewrite fix_items_cons. intros H.
    apply bind_outcome_Returns in H. destruct H as [[v1 o1] [H1 H]].
    apply bind_outcome_Returns in H. destruct H as [[l2 o2] [H2 H]].
    cbn [fst snd] in H, H2. injection H as <- <-.
    apply IH in H2. destruct H2 as [-> [Habs [Hkeys Hlook]]].
    assert (Hentry : o1 = o /\
                     absolute_paths (Config.VDict [(key, v1)]) = true /\
                     forall x, key ∉ Organizer.paths ->
                               (forall d, x <> Config.VDict d) ->
                               val = x -> v1 = x).
    { destruct val as [ | b | z | p | l | d ].
      1-5: apply leaf_rooted in H1; [ | discriminate ];
           cbn [fst snd] in H1; destruct H1 as [H1 [_ [H3 H4]]];
           repeat split; [ exact H1 | exact H4 | ];
           intros x Hk _ <-; exact (H3 Hk).
      cbn [snd] in Hval. apply Hval in H1.
      destruct H1 as [-> [H1 [d' ->]]]. repeat split.
      - cbn [absolute_paths forallb] in *. rewrite H1. reflexivity.
      - intros x _ Hx <-. now destruct (Hx d). }
    destruct Hentry as [-> [Hv1 Hsame]]. repeat split.
    + cbn [absolute_paths forallb] in *.
      rewrite andb_true_r in Hv1. rewrite Hv1. exact Habs.
    + cbn [map fst]. now rewrite Hkeys.
    + intros k x Hk Hx. rewrite !lookup_cons.
      destruct (String.eqb_spec key k) as [-> | _].
      * intros [= E]. now rewrite (Hsame x Hk Hx E).
      * now apply Hlook.
Qed.

Lemma fix_paths_rooted (v v' : Config.value) (o o' : Organizer.organizer)
    (model : Config.value) :
  Organizer.fix_paths o v (Config.VStr r) model = Returns (v', o') ->
  o' = o /\ absolute_paths v' = true /\ exists d', v' = Config.VDict d'.
Proof.
  revert o model v' o'. induction v as [v Hv | d IH] using config_value_ind;
    intros o model v' o'.
  - destruct v; try discriminate. now destruct (Hv d).
  - rewrite (fix_paths_dict _ _ _ _ Hr). intros H.
    apply bind_outcome_Returns in H. destruct H as [[l1 o1] [H1 H]].
    injection H as <- <-. cbn [fst snd].
    apply (fix_items_rooted d IH) in H1. destruct H1 as [-> [H1 _]].
    repeat split; [ exact H1 | now exists l1 ].
Qed.

(** An absolute path stays what it is. *)
Lemma fix_items_absolute (items : list (string * Config.value)) :
  Forall (fun e =>
            absolute_paths (snd e) = true ->
            forall d, snd e = Config.VDict d ->
            forall o model,
              Organizer.fix_paths o (snd e) (Config.VStr r) model =
              Returns (snd e, o)) items ->
  absolute_paths (Config.VDict items) = true ->
  forall o nested_model model,
    Organizer.fix_items
      (fun o val => Organizer.fix_paths o val (Config.VStr r) nested_model)
      (Config.VStr r) model o items = Returns (items, o).
Proof.
  induction 1 as [ | [key val] items Hval _ IH ];
    intros Habs o nested_model model; [ reflexivity | ].
  cbn [absolute_paths forallb] in Habs. apply andb_true_iff in Habs.
  destruct Habs as [Hentry Habs]. rewrite fix_items_cons.
  cbn [snd] in Hval. cbn [snd] in Hval.
  destruct val as [ | b | z | p | l | d ].
  1-3, 5: apply negb_true_iff in Hentry; rewrite Hentry;
          cbn [bind_outcome fst snd]; now rewrite (IH Habs).
  - destruct (bool_decide (key ∈ Organizer.paths)).
    + cbn [implb] in Hentry.
      cbn [Organizer.abspath Config.osp_join bind_outcome fst snd].
      now rewrite (IH Habs), (join_abs r p Hentry).
    + cbn [bind_outcome fst snd]. now rewrite (IH Habs).
  - rewrite (Hval Hentry d eq_refl). cbn [bind_outcome fst snd].
    now rewrite (IH Habs).
Qed.

Lemma fix_paths_absolute (v : Config.value) :
  absolute_paths v = true ->
  forall d, v = Config.VDict d ->
  forall o model,
    Organizer.fix_paths o v (Config.VStr r) model = Returns (v, o).
Proof.
  induction v as [v Hv | d IH] using config_value_ind;
    intros Habs d' E o model.
  - now destruct (Hv d').
  - rewrite (fix_paths_dict _ _ _ _ Hr).
    now rewrite (fix_items_absolute d IH Habs).
Qed.

(** The one error below a given root: a path that is no string. *)
Lemma fix_items_outcome (items : list (string * Config.value)) :
  Forall (fun e =>
            forall d, snd e = Config.VDict d ->
            forall o model,
              match Organizer.fix_paths o (snd e) (Config.VStr r) model with
              | Returns vo => string_paths (snd e) = true /\ snd vo = o
              | Raises err =>
                  string_paths (snd e) = false /\ err = TypeError
              end) items ->
  forall o nested_model model,
    match Organizer.fix_items
            (fun o val =>
               Organizer.fix_paths o val (Config.VStr r) nested_model)
            (Config.VStr r) model o items with
    | Returns lo => string_paths (Config.VDict items) = true /\ snd lo = o
    | Raises err =>
        string_paths (Config.VDict items) = false /\ err = TypeError
    end.
Proof.
  induction 1 as [ | [key val] items Hval _ IH ]; intros o nested_model model.
  - now split.
  - rewrite fix_items_cons. cbn [string_paths forallb]. cbn [snd] in Hval.
    assert (Hentry :
      match (match val with
             | Config.VDict _ =>
                 Organizer.fix_paths o val (Config.VStr r) nested_model
             | _ =>
                 if bool_decide (key ∈ Organizer.paths)
                 then Organizer.abspath o val model (Config.VStr r)
                 else Returns (val, o)
             end) with
      | Returns vo =>
          match val with
          | Config.VDict _ => string_paths val
          | Config.VStr _ => true
          | _ => negb (bool_decide (key ∈ Organizer.paths))
          end = true /\ snd vo = o
      | Raises err =>
          match val with
          | Config.VDict _ => string_paths val
          | Config.VStr _ => true
          | _ => negb (bool_decide (key ∈ Organizer.paths))
          end = false /\ err = TypeError
      end).
    { destruct val as [ | b | z | p | l | d ].
      1-5: destruct (bool_decide (key ∈ Organizer.paths)); now split.
      exact (Hval d eq_refl o nested_model). }
    destruct (match val with
              | Config.VDict _ => _
              | _ => _
              end) as [[v1 o1] | err].
    + destruct Hentry as [-> E]. cbn [snd] in E. subst o1.
      cbn [bind_outcome snd fst andb].
      specialize (IH o nested_model model). cbn [string_paths] in IH.
      destruct (Organizer.fix_items _ _ _ o items) as [[l2 o2] | err];
        exact IH.
    + destruct Hentry as [-> ->]. now split.
Qed.

Lemma fix_paths_outcome (v : Config.value) :
  forall d, v = Config.VDict d ->
  forall o model,
    match Organizer.fix_paths o v (Config.VStr r) model with
    | Returns vo => string_paths v = true /\ snd vo = o
    | Raises err => string_paths v = false /\ err = TypeError
    end.
Proof.
  induction v as [v Hv | d IH] using config_value_ind; intros d' E o model.
  - now destruct (Hv d').
  - rewrite (fix_paths_dict _ _ _ _ Hr).
    pose proof (fix_items_outcome d IH o
                  (Config.py_or model (Config.get d "model"))
                  (Config.py_or model (Config.get d "model"))) as H.
    destruct (Organizer.fix_items _ _ _ o d) as [[l1 o1] | err]; exact H.
Qed.

End rooted.

(** The root that a dictionary is fixed with: the one given, else its
    own; the root of the dictionary is no path and is kept. *)
Lemma effective_root_kept (root : Config.value)
    (items items' : list (string * Config.value)) (r : string) :
  Config.py_or root (Config.get items "root") = Config.VStr r ->
  (forall key x,
      key ∉ Organizer.paths -> (forall d, x <> Config.VDict d) ->
      Config.lookup items key = Some x -> Config.lookup items' key = Some x) ->
  Config.py_or root (Config.get items' "root") = Config.VStr r.
Proof.
  unfold Config.py_or. destruct (Config.truthy root); [ easy | ].
  unfold Config.get. intros E Hlook.
  destruct (Config.lookup items "root") as [x | ] eqn:Ex;
    [ | discriminate ].
  change (x = Config.VStr r) in E. subst x.
  rewrite (Hlook "root" (Config.VStr r)); [ reflexivity | | | exact Ex ].
  - intros Hin.
    assert (E : bool_decide ("root" ∈ Organizer.paths) = true)
      by now apply bool_decide_eq_true.
    vm_compute in E. discriminate.
  - intros d. discriminate.
Qed.

(** X23: [fix_paths] with an absolute root directory, given or in the
    dictionary, on a dictionary whose path entries are strings at every
    depth: it returns the dictionary with the same keys in the same
    order, every path entry absolute at every depth, the entries that
    are neither dictionaries nor paths as they were, and it leaves the
    organizer as it was. *)
Theorem fix_paths_makes_paths_absolute (o : Organizer.organizer)
    (items : list (string * Config.value)) (root model : Config.value)
    (r : string) :
  Config.py_or root (Config.get items "root") = Config.VStr r ->
  Osp.isabs r = true ->
  string_paths (Config.VDict items) = true ->
  exists items',
    Organizer.fix_paths o (Config.VDict items) root model =
    Returns (Config.VDict items', o) /\
    map fst items' = map fst items /\
    absolute_paths (Config.VDict items') = true /\
    forall key x,
      key ∉ Organizer.paths -> (forall d, x <> Config.VDict d) ->
      Config.lookup items key = Some x -> Config.lookup items' key = Some x.
Proof.
  intros Hroot Hr Hstr. cbn [Organizer.fix_paths]. rewrite Hroot.
  set (m := Config.py_or model (Config.get items "model")).
  assert (Hall : forall P : Config.value -> Prop,
             (forall v, P v) -> Forall (fun e => P (snd e)) items).
  { intros P HP. apply Forall_forall. intros e _. apply HP. }
  pose proof (fix_items_outcome r items
                (Hall _ (fun v => fix_paths_outcome r Hr v)) o m m) as Hout.
  destruct (Organizer.fix_items _ _ _ o items) as [[items' o'] | err] eqn:E.
  - destruct Hout as [_ Ho]. cbn [snd] in Ho. subst o'.
    exists items'. cbn [bind_outcome fst snd]. split; [ reflexivity | ].
    apply (fix_items_rooted r Hr items) in E.
    + destruct E as [_ [Habs [Hkeys Hlook]]]. now repeat split.
    + apply Forall_forall. intros e _ o1 m1 v' o'.
      apply (fix_paths_rooted r Hr).
  - destruct Hout as [Hout _]. congruence.
Qed.

Lemma fix_paths_makes_paths_absolute_witness :
  exists items',
    Organizer.fix_paths organizer_sample (Config.VDict model_items_sample)
      Config.VNone Config.VNone =
    Returns (Config.VDict items', organizer_sample) /\
    map fst items' = map fst model_items_sample /\
    absolute_paths (Config.VDict items') = true /\
    forall key x,
      key ∉ Organizer.paths -> (forall d, x <> Config.VDict d) ->
      Config.lookup model_items_sample key = Some x ->
      Config.lookup items' key = Some x.
Proof.
  apply (fix_paths_makes_paths_absolute organizer_sample model_items_sample
           Config.VNone Config.VNone "/home/user/models/gwgen0");
    reflexivity.
Defined.

(** X24: [fix_paths] with an absolute root directory, given or in the
    dictionary, is idempotent: on the dictionary that it returned it
    returns the same dictionary, and the organizer is as before. *)
Theorem fix_paths_is_idempotent (o o' : Organizer.organizer)
    (items : list (string * Config.value)) (root model d' : Config.value)
    (r : string) :
  Config.py_or root (Config.get items "root") = Config.VStr r ->
  Osp.isabs r = true ->
  Organizer.fix_paths o (Config.VDict items) root model = Returns (d', o') ->
  o' = o /\ Organizer.fix_paths o d' root model = Returns (d', o).
Proof.
  intros Hroot Hr. cbn [Organizer.fix_paths]. rewrite Hroot. intros H.
  apply bind_outcome_Returns in H. destruct H as [[items' o1] [H1 H]].
  cbn [fst snd] in H. injection H as <- <-.
  apply (fix_items_rooted r Hr items) in H1.
  - destruct H1 as [-> [Habs [_ Hlook]]]. split; [ reflexivity | ].
    cbn [Organizer.fix_paths].
    rewrite (effective_root_kept root items items' r Hroot Hlook).
    rewrite (fix_items_absolute r items'); [ reflexivity | | exact Habs ].
    apply Forall_forall. intros e _ He d E o2 m2.
    now apply (fix_paths_absolute r Hr (snd e) He d).
  - apply Forall_forall. intros e _ o2 m2 v' o3.
    apply (fix_paths_rooted r Hr).
Qed.

Lemma fix_paths_is_idempotent_witness :
  organizer_sample = organizer_sample /\
  Organizer.fix_paths organizer_sample
    (Config.VDict
       [ ("root", Config.VStr "/home/user/models/gwgen0");
         ("src", Config.VStr "/home/user/models/gwgen0/src");
         ("data", Config.VStr "/data/ghcn");
         ("timestamps", Config.VDict [("setup", Config.VStr "2016-01-01")]);
         ("bin", Config.VStr "/home/user/models/gwgen0/bin") ]%string)
    Config.VNone Config.VNone =
  Returns
    (Config.VDict
       [ ("root", Config.VStr "/home/user/models/gwgen0");
         ("src", Config.VStr "/home/user/models/gwgen0/src");
         ("data", Config.VStr "/data/ghcn");
         ("timestamps", Config.VDict [("setup", Config.VStr "2016-01-01")]);
         ("bin", Config.VStr "/home/user/models/gwgen0/bin") ]%string,
     organizer_sample).
Proof.
  apply (fix_paths_is_idempotent organizer_sample organizer_sample
           model_items_sample Config.VNone Config.VNone _
           "/home/user/models/gwgen0"); reflexivity.
Defined.

(** X25: [fix_paths] with an absolute root directory, given or in the
    dictionary, raises [TypeError] when, at some depth, an entry under a
    key of [paths] is neither a string nor a dictionary. *)
Theorem fix_paths_path_no_string (o : Organizer.organizer)
    (items : list (string * Config.value)) (root model : Config.value)
    (r : string) :
  Config.py_or root (Config.get items "root") = Config.VStr r ->
  Osp.isabs r = true ->
  string_paths (Config.VDict items) = false ->
  Organizer.fix_paths o (Config.VDict items) root model = Raises TypeError.
Proof.
  intros Hroot Hr Hstr. cbn [Organizer.fix_paths]. rewrite Hroot.
  set (m := Config.py_or model (Config.get items "model")).
  assert (Hall : Forall (fun e =>
            forall d, snd e = Config.VDict d ->
            forall o model,
              match Organizer.fix_paths o (snd e) (Config.VStr r) model with
              | Returns vo => string_paths (snd e) = true /\ snd vo = o
              | Raises err =>
                  string_paths (snd e) = false /\ err = TypeError
              end) items).
  { apply Forall_forall. intros e _. apply (fix_paths_outcome r Hr). }
  pose proof (fix_items_outcome r items Hall o m m) as Hout.
  destruct (Organizer.fix_items _ _ _ o items) as [[items' o'] | err].
  - destruct Hout as [Hout _]. congruence.
  - destruct Hout as [_ ->]. reflexivity.
Qed.

Lemma fix_paths_path_no_string_witness :
  Organizer.fix_paths organizer_sample (Config.VDict broken_items_sample)
    Config.VNone Config.VNone = Raises TypeError.
Proof.
  apply (fix_paths_path_no_string organizer_sample broken_items_sample
           Config.VNone Config.VNone "/home/user/models/gwgen0");
    reflexivity.
Defined.

(** ** The arguments of chained commands ([FuncArgParser.parse_known_args]) *)

Lemma runs_cons {K A : Type} `{EqDecision K} (k : K) (a : A)
    (l : list (K * A)) :
  FuncArgParser.runs ((k, a) :: l) =
  match FuncArgParser.runs l with
  | (k', g) :: rest =>
      if decide (k = k') then (k, a :: g) :: rest
      else (k, [a]) :: (k', g) :: rest
  | [] => [(k, [a])]
  end.
Proof. reflexivity. Qed.

(** The groups of the arguments that follow a call of [groupargs] which
    left [current]: a first group, of [current] or of a command, and
    then groups of commands. *)
Lemma runs_keyed (commands : list string) (args : list string) :
  forall current,
    match FuncArgParser.runs (FuncArgParser.keyed commands current args) with
    | [] => args = []
    | (k, g) :: rest =>
        exists a g' groups,
          g = a :: g' /\
          k = FuncArgParser.groupargs commands current a /\
          Forall (fun b => b ∈ commands -> k = Some b) g' /\
          rest = map (fun cg : string * list string =>
                        (Some (fst cg), snd cg)) groups /\
          Forall (command_group commands) groups /\
          match groups with
          | [] => True
          | cg :: _ => k <> Some (fst cg)
          end /\
          alternate (map fst groups) /\
          args = g ++ concat (map snd groups)
    end.
Proof.
  induction args as [ | a args IH ]; intros current; [ reflexivity | ].
  cbn [FuncArgParser.keyed]. rewrite runs_cons.
  set (k := FuncArgParser.groupargs commands current a).
  specialize (IH k).
  destruct (FuncArgParser.runs (FuncArgParser.keyed commands k args))
    as [ | [k' g] rest ].
  - subst args. exists a, [], []. now repeat split.
  - destruct IH as (b & g' & groups & -> & Hk' & Hg' & -> & Hgroups & Hne
                    & Halt & ->).
    assert (Hb : k' <> k -> b ∈ commands /\ k' = Some b).
    { intros Hdiff. unfold FuncArgParser.groupargs in Hk'.
      destruct (bool_decide (b ∈ commands)) eqn:E; [ | contradiction ].
      apply bool_decide_eq_true in E. now split. }
    destruct (decide (k = k')) as [<- | Hdiff].
    + exists a, (b :: g'), groups. repeat split; try assumption.
      constructor; [ | exact Hg' ].
      intros Hin. unfold FuncArgParser.groupargs in Hk'.
      now rewrite (bool_decide_eq_true_2 _ Hin) in Hk'.
    + destruct Hb as [Hin ->]; [ congruence | ].
      exists a, [], ((b, b :: g') :: groups). repeat split.
      * constructor.
      * constructor; [ | exact Hgroups ].
        exists g'. repeat split; [ exact Hin | ].
        eapply Forall_impl; [ exact Hg' | ].
        cbn [fst]. intros c Hc Hcin. specialize (Hc Hcin). congruence.
      * exact Hdiff.
      * cbn [map fst alternate]. destruct groups as [ | cg groups ];
          [ exact I | ].
        split; [ | exact Halt ]. cbn [map fst]. congruence.
Qed.

Lemma calls_commands (groups : list (string * list string))
    (main : list string) :
  FuncArgParser.calls
    (map (fun cg : string * list string => (Some (fst cg), snd cg)) groups)
    main =
  (main, map (fun cg => (fst cg, main ++ snd cg)) groups).
Proof.
  induction groups as [ | [c g] groups IH ]; [ reflexivity | ].
  cbn [map FuncArgParser.calls fst snd]. now rewrite IH.
Qed.

(** X26: [parse_known_args] with chained commands splits the arguments
    without losing or reordering one: into the arguments of the main
    parser, which are those before the first command, and one group for
    each run of a command, which starts with the command and goes up to
    the next other command; the parser of a command is called with the
    main arguments followed by its group.  A command that follows itself
    does not start a new group. *)
Theorem parse_known_args_groups (commands args : list string) :
  exists main groups,
    FuncArgParser.parser_calls commands args =
    (main, map (fun cg => (fst cg, main ++ snd cg)) groups) /\
    args = main ++ concat (map snd groups) /\
    Forall (fun a => a ∉ commands) main /\
    Forall (command_group commands) groups /\
    alternate (map fst groups).
Proof.
  unfold FuncArgParser.parser_calls, FuncArgParser.groupby.
  pose proof (runs_keyed commands args None) as H.
  destruct (FuncArgParser.runs (FuncArgParser.keyed commands None args))
    as [ | [k g] rest ].
  - subst args. exists [], []. now repeat split.
  - destruct H as (a & g' & groups & -> & Hk & Hg' & -> & Hgroups & Hne
                   & Halt & ->).
    unfold FuncArgParser.groupargs in Hk.
    destruct (bool_decide (a ∈ commands)) eqn:E; subst k.
    + apply bool_decide_eq_true in E.
      exists [], ((a, a :: g') :: groups).
      change (FuncArgParser.calls _ [])
        with (FuncArgParser.calls
                (map (fun cg : string * list string =>
                        (Some (fst cg), snd cg)) ((a, a :: g') :: groups))
                []).
      rewrite calls_commands.
      split; [ reflexivity | ]. split; [ reflexivity | ].
      split; [ constructor | ]. split.
      * constructor; [ | exact Hgroups ].
        exists g'. repeat split; [ exact E | ].
        eapply Forall_impl; [ exact Hg' | ].
        cbn [fst]. intros c Hc Hcin. specialize (Hc Hcin). congruence.
      * cbn [map fst alternate]. destruct groups as [ | cg groups ];
          [ exact I | ].
        split; [ | exact Halt ]. cbn [map fst]. congruence.
    + apply bool_decide_eq_false in E.
      exists (a :: g'), groups. cbn [FuncArgParser.calls app].
      rewrite calls_commands.
      split; [ reflexivity | ]. split; [ reflexivity | ].
      split; [ | now split ].
      constructor; [ exact E | ].
      eapply Forall_impl; [ exact Hg' | ].
      intros c Hc Hcin. now specialize (Hc Hcin).
Qed.

(** ** The monthly cloud values ([MonthlyCloud.calculate_monthly]) *)

Lemma fold_Qplus_acc (qs : list Q) (a : Q) :
  (fold_left Qplus qs a == a + fold_left Qplus qs 0)%Q.
Proof.
  revert a. induction qs as [ | q qs IH ]; intros a; simpl.
  - lra.
  - rewrite (IH (a + q)%Q), (IH (0 + q)%Q). lra.
Qed.

(** The numbers of a column: those of the wet days and those of the
    dry days. *)
Lemma wet_dry_numbers (df : list DailyCloud.daily) :
  Forall (fun r => DailyCloud.mean_cloud r <> PInf /\
                   DailyCloud.mean_cloud r <> NInf) df ->
  exists qa qw qd,
    Float.dropna (map DailyCloud.mean_cloud df) = map Fin qa /\
    Float.dropna (Arr.select (map DailyCloud.mean_cloud df)
                             (MonthlyCloud.wet df)) = map Fin qw /\
    Float.dropna (Arr.select (map DailyCloud.mean_cloud df)
                             (MonthlyCloud.dry df)) = map Fin qd /\
    (fold_left Qplus qa 0 ==
     fold_left Qplus qw 0 + fold_left Qplus qd 0)%Q /\
    length qa = (length qw + length qd)%nat.
Proof.
  induction 1 as [ | r df [Hp Hn] _ (qa & qw & qd & Ea & Ew & Ed & Hs & Hl) ].
  - exists [], [], []. repeat split.
  - unfold MonthlyCloud.dry, MonthlyCloud.wet, Float.dropna in *.
    cbn [map Arr.select].
    destruct (DailyCloud.mean_cloud r) as [q | | | ] eqn:Eq;
      try congruence.
    + destruct (negb (DailyCloud.wet_day r =? 0)); cbn [negb].
      * exists (q :: qa), (q :: qw), qd. cbn [List.filter Float.isnan negb].
        rewrite Ea, Ew, Ed. repeat split.
        -- cbn [fold_left].
           rewrite (fold_Qplus_acc qa (0 + q)), (fold_Qplus_acc qw (0 + q)).
           lra.
        -- cbn [length]. lia.
      * exists (q :: qa), qw, (q :: qd). cbn [List.filter Float.isnan negb].
        rewrite Ea, Ew, Ed. repeat split.
        -- cbn [fold_left].
           rewrite (fold_Qplus_acc qa (0 + q)), (fold_Qplus_acc qd (0 + q)).
           lra.
        -- cbn [length]. lia.
    + exists qa, qw, qd.
      destruct (negb (DailyCloud.wet_day r =? 0)); cbn [negb];
        cbn [List.filter Float.isnan negb]; now repeat split.
Qed.

(** The mean of a column of numbers: their sum over their count, which
    is then not zero. *)
Lemma mean_number (qs : list Q) (m : Q) :
  Float.mean (map Fin qs) = Fin m ->
  (0 < inject_Z (Z.of_nat (length qs)))%Q /\
  (fold_left Qplus qs 0 == m * inject_Z (Z.of_nat (length qs)))%Q.
Proof.
  unfold Float.mean, Float.sum, Float.zero.
  rewrite sum_Fin, length_map. unfold Float.of_nat, Float.of_Z, Float.div.
  destruct (Qeq_bool (inject_Z (Z.of_nat (length qs))) 0) eqn:E.
  - destruct (Qeq_bool (fold_left Qplus qs 0%Q) 0%Q); [ discriminate | ].
    unfold Float.inf_of_sign.
    now destruct (Qnum (fold_left Qplus qs 0%Q) <? 0)%Z.
  - intros [= <-]. apply Qeq_bool_neq in E.
    assert (Hpos : (0 < inject_Z (Z.of_nat (length qs)))%Q).
    { change 0%Q with (inject_Z 0). rewrite <- Zlt_Qlt.
      destruct qs as [ | q qs ]; [ now destruct E | simpl; lia ]. }
    split; [ exact Hpos | ]. field. exact E.
Qed.

(** X22: the monthly mean cloud lies between the mean of the wet days
    and the mean of the dry days (in exact arithmetic), when both are
    numbers and no cell of the month is infinite. *)
Theorem monthly_cloud_between_wet_and_dry (df : list DailyCloud.daily)
    (row : MonthlyCloud.monthly) (w d : Q) :
  Forall (fun r => DailyCloud.mean_cloud r <> PInf /\
                   DailyCloud.mean_cloud r <> NInf) df ->
  MonthlyCloud.calculate_monthly df = [row] ->
  MonthlyCloud.mean_cloud_wet row = Fin w ->
  MonthlyCloud.mean_cloud_dry row = Fin d ->
  exists m,
    MonthlyCloud.mean_cloud row = Fin m /\
    ((w <= m <= d)%Q \/ (d <= m <= w)%Q).
Proof.
  intros Hfin Hrow. unfold MonthlyCloud.calculate_monthly in Hrow.
  destruct (1 <? length df)%nat; [ | discriminate ].
  injection Hrow as <-. cbn [MonthlyCloud.mean_cloud_wet
    MonthlyCloud.mean_cloud_dry MonthlyCloud.mean_cloud].
  unfold Float.series_mean.
  destruct (wet_dry_numbers df Hfin)
    as (qa & qw & qd & -> & -> & -> & Hs & Hl).
  intros Hw Hd.
  apply mean_number in Hw. destruct Hw as [Hnw Hw].
  apply mean_number in Hd. destruct Hd as [Hnd Hd].
  unfold Float.mean, Float.sum, Float.zero.
  rewrite sum_Fin, length_map. unfold Float.of_nat, Float.of_Z, Float.div.
  assert (Hn : (inject_Z (Z.of_nat (length qa)) ==
                inject_Z (Z.of_nat (length qw)) +
                inject_Z (Z.of_nat (length qd)))%Q).
  { rewrite Hl, Nat2Z.inj_add, inject_Z_plus. reflexivity. }
  clear Hl. revert Hs Hw Hd Hn Hnw Hnd.
  generalize (inject_Z (Z.of_nat (length qa))),
             (inject_Z (Z.of_nat (length qw))),
             (inject_Z (Z.of_nat (length qd))),
             (fold_left Qplus qa 0%Q), (fold_left Qplus qw 0%Q),
             (fold_left Qplus qd 0%Q).
  intros na nw nd sa sw sd Hs Hw Hd Hn Hnw Hnd.
  assert (Hna : (0 < na)%Q) by lra.
  rewrite Qeq_bool_false by lra.
  eexists. split; [ reflexivity | ].
  destruct (Qlt_le_dec d w) as [Hlt | Hle]; [ right | left ]; split.
  - apply Qle_shift_div_l; [ exact Hna | ]. rewrite Hs, Hw, Hd, Hn. nra.
  - apply Qle_shift_div_r; [ exact Hna | ]. rewrite Hs, Hw, Hd, Hn. nra.
  - apply Qle_shift_div_l; [ exact Hna | ]. rewrite Hs, Hw, Hd, Hn. nra.
  - apply Qle_shift_div_r; [ exact Hna | ]. rewrite Hs, Hw, Hd, Hn. nra.
Qed.

Lemma monthly_cloud_between_wet_and_dry_witness :
  exists m,
    MonthlyCloud.mean_cloud cloud_month_sample = Fin m /\
    ((14 # 16 <= m <= 2 # 8)%Q \/ (2 # 8 <= m <= 14 # 16)%Q).
Proof.
  apply (monthly_cloud_between_wet_and_dry cloud_days_sample).
  - repeat constructor; discriminate.
  - vm_compute. reflexivity.
  - reflexivity.
  - reflexivity.
Defined.
